(** * LWMD: a streaming MarkDown-to-DOM parser (src/lwmd.js)

    A shallow embedding of the parser class [LWMD] and a verification of
    the properties its specification states about it, and of further
    properties that the code has.

    Conventions of the embedding.
    - A JavaScript string is the list of its UTF-16 code units ([jsstring]);
      [charCodeAt] is list indexing and [slice] follows ECMAScript
      (negative indices count from the end, out of range indices are
      clamped).
    - JavaScript numbers that hold positions and counters are integers [Z].
      A field that may hold [null] is an [option Z]; [null] converts to 0 in
      arithmetic and comparisons and is never [===] to a number.
    - The DOM below the target is the ordered list of the [append] calls
      made on it; elements made by [document.createElement] are told apart
      by a creation counter.
    - A [TypeError] (property access on [undefined]) ends the call that
      raises it.
    - The input of [write] is a string (the decoding of byte buffers is left
      out).  A change of the target, in [reset] and [parse], is a change of
      the document below the target; [parse] is modelled without its
      optional target argument.  [wrapNode] is never called by the
      parser. *)

From Stdlib Require Import String Ascii ZArith List Bool Lia.
Import ListNotations.
Local Open Scope Z_scope.

Set Implicit Arguments.

(** ** Results of calls that may throw *)

Inductive result (A : Type) : Type :=
| Ok (a : A)
| TypeError.
Arguments TypeError {A}.

Definition bind {A B : Type} (c : result A) (k : A -> result B) : result B :=
  match c with
  | Ok a => k a
  | TypeError => TypeError
  end.

Notation "x <- c ;; k" := (bind c (fun x => k))
  (at level 61, c at next level, right associativity).

(** ** Strings *)

Definition jsstring := list Z.

Definition js (s : string) : jsstring :=
  map (fun a => Z.of_nat (nat_of_ascii a)) (list_ascii_of_string s).

Definition len (s : jsstring) : Z := Z.of_nat (List.length s).
Arguments js s%_string.

(** [String.prototype.slice]: a relative index below 0 counts from the end. *)
Definition relative_index (l i : Z) : Z :=
  if i <? 0 then Z.max (l + i) 0 else Z.min i l.

Definition slice (s : jsstring) (a b : Z) : jsstring :=
  let from := relative_index (len s) a in
  let to := relative_index (len s) b in
  firstn (Z.to_nat (to - from)) (skipn (Z.to_nat from) s).

(** [ToNumber] on a number or [null], and [idx === v]. *)
Definition toNumber (v : option Z) : Z :=
  match v with
  | Some z => z
  | None => 0
  end.

Definition strict_eq (idx : Z) (v : option Z) : bool :=
  match v with
  | Some z => idx =? z
  | None => false
  end.

(** [a.length] and [a[i]] on an array; an index out of range reads
    [undefined]. *)
Definition length_of {A : Type} (a : list A) : Z := Z.of_nat (List.length a).

Definition at_index {A : Type} (a : list A) (i : Z) : option A :=
  if i <? 0 then None else nth_error a (Z.to_nat i).

(** ** LWMD_ENUM *)

Module CHAR.
Definition SPACE : Z := 32.
Definition NEWLINE : Z := 10.
Definition BACKSLASH : Z := 92.
Definition ASTERISK : Z := 42.
Definition UNDERSCORE : Z := 95.
Definition TILDE : Z := 126.
Definition HASH : Z := 35.
Definition DASH : Z := 45.
Definition BACKTICK : Z := 96.
Definition GREATER_THAN : Z := 62.
Definition PIPE : Z := 124.
End CHAR.

Inductive STATE : Type :=
| NORMAL
| SEQUENCE_HEADING
| SEQUENCE_HR
| SEQUENCE_MODIFIER
| CODE
| CODE_BLOCK.

(** ** The document *)

(** Tag names the parser creates: [`h${n}`] and ["hr"]. *)
Inductive tagName : Type :=
| h (level : Z)
| hr.

Inductive element : Type :=
| target
| created (id : nat) (tag : tagName).

Inductive node : Type :=
| text (s : jsstring)
| elem (e : element).

(** One [parent.append(child)]. *)
Definition append_call : Type := (element * node)%type.

(** ** Parser data *)

(** An entry [[char, count, position?]] of [state.modifierStack]. *)
Record modifier : Type := Modifier {
  m_char : Z;
  m_count : Z;
  m_position : option Z
}.

Module State.
Record t : Type := Make {
  locked : bool;
  state : STATE;
  line_start : bool;
  heading_count : Z;
  hr_char : option Z;
  hr_count : Z;
  modifierStack : list modifier
}.
End State.

Module Options.
Record t : Type := Make {
  flush_on_write : bool;
  streamingMode : bool
}.
End Options.

Record LWMD : Type := MkLWMD {
  options : Options.t;
  position : Z;
  start : Z;
  streamingMode : bool;
  uncorfinmed_start : option Z;
  stack : list element;
  chunks : list jsstring;
  top : option element;
  state : State.t;
  (* the document: elements created so far, and the appends made *)
  created_count : nat;
  dom : list append_call
}.

(** Field updates. *)
Definition set_position (v : Z) (t : LWMD) : LWMD :=
  MkLWMD (options t) v (start t) (streamingMode t) (uncorfinmed_start t)
    (stack t) (chunks t) (top t) (state t) (created_count t) (dom t).
Definition set_start (v : Z) (t : LWMD) : LWMD :=
  MkLWMD (options t) (position t) v (streamingMode t) (uncorfinmed_start t)
    (stack t) (chunks t) (top t) (state t) (created_count t) (dom t).
Definition set_uncorfinmed_start (v : option Z) (t : LWMD) : LWMD :=
  MkLWMD (options t) (position t) (start t) (streamingMode t) v
    (stack t) (chunks t) (top t) (state t) (created_count t) (dom t).
Definition set_stack (v : list element) (t : LWMD) : LWMD :=
  MkLWMD (options t) (position t) (start t) (streamingMode t)
    (uncorfinmed_start t) v (chunks t) (top t) (state t) (created_count t)
    (dom t).
Definition set_chunks (v : list jsstring) (t : LWMD) : LWMD :=
  MkLWMD (options t) (position t) (start t) (streamingMode t)
    (uncorfinmed_start t) (stack t) v (top t) (state t) (created_count t)
    (dom t).
Definition set_top (v : option element) (t : LWMD) : LWMD :=
  MkLWMD (options t) (position t) (start t) (streamingMode t)
    (uncorfinmed_start t) (stack t) (chunks t) v (state t) (created_count t)
    (dom t).
Definition set_state (v : State.t) (t : LWMD) : LWMD :=
  MkLWMD (options t) (position t) (start t) (streamingMode t)
    (uncorfinmed_start t) (stack t) (chunks t) (top t) v (created_count t)
    (dom t).
Definition set_created_count (v : nat) (t : LWMD) : LWMD :=
  MkLWMD (options t) (position t) (start t) (streamingMode t)
    (uncorfinmed_start t) (stack t) (chunks t) (top t) (state t) v (dom t).
Definition set_dom (v : list append_call) (t : LWMD) : LWMD :=
  MkLWMD (options t) (position t) (start t) (streamingMode t)
    (uncorfinmed_start t) (stack t) (chunks t) (top t) (state t)
    (created_count t) v.

Definition set_locked (v : bool) (t : LWMD) : LWMD :=
  let s := state t in
  set_state (State.Make v (State.state s) (State.line_start s)
    (State.heading_count s) (State.hr_char s) (State.hr_count s)
    (State.modifierStack s)) t.
Definition set_state_state (v : STATE) (t : LWMD) : LWMD :=
  let s := state t in
  set_state (State.Make (State.locked s) v (State.line_start s)
    (State.heading_count s) (State.hr_char s) (State.hr_count s)
    (State.modifierStack s)) t.
Definition set_line_start (v : bool) (t : LWMD) : LWMD :=
  let s := state t in
  set_state (State.Make (State.locked s) (State.state s) v
    (State.heading_count s) (State.hr_char s) (State.hr_count s)
    (State.modifierStack s)) t.
Definition set_heading_count (v : Z) (t : LWMD) : LWMD :=
  let s := state t in
  set_state (State.Make (State.locked s) (State.state s) (State.line_start s)
    v (State.hr_char s) (State.hr_count s) (State.modifierStack s)) t.
Definition set_hr_char (v : option Z) (t : LWMD) : LWMD :=
  let s := state t in
  set_state (State.Make (State.locked s) (State.state s) (State.line_start s)
    (State.heading_count s) v (State.hr_count s) (State.modifierStack s)) t.
Definition set_hr_count (v : Z) (t : LWMD) : LWMD :=
  let s := state t in
  set_state (State.Make (State.locked s) (State.state s) (State.line_start s)
    (State.heading_count s) (State.hr_char s) v (State.modifierStack s)) t.
Definition set_modifierStack (v : list modifier) (t : LWMD) : LWMD :=
  let s := state t in
  set_state (State.Make (State.locked s) (State.state s) (State.line_start s)
    (State.heading_count s) (State.hr_char s) (State.hr_count s) v) t.

(** Shorthands for the fields of [this.state]. *)
Definition locked (t : LWMD) : bool := State.locked (state t).
Definition state_state (t : LWMD) : STATE := State.state (state t).
Definition line_start (t : LWMD) : bool := State.line_start (state t).
Definition heading_count (t : LWMD) : Z := State.heading_count (state t).
Definition hr_char (t : LWMD) : option Z := State.hr_char (state t).
Definition hr_count (t : LWMD) : Z := State.hr_count (state t).
Definition modifierStack (t : LWMD) : list modifier :=
  State.modifierStack (state t).

(** ** clearState *)

Definition initial_state : State.t :=
  State.Make false NORMAL true 0 None 0 [].

Definition clearState (t : LWMD) : LWMD :=
  MkLWMD (options t) 0 0 (Options.streamingMode (options t)) (Some 0)
    [target] [] (Some target) initial_state (created_count t) (dom t).

(** [new LWMD(null, target, options)] on an empty target. *)
Definition new_LWMD (o : Options.t) : LWMD :=
  clearState (MkLWMD o 0 0 true None [] [] None initial_state 0 []).

Definition default_options : Options.t := Options.Make true true.

(** ** getSubstring *)

(** First loop: a chunk that the range matches exactly or lies within. *)
Fixpoint within_chunk (cs : list jsstring) (idx : Z) (from : option Z)
    (to : Z) : option jsstring :=
  match cs with
  | [] => None
  | chunk :: rest =>
      let l := len chunk in
      if strict_eq idx from && (idx + l =? to) then Some chunk
      else if (idx <=? toNumber from) && (to <=? idx + l)
      then Some (slice chunk (toNumber from - idx) (to - idx))
      else within_chunk rest (idx + l) from to
  end.

(** Second loop: slices of the chunks that overlap the range. *)
Fixpoint collect (cs : list jsstring) (pos : Z) (from : option Z) (to : Z)
    (res : jsstring) : jsstring :=
  match cs with
  | [] => res
  | chunk :: rest =>
      if toNumber from <? to then
        let l := len chunk in
        let chunkStart := Z.max 0 (toNumber from - pos) in
        let chunkEnd := Z.min l (to - pos) in
        let res :=
          if chunkStart <? chunkEnd
          then res ++ slice chunk chunkStart chunkEnd
          else res in
        let pos := pos + l in
        if to <=? pos then res else collect rest pos from to res
      else res
  end.

Definition getSubstring (cs : list jsstring) (from : option Z) (to : Z)
    : jsstring :=
  match cs with
  | [chunk] => slice chunk (toNumber from) to
  | _ =>
      match within_chunk cs 0 from to with
      | Some s => s
      | None => collect cs 0 from to []
      end
  end.

(** ** flush, up, down *)

(** [top.append(n)]; [top] undefined is a TypeError. *)
Definition top_append (n : node) (t : LWMD) : result LWMD :=
  match top t with
  | Some e => Ok (set_dom (dom t ++ [(e, n)]) t)
  | None => TypeError
  end.

Definition flush (from : option Z) (to : Z) (t : LWMD)
    : result (bool * LWMD) :=
  if locked t then Ok (false, t)
  else
    let string := getSubstring (chunks t) from to in
    if len string =? 0 then Ok (false, t)
    else
      t <- top_append (text string) t ;;
      let t := set_start (position t) t in
      let t := set_uncorfinmed_start None t in
      Ok (true, t).

(** [this.flush()], result dropped. *)
Definition flush_ (t : LWMD) : result LWMD :=
  r <- flush (Some (start t)) (position t) t ;; Ok (snd r).

Definition createElement (tag : tagName) (t : LWMD) : element * LWMD :=
  (created (created_count t) tag, set_created_count (S (created_count t)) t).

Definition up (tag : tagName) (t : LWMD) : result LWMD :=
  let (wrapper, t) := createElement tag t in
  t <- top_append (elem wrapper) t ;;
  let t := set_stack (stack t ++ [wrapper]) t in
  Ok (set_top (Some wrapper) t).

Definition down (t : LWMD) : LWMD :=
  if 1 <? length_of (stack t) then
    let t := set_stack (removelast (stack t)) t in
    set_top (at_index (stack t) (length_of (stack t) - 1)) t
  else t.

Definition isModifierChar (char : Z) : bool :=
  (char =? CHAR.ASTERISK) || (char =? CHAR.UNDERSCORE) || (char =? CHAR.TILDE).

(** ** write *)

(** The test of the matching branch of SEQUENCE_MODIFIER, whose body is
    empty in the source; [last] is the entry read before the update. *)
Definition have_match (stk : list modifier) (char : Z) (last : modifier)
    : bool :=
  if 1 <? length_of stk then
    match at_index stk (length_of stk - 2) with
    | Some prev => (m_char prev =? char) && (m_count prev =? m_count last)
    | None => false
    end
  else false.

Definition case_NORMAL (char : Z) (t : LWMD) : result LWMD :=
  if line_start t then
    if char =? CHAR.HASH then
      t <- flush_ t ;;
      let t := set_locked true t in
      let t := set_state_state SEQUENCE_HEADING t in
      let t := set_heading_count 1 t in
      Ok (set_uncorfinmed_start (Some (position t)) t)
    else if (char =? CHAR.UNDERSCORE) || (char =? CHAR.ASTERISK)
            || (char =? CHAR.DASH) then
      t <- flush_ t ;;
      let t := set_locked true t in
      let t := set_state_state SEQUENCE_HR t in
      let t := set_hr_char (Some char) t in
      let t := set_hr_count 1 t in
      Ok (set_uncorfinmed_start (Some (position t)) t)
    else Ok t
  else if isModifierChar char then
    t <- flush_ t ;;
    let t := set_state_state SEQUENCE_MODIFIER t in
    let t := set_modifierStack (modifierStack t ++ [Modifier char 1 None]) t in
    Ok (set_uncorfinmed_start (Some (position t + 1)) t)
  else if char =? CHAR.BACKTICK then
    t <- flush_ t ;;
    let t := set_state_state CODE t in
    Ok (set_uncorfinmed_start (Some (position t + 1)) t)
  else Ok t.

Definition case_SEQUENCE_HR (char : Z) (t : LWMD) : result LWMD :=
  if strict_eq char (hr_char t) || (char =? CHAR.SPACE) then
    Ok (set_hr_count (hr_count t + 1) t)
  else
    let t := set_state_state NORMAL t in
    let t := set_locked false t in
    t <- (if (2 <? hr_count t) && (char =? CHAR.NEWLINE) then
            t <- top_append (elem (created (created_count t) hr))
                   (set_created_count (S (created_count t)) t) ;;
            Ok (set_start (position t) t)
          else
            match hr_char t with
            | Some c =>
                if isModifierChar c then
                  t <- flush_ t ;;
                  let t := set_state_state SEQUENCE_MODIFIER t in
                  let t := set_modifierStack
                             (modifierStack t ++ [Modifier c (hr_count t) None])
                             t in
                  Ok (set_uncorfinmed_start (Some (position t + 1)) t)
                else Ok t
            | None => Ok t
            end) ;;
    let t := set_hr_char None t in
    Ok (set_hr_count 0 t).

Definition case_SEQUENCE_HEADING (char : Z) (t : LWMD) : result LWMD :=
  if char =? CHAR.HASH then
    let t := set_heading_count (heading_count t + 1) t in
    Ok (set_uncorfinmed_start (Some (toNumber (uncorfinmed_start t) + 1)) t)
  else
    let t := set_state_state NORMAL t in
    let t := set_locked false t in
    t <- (if (char =? CHAR.SPACE) || (char =? CHAR.NEWLINE) then
            let t := set_uncorfinmed_start
                       (Some (toNumber (uncorfinmed_start t) + 2)) t in
            t <- up (h (Z.min 6 (heading_count t))) t ;;
            Ok (set_start (toNumber (uncorfinmed_start t)) t)
          else Ok (set_heading_count 0 t)) ;;
    Ok (set_uncorfinmed_start None t).

Definition case_SEQUENCE_MODIFIER (char : Z) (t : LWMD) : result LWMD :=
  if isModifierChar char then
    let last := at_index (modifierStack t) (length_of (modifierStack t) - 1) in
    let t := set_uncorfinmed_start
               (Some (toNumber (uncorfinmed_start t) + 1)) t in
    match last with
    | None => TypeError
    | Some l =>
        if (m_count l =? 1) && (char =? m_char l) then
          let l' := Modifier (m_char l) (m_count l + 1) (m_position l) in
          let t := set_modifierStack (removelast (modifierStack t) ++ [l']) t in
          if have_match (modifierStack t) char l'
          then Ok t (* "We have a match": the branch is empty *)
          else Ok t
        else
          let t := set_modifierStack
                     (modifierStack t ++ [Modifier char 1 None]) t in
          if have_match (modifierStack t) char l
          then Ok t (* "We have a match": the branch is empty *)
          else Ok t
    end
  else
    let t := set_state_state NORMAL t in
    let t := set_locked false t in
    match at_index (modifierStack t) (length_of (modifierStack t) - 1) with
    | None => TypeError
    | Some l =>
        let l' := Modifier (m_char l) (m_count l) (Some (position t)) in
        Ok (set_modifierStack (removelast (modifierStack t) ++ [l']) t)
    end.

(** The [switch] on [this.state.state]; CODE and CODE_BLOCK have no case. *)
Definition switch (char : Z) (t : LWMD) : result LWMD :=
  match state_state t with
  | NORMAL => case_NORMAL char t
  | SEQUENCE_HR => case_SEQUENCE_HR char t
  | SEQUENCE_HEADING => case_SEQUENCE_HEADING char t
  | SEQUENCE_MODIFIER => case_SEQUENCE_MODIFIER char t
  | CODE => Ok t
  | CODE_BLOCK => Ok t
  end.

(** The rest of the loop body: line bookkeeping and [position++]. *)
Definition after_switch (char : Z) (t : LWMD) : result LWMD :=
  t <- (if char =? CHAR.NEWLINE then
          let t := set_line_start true t in
          let t := set_modifierStack [] t in
          if 0 <? heading_count t then
            t <- flush_ t ;;
            let t := down t in
            Ok (set_heading_count 0 t)
          else Ok t
        else if line_start t then Ok (set_line_start false t)
        else Ok t) ;;
  Ok (set_position (position t + 1) t).

Definition write_char (char : Z) (t : LWMD) : result LWMD :=
  t <- switch char t ;; after_switch char t.

(** [while(++i < chunk.length)] over the code units of the chunk. *)
Fixpoint write_loop (chunk : jsstring) (t : LWMD) : result LWMD :=
  match chunk with
  | [] => Ok t
  | char :: rest => t <- write_char char t ;; write_loop rest t
  end.

Definition write (chunk : jsstring) (t : LWMD) : result LWMD :=
  let t := set_chunks (chunks t ++ [chunk]) t in
  t <- write_loop chunk t ;;
  if Options.flush_on_write (options t) then flush_ t else Ok t.

(** ** end *)

Definition end_ (t : LWMD) : result LWMD :=
  t <- (if locked t then
          let t := set_locked false t in
          r <- flush (uncorfinmed_start t) (position t) t ;; Ok (snd r)
        else Ok t) ;;
  Ok (clearState t).

(** A stream: the fragments written in order, then [end]. *)
Fixpoint write_all (fragments : list jsstring) (t : LWMD) : result LWMD :=
  match fragments with
  | [] => Ok t
  | chunk :: rest => t <- write chunk t ;; write_all rest t
  end.

Definition stream (fragments : list jsstring) (t : LWMD) : result LWMD :=
  t <- write_all fragments t ;; end_ t.

Definition output (r : result LWMD) : option (list append_call) :=
  match r with
  | Ok t => Some (dom t)
  | TypeError => None
  end.

(** ** What the document shows

    The appends, read as a stream of events: every code unit of a text
    append on its own, and the elements.  Two lists of appends with the
    same events build the same tree up to the division of a run of text
    into adjacent text nodes. *)

Inductive event : Type :=
| EChar (parent : element) (c : Z)
| EElem (parent : element) (child : element).

Definition events_of (a : append_call) : list event :=
  match a with
  | (p, text s) => map (EChar p) s
  | (p, elem e) => [EElem p e]
  end.

Definition rendered (d : list append_call) : list event :=
  flat_map events_of d.

(** * Invariants of a stream

    [pre] is the text consumed so far in the stream.  [frame pre t] holds
    all through the body of the loop of [write]; [head_ok t] holds each
    time the loop tests its condition. *)

Definition pending (pre : jsstring) (t : LWMD) : jsstring :=
  skipn (Z.to_nat (start t)) pre.

(** The events of the document once the pending text is appended to the
    current top. *)
Definition view (pre : jsstring) (t : LWMD) : list event :=
  rendered (dom t) ++
  match top t with
  | Some e => map (EChar e) (pending pre t)
  | None => []
  end.

(** The root stays at the bottom of the element stack and [top] is the
    last element of the stack. *)
Definition stack_ok (t : LWMD) : Prop :=
  (exists below, stack t = target :: below) /\
  top t = Some (last (stack t) target).

Definition frame (pre : jsstring) (t : LWMD) : Prop :=
  position t = len pre /\
  0 <= start t /\
  (exists rest, concat (chunks t) = pre ++ rest) /\
  stack_ok t.

Definition head_ok (t : LWMD) : Prop :=
  start t <= position t /\
  (state_state t = SEQUENCE_HEADING \/ state_state t = SEQUENCE_HR ->
   locked t = true) /\
  (state_state t = SEQUENCE_HEADING ->
   uncorfinmed_start t = Some (position t - 1)) /\
  0 <= toNumber (uncorfinmed_start t).

Definition wf (pre : jsstring) (t : LWMD) : Prop :=
  frame pre t /\ head_ok t.

(** What holds between the [switch] and the end of the loop body. *)
Definition mid_ok (t : LWMD) : Prop :=
  start t <= position t + 1 /\
  (state_state t = SEQUENCE_HEADING \/ state_state t = SEQUENCE_HR ->
   locked t = true) /\
  (state_state t = SEQUENCE_HEADING ->
   uncorfinmed_start t = Some (position t)) /\
  0 <= toNumber (uncorfinmed_start t).

Arguments down : simpl never.

(** * Two runs over the same text

    [a] is a run that got the text in other fragments than [b] did.  The
    runs agree on everything that steers the parser; they may differ in
    how much of the pending text is already in the document. *)

Definition same_control (a b : LWMD) : Prop :=
  options a = options b /\ position a = position b /\ stack a = stack b /\
  top a = top b /\ state a = state b /\ created_count a = created_count b.

Definition exact (a b : LWMD) : Prop :=
  start a = start b /\ rendered (dom a) = rendered (dom b).

Definition loose (pre : jsstring) (a b : LWMD) : Prop :=
  locked a = false /\ Options.flush_on_write (options a) = true /\
  start a <= position a /\ start b <= position b /\
  view pre a = view pre b.

Definition sim (pre : jsstring) (a b : LWMD) : Prop :=
  same_control a b /\
  (locked a = true -> uncorfinmed_start a = uncorfinmed_start b) /\
  (exact a b \/ loose pre a b).

Definition rel_result (P : LWMD -> LWMD -> Prop) (ra rb : result LWMD)
    : Prop :=
  match ra, rb with
  | Ok a, Ok b => P a b
  | TypeError, TypeError => True
  | _, _ => False
  end.

(** Nothing is pending after a [write] that flushed without the lock. *)
Definition settled (t : LWMD) : Prop :=
  Options.flush_on_write (options t) = true -> locked t = false ->
  start t = position t.

Definition same_rendering (a b : LWMD) : Prop :=
  rendered (dom a) = rendered (dom b).

(** * Notions used in the statements *)

(** The string of one newline. *)
Definition NEWLINE : jsstring := [CHAR.NEWLINE].

(** The elements appended to the document, with their parents. *)
Definition elements (d : list append_call) : list (element * element) :=
  flat_map (fun a : append_call =>
              match a with
              | (p, elem e) => [(p, e)]
              | (_, text _) => []
              end) d.

(** The parser after "hello" was written without a flush. *)
Definition after_hello : LWMD :=
  match write (js "hello") (new_LWMD (Options.Make false true)) with
  | Ok t => t
  | TypeError => new_LWMD (Options.Make false true)
  end.

(** The character [c] makes the active recognizer abort. *)
Definition aborts (c : Z) (t : LWMD) : bool :=
  match state_state t with
  | SEQUENCE_HEADING =>
      negb (c =? CHAR.HASH)
      && negb ((c =? CHAR.SPACE) || (c =? CHAR.NEWLINE))
  | SEQUENCE_HR =>
      negb (strict_eq c (hr_char t) || (c =? CHAR.SPACE))
      && negb ((2 <? hr_count t) && (c =? CHAR.NEWLINE))
  | SEQUENCE_MODIFIER => negb (isModifierChar c)
  | _ => false
  end.

(** The runs of a Modifier Stack: marker and length of each entry. *)
Definition runs (stk : list modifier) : list (Z * Z) :=
  map (fun m => (m_char m, m_count m)) stk.

(** The parser inside the chunk "#*", the '#' consumed. *)
Definition state_after_hash : LWMD :=
  match write_loop (js "#")
          (set_chunks [js "#*"] (new_LWMD default_options)) with
  | Ok t => t
  | TypeError => new_LWMD default_options
  end.

(** The state of a rule run of [k] markers [m]. *)
Definition in_rule_run (m k : Z) (e : element) (n : nat)
    (els : list (element * element)) (stk : list modifier) (t : LWMD)
    : Prop :=
  state_state t = SEQUENCE_HR /\ hr_char t = Some m /\ hr_count t = k /\
  locked t = true /\ top t = Some e /\ created_count t = n /\
  elements (dom t) = els /\ modifierStack t = stk.

Definition rule_marker (m : Z) : Prop :=
  m = CHAR.DASH \/ m = CHAR.ASTERISK \/ m = CHAR.UNDERSCORE.

(** The state of a heading run of [k] markers: nothing has been appended
    since the run began at [s], where the confirmed cursor still is. *)
Definition in_heading_run (k : Z) (e : element) (stk : list element)
    (n : nat) (d : list append_call) (s : Z) (t : LWMD) : Prop :=
  state_state t = SEQUENCE_HEADING /\ heading_count t = k /\
  locked t = true /\ top t = Some e /\ stack t = stk /\
  created_count t = n /\ dom t = d /\ start t = s.

(** Text inside a line: the parser is unlocked in NORMAL, in
    SEQUENCE_MODIFIER with a run on the stack, or in CODE, and [V] is what
    the document shows once the pending text is appended. *)
Definition line_inv (pre : jsstring) (e : element) (stk : list element)
    (n : nat) (hc : Z) (V : list event) (t : LWMD) : Prop :=
  frame pre t /\ start t <= position t /\ locked t = false /\
  heading_count t = hc /\ stack t = stk /\ top t = Some e /\
  created_count t = n /\
  (state_state t = NORMAL \/
   (state_state t = SEQUENCE_MODIFIER /\ modifierStack t <> []) \/
   state_state t = CODE) /\
  view pre t = V.

(** * Notions used beyond the claims *)

(** ** The rest of the class: reset and parse *)

(** [this.streamingMode = v]. *)
Definition set_streamingMode (v : bool) (t : LWMD) : LWMD :=
  MkLWMD (options t) (position t) (start t) v (uncorfinmed_start t)
    (stack t) (chunks t) (top t) (state t) (created_count t) (dom t).

(** [reset(target)].  The parser moves to another target: [content] is what
    that node already holds, nothing for the [div] made when no target is
    given. *)
Definition reset (content : list append_call) (t : LWMD) : LWMD :=
  clearState (set_dom content t).

(** [parse(text)] with no target given: the target is a new, empty
    DocumentFragment, which is returned; the result holds its content. *)
Definition parse (text : jsstring) (t : LWMD)
    : result (list append_call * LWMD) :=
  let t := set_dom [] t in
  let t := clearState t in
  let t := set_streamingMode false t in
  t <- write text t ;;
  t <- end_ t ;;
  Ok (dom t, t).

(** ** Renaming the elements of a document *)

Definition map_result {A B : Type} (f : A -> B) (r : result A) : result B :=
  match r with
  | Ok a => Ok (f a)
  | TypeError => TypeError
  end.

(** The element made [k] creations later. *)
Definition shift_element (k : nat) (e : element) : element :=
  match e with
  | target => target
  | created id tag => created (id + k) tag
  end.

Definition shift_node (k : nat) (n : node) : node :=
  match n with
  | text s => text s
  | elem e => elem (shift_element k e)
  end.

Definition shift_call (k : nat) (a : append_call) : append_call :=
  (shift_element k (fst a), shift_node k (snd a)).

(** The parser [t] at work in a document in which [k] more elements were
    made before, on a target that held [content] before. *)
Definition rebase (k : nat) (content : list append_call) (t : LWMD) : LWMD :=
  MkLWMD (options t) (position t) (start t) (streamingMode t)
    (uncorfinmed_start t) (map (shift_element k) (stack t)) (chunks t)
    (option_map (shift_element k) (top t)) (state t) (created_count t + k)
    (content ++ map (shift_call k) (dom t)).

(** ** What holds in the states a stream reaches, and sample states *)

(** The lock is held exactly inside a marker run. *)
Definition lock_ok (t : LWMD) : Prop :=
  locked t = true <->
  (state_state t = SEQUENCE_HEADING \/ state_state t = SEQUENCE_HR).

(** The parser after the fragments "intro", newline and "##" of a stream. *)
Definition after_intro_hashes : LWMD :=
  match write_all [js "intro"; NEWLINE; js "##"]
          (clearState (new_LWMD default_options)) with
  | Ok t => t
  | TypeError => new_LWMD default_options
  end.

(** An element that is a heading of level 1 to 6. *)
Definition heading_element (w : element) : Prop :=
  exists n lvl, w = created n (h lvl) /\ 1 <= lvl <= 6.

(** Either the root alone is open, or the root and the heading of the line
    being read; no line has begun since that heading was opened. *)
Definition open_ok (t : LWMD) : Prop :=
  (stack t = [target] /\ top t = Some target /\
   (0 < heading_count t <-> state_state t = SEQUENCE_HEADING)) \/
  (exists w, heading_element w /\ stack t = [target; w] /\
     top t = Some w /\ 0 < heading_count t /\ line_start t = false /\
     state_state t <> SEQUENCE_HEADING /\ state_state t <> SEQUENCE_HR).

(** The parser after the fragment "# T" of a stream. *)
Definition after_title : LWMD :=
  match write_all [js "# T"] (clearState (new_LWMD default_options)) with
  | Ok t => t
  | TypeError => new_LWMD default_options
  end.

(** What the parser creates: a heading of a level from 1 to 6, or a rule. *)
Definition block_tag (tag : tagName) : Prop :=
  match tag with
  | h lvl => 1 <= lvl <= 6
  | hr => True
  end.

(** The appended elements [es] are the elements created from the [n]-th
    on, each appended once and in the order of creation, each a heading or
    a rule. *)
Fixpoint fresh_blocks (n : nat) (es : list (element * element)) : Prop :=
  match es with
  | [] => True
  | (_, e) :: rest =>
      (exists tag, e = created n tag /\ block_tag tag) /\
      fresh_blocks (S n) rest
  end.

(** The document [dm], [cc] elements made, grew out of [d0] with [n0]
    made. *)
Definition doc_ok (n0 : nat) (d0 : list append_call) (cc : nat)
    (dm : list append_call) : Prop :=
  exists d, dm = d0 ++ d /\ fresh_blocks n0 (elements d) /\
    cc = (n0 + List.length (elements d))%nat.

Definition made_ok (n0 : nat) (d0 : list append_call) (t : LWMD) : Prop :=
  (state_state t = SEQUENCE_HEADING -> 0 < heading_count t) /\
  doc_ok n0 d0 (created_count t) (dom t).

(** The call from [t] to [t'] consumed [n] code units. *)
Definition consumed (n : Z) (t t' : LWMD) : Prop :=
  position t' = position t + n /\ chunks t' = chunks t /\
  options t' = options t /\ streamingMode t' = streamingMode t.

(** The parser after the fragment "*", newline of a stream. *)
Definition after_star_line : LWMD :=
  match write_all [js "*" ++ NEWLINE] (clearState (new_LWMD default_options))
  with
  | Ok t => t
  | TypeError => new_LWMD default_options
  end.

(** The characters that can begin a heading, a rule, an emphasis run or
    inline code. *)
Definition marker (c : Z) : bool :=
  (c =? CHAR.HASH) || (c =? CHAR.DASH) || (c =? CHAR.ASTERISK)
  || (c =? CHAR.UNDERSCORE) || (c =? CHAR.TILDE) || (c =? CHAR.BACKTICK).

Definition plain (s : jsstring) : Prop := Forall (fun c => marker c = false) s.

(** [t'] differs from [t] in the position and the line bookkeeping only. *)
Definition quiet (t t' : LWMD) : Prop :=
  state_state t' = NORMAL /\ heading_count t' = heading_count t /\
  locked t' = locked t /\ dom t' = dom t /\ start t' = start t /\
  stack t' = stack t /\ top t' = top t /\
  created_count t' = created_count t.

(** The text of a fragment as one text node of the root; nothing for the
    empty fragment. *)
Definition text_node_of (f : jsstring) : list append_call :=
  if len f =? 0 then [] else [(target, text f)].

(** What a stream of marker-free fragments keeps. *)
Definition plain_inv (pre : jsstring) (t : LWMD) : Prop :=
  wf pre t /\ concat (chunks t) = pre /\ state_state t = NORMAL /\
  heading_count t <= 0 /\ locked t = false /\ stack t = [target] /\
  (Options.flush_on_write (options t) = true -> start t = position t).

(** [x] is [s] with some of its elements left out. *)
Inductive subseq (A : Type) : list A -> list A -> Prop :=
| subseq_nil : subseq [] []
| subseq_skip (a : A) (x s : list A) : subseq x s -> subseq x (a :: s)
| subseq_keep (a : A) (x s : list A) : subseq x s -> subseq (a :: x) (a :: s).

(** The text of the text nodes appended, in the order of the appends. *)
Definition text_of (d : list append_call) : jsstring :=
  flat_map (fun a : append_call =>
              match a with
              | (_, text s) => s
              | (_, elem _) => []
              end) d.

(** The document [dm] is [d0] followed by appends whose text is taken, in
    order, from the first [s] code units of [all]. *)
Definition text_ok (d0 : list append_call) (all : jsstring) (s : Z)
    (dm : list append_call) : Prop :=
  exists d, dm = d0 ++ d /\ subseq (text_of d) (firstn (Z.to_nat s) all).

(** Under the lock the unconfirmed cursor lies between the confirmed
    cursor and the position; [slack] is 1 between the [switch] and the end
    of the loop body. *)
Definition cursor_ok (slack : Z) (t : LWMD) : Prop :=
  locked t = true ->
  start t <= toNumber (uncorfinmed_start t) <= position t + slack.

(** A code unit other than '*' and '_'. *)
Definition calm (c : Z) : Prop := c <> CHAR.ASTERISK /\ c <> CHAR.UNDERSCORE.

(** An emphasis run is on the Modifier Stack while the parser is in
    SEQUENCE_MODIFIER, and a rule run is a run of '-'. *)
Definition safe_ok (t : LWMD) : Prop :=
  (state_state t = SEQUENCE_MODIFIER -> modifierStack t <> []) /\
  (state_state t = SEQUENCE_HR -> hr_char t = Some CHAR.DASH).

(** The text is empty or ends with a newline. *)
Definition ends_line (s : jsstring) : bool :=
  last s CHAR.NEWLINE =? CHAR.NEWLINE.

(** * The states of a stream

    [in_stream pre t]: the parser is in state [t] at the head of the loop
    of [write], [pre] being the text consumed since the parser was cleared.
    The parser was cleared ([clearState], by the constructor, [reset],
    [end] or [parse]); a [write] begins by pushing its chunk; the loop
    consumes one code unit of the chunk; a [flush()] is made at the end of
    a chunk, by [write] or by the caller. *)
Inductive in_stream : jsstring -> LWMD -> Prop :=
| in_stream_clear (t : LWMD) : in_stream [] (clearState t)
| in_stream_begin (pre chunk : jsstring) (t : LWMD) :
    in_stream pre t -> concat (chunks t) = pre ->
    in_stream pre (set_chunks (chunks t ++ [chunk]) t)
| in_stream_char (pre rest : jsstring) (c : Z) (t t' : LWMD) :
    in_stream pre t -> concat (chunks t) = pre ++ c :: rest ->
    write_char c t = Ok t' -> in_stream (pre ++ [c]) t'
| in_stream_flush (pre : jsstring) (t t' : LWMD) :
    in_stream pre t -> concat (chunks t) = pre ->
    flush_ t = Ok t' -> in_stream pre t'.

(** The parser after the fragment "a", newline of a stream. *)
Definition after_a_line : LWMD :=
  match write_all [js "a" ++ NEWLINE] (clearState (new_LWMD default_options))
  with
  | Ok t => t
  | TypeError => new_LWMD default_options
  end.

(** The same parser at the beginning of a [write] of "- -", newline,
    "x". *)
Definition at_rule_line : LWMD :=
  set_chunks (chunks after_a_line ++ [js "- -" ++ NEWLINE ++ js "x"])
    after_a_line.

(** The parser at the beginning of a [write] of "## x" to a new parser. *)
Definition at_heading_line : LWMD :=
  set_chunks (chunks (new_LWMD default_options) ++ [js "## x"])
    (new_LWMD default_options).

(** * Proofs *)

(** * Strings and the chunk store *)

Lemma len_app (a b : jsstring) : len (a ++ b) = len a + len b.
Proof. unfold len. rewrite length_app. lia. Qed.

Lemma len_nonneg (a : jsstring) : 0 <= len a.
Proof. unfold len. lia. Qed.

Lemma len_zero (a : jsstring) : len a = 0 -> a = [].
Proof. destruct a; [reflexivity | unfold len; simpl; lia]. Qed.

(** With indices that are not negative, [slice] is [skipn] after [firstn]. *)
Lemma slice_nonneg (s : jsstring) (a b : Z) :
  0 <= a -> 0 <= b ->
  slice s a b = skipn (Z.to_nat a) (firstn (Z.to_nat b) s).
Proof.
  intros Ha Hb. unfold slice, relative_index, len.
  destruct (a <? 0) eqn:Ea; [lia |]. destruct (b <? 0) eqn:Eb; [lia |].
  clear Ea Eb.
  rewrite skipn_firstn_comm.
  destruct (Z.le_gt_cases a (Z.of_nat (List.length s))) as [Hle | Hgt].
  - rewrite (Z.min_l a) by lia.
    destruct (Z.le_gt_cases b (Z.of_nat (List.length s))) as [Hle' | Hgt'].
    + rewrite Z.min_l by lia. f_equal. lia.
    + rewrite Z.min_r by lia.
      rewrite !firstn_all2; try reflexivity; rewrite length_skipn; lia.
  - rewrite (Z.min_r a) by lia.
    rewrite !skipn_all2 by lia. now rewrite !firstn_nil.
Qed.

Lemma skipn_firstn_none (A : Type) (l : list A) (a b : nat) :
  (b <= a)%nat -> skipn a (firstn b l) = [].
Proof.
  intros H. apply skipn_all2. rewrite length_firstn. lia.
Qed.

Lemma range_app_mid (A : Type) (pre chunk rest : list A) (a b : nat) :
  (List.length pre <= a)%nat ->
  (b <= List.length pre + List.length chunk)%nat ->
  skipn a (firstn b (pre ++ chunk ++ rest)) =
  skipn (a - List.length pre) (firstn (b - List.length pre) chunk).
Proof.
  intros Ha Hb.
  destruct (Nat.le_gt_cases b a) as [Hle | Hlt].
  - rewrite !skipn_firstn_none by lia. reflexivity.
  - rewrite firstn_app, (firstn_all2 pre) by lia.
    rewrite skipn_app, (skipn_all2 pre) by lia. simpl.
    rewrite firstn_app.
    replace (b - List.length pre - List.length chunk)%nat with 0%nat by lia.
    now rewrite firstn_O, app_nil_r.
Qed.

(** The first loop of [getSubstring] returns the requested range of the
    whole store.  [pre] is the text of the chunks already passed. *)
Lemma within_chunk_spec (cs : list jsstring) :
  forall (pre : jsstring) (from : option Z) (to : Z) (s : jsstring),
    0 <= toNumber from ->
    (len pre <= toNumber from -> len pre <= to) ->
    within_chunk cs (len pre) from to = Some s ->
    s = skipn (Z.to_nat (toNumber from))
          (firstn (Z.to_nat to) (pre ++ concat cs)).
Proof.
  induction cs as [| chunk rest IH]; intros pre from to s Hf Hinv; simpl.
  - discriminate.
  - destruct (strict_eq (len pre) from && (len pre + len chunk =? to))
      eqn:Hexact.
    + intros [= <-]. apply andb_prop in Hexact as [Heq Hto].
      destruct from as [f |]; simpl in Heq; [| discriminate].
      apply Z.eqb_eq in Heq, Hto. simpl. subst f to.
      rewrite app_assoc, firstn_app.
      replace (Z.to_nat (len pre + len chunk)) with
        (List.length (pre ++ chunk)) by (rewrite length_app; unfold len; lia).
      rewrite firstn_all, Nat.sub_diag, firstn_O, app_nil_r.
      unfold len. rewrite Nat2Z.id, skipn_app, skipn_all, Nat.sub_diag.
      reflexivity.
    + destruct ((len pre <=? toNumber from) && (to <=? len pre + len chunk))
        eqn:Hin.
      * intros [= <-]. apply andb_prop in Hin as [H1 H2].
        apply Z.leb_le in H1, H2. specialize (Hinv H1).
        rewrite slice_nonneg by lia.
        rewrite range_app_mid by (unfold len in *; lia).
        unfold len. f_equal; [lia |]. f_equal. lia.
      * intros Hrec.
        replace (len pre + len chunk) with (len (pre ++ chunk)) in Hrec
          by apply len_app.
        apply IH in Hrec; [now rewrite <- app_assoc in Hrec | exact Hf |].
        rewrite len_app. intros Hle.
        apply andb_false_iff in Hin as [Hin | Hin];
          [apply Z.leb_gt in Hin | apply Z.leb_gt in Hin];
          pose proof (len_nonneg chunk); lia.
Qed.

(** The second loop concatenates the overlapping slices, in order. *)
Lemma collect_spec (cs : list jsstring) :
  forall (pre : jsstring) (from : option Z) (to : Z) (res : jsstring),
    0 <= toNumber from < to ->
    len pre < to ->
    collect cs (len pre) from to res =
    res ++ skipn (Z.to_nat (toNumber from - len pre))
             (firstn (Z.to_nat (to - len pre)) (concat cs)).
Proof.
  induction cs as [| chunk rest IH]; intros pre from to res Hf Hpos; simpl.
  - now rewrite firstn_nil, skipn_nil, app_nil_r.
  - destruct (toNumber from <? to) eqn:Hlt; [| apply Z.ltb_ge in Hlt; lia].
    set (f := toNumber from) in *.
    assert (Hres :
      (if Z.max 0 (f - len pre) <? Z.min (len chunk) (to - len pre)
       then res ++ slice chunk (Z.max 0 (f - len pre))
                     (Z.min (len chunk) (to - len pre))
       else res)
      = res ++ skipn (Z.to_nat (f - len pre))
                 (firstn (Z.to_nat (to - len pre)) chunk)).
    { pose proof (len_nonneg chunk).
      replace (firstn (Z.to_nat (to - len pre)) chunk)
        with (firstn (Z.to_nat (Z.min (len chunk) (to - len pre))) chunk).
      2:{ destruct (Z.le_gt_cases (to - len pre) (len chunk)).
          - now rewrite Z.min_r by lia.
          - rewrite Z.min_l by lia.
            rewrite !firstn_all2; unfold len in *; try reflexivity; lia. }
      destruct (Z.max 0 (f - len pre) <? Z.min (len chunk) (to - len pre))
        eqn:Hc.
      - rewrite slice_nonneg by lia. do 2 f_equal. lia.
      - apply Z.ltb_ge in Hc.
        rewrite skipn_firstn_none; [now rewrite app_nil_r | lia]. }
    rewrite Hres. clear Hres.
    destruct (to <=? len pre + len chunk) eqn:Hbrk.
    + apply Z.leb_le in Hbrk.
      rewrite firstn_app.
      replace (Z.to_nat (to - len pre) - List.length chunk)%nat with 0%nat
        by (unfold len in *; lia).
      now rewrite firstn_O, app_nil_r.
    + apply Z.leb_gt in Hbrk.
      replace (len pre + len chunk) with (len (pre ++ chunk))
        by apply len_app.
      rewrite IH by (rewrite ?len_app; lia).
      rewrite <- app_assoc. f_equal.
      rewrite firstn_app, skipn_app.
      rewrite (firstn_all2 chunk) by (unfold len in *; lia).
      rewrite len_app. f_equal.
      replace (Z.to_nat (f - len pre) - List.length chunk)%nat
        with (Z.to_nat (f - (len pre + len chunk)))
        by (unfold len in *; lia).
      replace (Z.to_nat (to - len pre) - List.length chunk)%nat
        with (Z.to_nat (to - (len pre + len chunk)))
        by (unfold len in *; lia).
      reflexivity.
Qed.

(** [getSubstring] reads the range of the concatenated chunks, whatever
    path it takes. *)
Lemma getSubstring_spec (cs : list jsstring) (from : option Z) (to : Z) :
  0 <= toNumber from -> 0 <= to ->
  getSubstring cs from to = slice (concat cs) (toNumber from) to.
Proof.
  intros Hf Ht.
  assert (Hgen :
    match within_chunk cs 0 from to with
    | Some s => s
    | None => collect cs 0 from to []
    end = slice (concat cs) (toNumber from) to).
  { rewrite slice_nonneg by assumption.
    destruct (within_chunk cs 0 from to) as [s |] eqn:Hw.
    - apply (within_chunk_spec cs []) in Hw; [exact Hw | exact Hf |].
      intros _. exact Ht.
    - destruct (Z.lt_ge_cases (toNumber from) to) as [Hlt | Hge].
      + rewrite (collect_spec cs []) by (unfold len; simpl; lia).
        unfold len. simpl. now rewrite !Z.sub_0_r.
      + rewrite skipn_firstn_none by lia.
        destruct cs as [| c rest]; simpl; [reflexivity |].
        destruct (toNumber from <? to) eqn:E; [apply Z.ltb_lt in E; lia |].
        reflexivity. }
  destruct cs as [| c [| c' rest]]; try exact Hgen.
  simpl. now rewrite app_nil_r.
Qed.

Lemma rendered_app (d1 d2 : list append_call) :
  rendered (d1 ++ d2) = rendered d1 ++ rendered d2.
Proof. unfold rendered. apply flat_map_app. Qed.

Lemma rendered_text (e : element) (s : jsstring) :
  rendered [(e, text s)] = map (EChar e) s.
Proof. unfold rendered. simpl. apply app_nil_r. Qed.

Lemma rendered_elem (e x : element) :
  rendered [(e, elem x)] = [EElem e x].
Proof. reflexivity. Qed.

Lemma at_index_last (A : Type) (l : list A) (d : A) :
  l <> [] -> at_index l (length_of l - 1) = Some (last l d).
Proof.
  intros Hne. unfold at_index, length_of.
  destruct l as [| x l]; [congruence |].
  cbn [List.length].
  destruct (Z.of_nat (S (List.length l)) - 1 <? 0) eqn:E;
    [apply Z.ltb_lt in E; lia |].
  replace (Z.to_nat (Z.of_nat (S (List.length l)) - 1))
    with (List.length l) by lia.
  clear E Hne. revert x. induction l as [| y l IH]; intros x.
  - reflexivity.
  - change (nth_error (x :: y :: l) (List.length (y :: l)))
      with (nth_error (y :: l) (List.length l)).
    rewrite IH. reflexivity.
Qed.

Lemma frame_top (pre : jsstring) (t : LWMD) :
  frame pre t -> top t = Some (last (stack t) target).
Proof. intros (_ & _ & _ & _ & H). exact H. Qed.

(** The text [flush(from, position)] reads is the consumed text from
    [from] on; for [flush()] that is the pending text. *)
Lemma getSubstring_consumed (pre : jsstring) (t : LWMD) (from : option Z) :
  frame pre t -> 0 <= toNumber from ->
  getSubstring (chunks t) from (position t) =
  skipn (Z.to_nat (toNumber from)) pre.
Proof.
  intros (Hp & Hs & (rest & Hc) & _) Hfrom.
  pose proof (len_nonneg pre) as Hpre.
  rewrite getSubstring_spec by (simpl; lia).
  rewrite slice_nonneg by (simpl; lia).
  rewrite Hc, Hp. unfold len. rewrite Nat2Z.id.
  rewrite firstn_app, firstn_all, Nat.sub_diag, firstn_O, app_nil_r.
  reflexivity.
Qed.

Lemma getSubstring_pending (pre : jsstring) (t : LWMD) :
  frame pre t ->
  getSubstring (chunks t) (Some (start t)) (position t) = pending pre t.
Proof.
  intros Hf. apply (getSubstring_consumed (Some (start t)) Hf). apply Hf.
Qed.

Lemma pending_empty (pre : jsstring) (t : LWMD) :
  frame pre t ->
  (len (pending pre t) =? 0) = (position t <=? start t).
Proof.
  intros (Hp & Hs & _). unfold pending, len. rewrite length_skipn, Hp.
  unfold len.
  destruct (Z.of_nat (List.length pre) <=? start t) eqn:E.
  - apply Z.leb_le in E. apply Z.eqb_eq. lia.
  - apply Z.leb_gt in E. apply Z.eqb_neq. lia.
Qed.

(** [flush()] in closed form. *)
Lemma flush_eq (pre : jsstring) (t : LWMD) :
  frame pre t ->
  flush_ t =
  Ok (if locked t || (position t <=? start t) then t
      else set_uncorfinmed_start None
             (set_start (position t)
                (set_dom (dom t ++ [(last (stack t) target,
                                     text (pending pre t))]) t))).
Proof.
  intros Hf. unfold flush_, flush.
  destruct (locked t); [reflexivity |].
  rewrite (getSubstring_pending Hf), (pending_empty Hf).
  destruct (position t <=? start t); [reflexivity |].
  unfold top_append. rewrite (frame_top Hf). reflexivity.
Qed.

(** ** Tactics for the case analyses on the loop body *)

Ltac break_if :=
  match goal with
  | |- context [if ?b then _ else _] =>
      lazymatch b with
      | context [if _ then _ else _] => fail
      | _ => destruct b eqn:?
      end
  | H : context [if ?b then _ else _] |- _ =>
      lazymatch b with
      | context [if _ then _ else _] => fail
      | _ => destruct b eqn:?
      end
  end.

Ltac break_match :=
  match goal with
  | |- context [match ?x with _ => _ end] =>
      lazymatch x with
      | context [match _ with _ => _ end] => fail
      | _ => destruct x eqn:?
      end
  end.

Ltac fields := unfold locked, state_state, line_start, heading_count,
  hr_char, hr_count, modifierStack in *; simpl in *.

Lemma last_app_one (A : Type) (l : list A) (x d : A) : last (l ++ [x]) d = x.
Proof. apply last_last. Qed.

Lemma up_eq (tag : tagName) (t : LWMD) (e : element) :
  top t = Some e ->
  up tag t =
  Ok (set_top (Some (created (created_count t) tag))
        (set_stack (stack t ++ [created (created_count t) tag])
           (set_dom (dom t ++ [(e, elem (created (created_count t) tag))])
              (set_created_count (S (created_count t)) t)))).
Proof.
  intros Ht. unfold up, createElement, top_append. simpl. rewrite Ht.
  reflexivity.
Qed.

Lemma stack_ok_up (tag : tagName) (t t' : LWMD) :
  stack_ok t -> up tag t = Ok t' -> stack_ok t'.
Proof.
  intros [[below Hs] Ht] Hup. rewrite (up_eq _ _ Ht) in Hup.
  injection Hup as <-. split; simpl.
  - exists (below ++ [created (created_count t) tag]). now rewrite Hs.
  - now rewrite last_app_one.
Qed.

Lemma stack_ok_down (t : LWMD) : stack_ok t -> stack_ok (down t).
Proof.
  intros [[below Hs] Ht]. unfold down.
  destruct (1 <? length_of (stack t)) eqn:E; [| now split; [exists below |]].
  apply Z.ltb_lt in E. rewrite Hs in *. unfold length_of in E.
  destruct below as [| x below]; [simpl in E; lia |].
  change (removelast (target :: x :: below))
    with (target :: removelast (x :: below)).
  split; cbn [set_top set_stack stack top].
  - eexists. reflexivity.
  - now rewrite (at_index_last (l := target :: removelast (x :: below)) target).
Qed.

Ltac inv_ok := unfold frame, stack_ok, head_ok, mid_ok in *; fields.

Ltac use_cursor :=
  repeat match goal with
  | H : uncorfinmed_start _ = Some _ |- _ => rewrite H in *; clear H
  end; simpl; first [lia | f_equal; lia].

Ltac bool_hyps :=
  repeat match goal with
  | H : _ || _ = false |- _ => apply orb_false_iff in H; destruct H
  | H : _ || _ = true |- _ => apply orb_true_iff in H
  | H : _ && _ = true |- _ => apply andb_true_iff in H; destruct H
  | H : _ && _ = false |- _ => apply andb_false_iff in H
  | H : (_ =? _) = true |- _ => apply Z.eqb_eq in H
  | H : (_ =? _) = false |- _ => apply Z.eqb_neq in H
  | H : (_ <=? _) = true |- _ => apply Z.leb_le in H
  | H : (_ <=? _) = false |- _ => apply Z.leb_gt in H
  | H : (_ <? _) = true |- _ => apply Z.ltb_lt in H
  | H : (_ <? _) = false |- _ => apply Z.ltb_ge in H
  end.

Ltac inv_solve :=
  inv_ok; bool_hyps; intuition (try lia; try congruence);
  try (eexists; eassumption); try use_cursor.

Lemma switch_wf (pre : jsstring) (c : Z) (t t1 : LWMD) :
  frame pre t -> head_ok t -> switch c t = Ok t1 ->
  frame pre t1 /\ mid_ok t1 /\
  chunks t1 = chunks t /\ options t1 = options t.
Proof.
  intros Hf Hh. pose proof (frame_top Hf) as Htop.
  pose proof (len_nonneg pre) as Hpre.
  unfold switch, case_NORMAL, case_SEQUENCE_HR, case_SEQUENCE_HEADING,
    case_SEQUENCE_MODIFIER.
  destruct (state_state t) eqn:Hst.
  - rewrite !(flush_eq Hf). cbn [bind].
    repeat break_if; intros [= <-]; inv_solve.
  - destruct (c =? CHAR.HASH); [intros [= <-]; inv_solve |].
    destruct ((c =? CHAR.SPACE) || (c =? CHAR.NEWLINE)).
    + rewrite (up_eq _ _ (e := last (stack t) target)) by exact Htop.
      cbn [bind]. intros [= <-]. inv_ok.
      rewrite last_app_one.
      destruct Hf as (? & ? & ? & [below Hb] & ?).
      pose proof (len_nonneg pre).
      intuition (try lia; try congruence); try (eexists; eassumption);
        try use_cursor.
      exists (below ++ [created (created_count t)
                          (h (Z.min 6 (State.heading_count (state t))))]).
      now rewrite Hb.
    + cbn [bind]. intros [= <-]. inv_solve.
  - destruct (strict_eq c (hr_char t) || (c =? CHAR.SPACE));
      [intros [= <-]; inv_solve |].
    assert (Hf' : frame pre (set_locked false (set_state_state NORMAL t)))
      by exact Hf.
    rewrite (flush_eq Hf'). unfold top_append.
    replace (top (set_created_count
       (S (created_count (set_locked false (set_state_state NORMAL t))))
       (set_locked false (set_state_state NORMAL t))))
      with (Some (last (stack t) target)) by (symmetry; exact Htop).
    cbn [bind].
    fields. repeat (break_match; cbn [bind]); intros [= <-]; inv_solve.
  - fields. repeat (break_match; cbn [bind]); try discriminate;
      intros [= <-]; inv_solve.
  - intros [= <-]. inv_solve.
  - intros [= <-]. inv_solve.
Qed.

Lemma down_fields (t : LWMD) :
  position (down t) = position t /\ start (down t) = start t /\
  chunks (down t) = chunks t /\ state (down t) = state t /\
  dom (down t) = dom t /\ options (down t) = options t /\
  uncorfinmed_start (down t) = uncorfinmed_start t /\
  created_count (down t) = created_count t /\
  streamingMode (down t) = streamingMode t.
Proof.
  unfold down. destruct (1 <? length_of (stack t)); repeat split.
Qed.

Lemma frame_down (pre : jsstring) (t : LWMD) :
  frame pre t -> frame pre (down t).
Proof.
  intros (Hp & Hs & Hc & Hk).
  destruct (down_fields t) as (E1 & E2 & E3 & _).
  unfold frame. rewrite E1, E2, E3. auto using stack_ok_down.
Qed.

Lemma frame_step (pre : jsstring) (c : Z) (rest : jsstring) (t : LWMD) :
  frame pre t -> concat (chunks t) = pre ++ c :: rest ->
  frame (pre ++ [c]) (set_position (position t + 1) t).
Proof.
  intros (Hp & Hs & _ & Hk1 & Hk2) Hc. unfold frame, stack_ok. simpl.
  rewrite len_app, Hp. repeat split; try assumption; try reflexivity.
  exists rest. now rewrite Hc, <- app_assoc.
Qed.

Lemma after_switch_wf (pre : jsstring) (c : Z) (rest : jsstring)
    (t1 t' : LWMD) :
  frame pre t1 -> mid_ok t1 ->
  concat (chunks t1) = pre ++ c :: rest ->
  after_switch c t1 = Ok t' ->
  wf (pre ++ [c]) t' /\ chunks t' = chunks t1 /\ options t' = options t1.
Proof.
  intros Hf Hm Hc. unfold after_switch.
  pose proof (len_nonneg pre) as Hpre.
  destruct (c =? CHAR.NEWLINE).
  - assert (Hf' : frame pre (set_modifierStack [] (set_line_start true t1)))
      by exact Hf.
    destruct (0 <? heading_count _).
    + rewrite (flush_eq Hf'). cbn [bind].
      match goal with |- context [down ?x] => 
        assert (Hd : frame pre x /\ mid_ok x /\ chunks x = chunks t1
                     /\ options x = options t1);
        [| set (y := x) in *; clearbody y;
           destruct Hd as (Hd & Hmx & Hcx & Hox);
           pose proof (frame_down Hd) as Hfd;
           destruct (down_fields y) as (E1 & E2 & E3 & E4 & E5 & E6 & E7 & E8 & E9)] end.
      { break_if; inv_solve. }
      intros [= <-]. refine (conj (conj _ _) (conj _ _)).
      * apply (@frame_step pre c rest (set_heading_count 0 (down y)));
          [exact Hfd |].
        cbn. rewrite E3, Hcx. exact Hc.
      * unfold head_ok, mid_ok in *. fields.
        rewrite ?E1, ?E2, ?E4, ?E7. intuition (try lia; try congruence).
        use_cursor.
      * cbn. congruence.
      * cbn. congruence.
    + intros [= <-]. refine (conj (conj _ _) (conj _ _));
        [apply (@frame_step pre c rest _ Hf' Hc) | inv_solve | reflexivity ..].
  - break_if; intros [= <-]; (refine (conj (conj _ _) (conj _ _));
        [match goal with
         | |- frame _ (set_position _ ?x) =>
             apply (@frame_step pre c rest x); [exact Hf | exact Hc]
         end
        | inv_solve | reflexivity ..]).
Qed.

Lemma write_char_wf (pre : jsstring) (c : Z) (rest : jsstring) (t t' : LWMD) :
  wf pre t ->
  concat (chunks t) = pre ++ c :: rest ->
  write_char c t = Ok t' ->
  wf (pre ++ [c]) t' /\ chunks t' = chunks t /\ options t' = options t.
Proof.
  intros [Hf Hh] Hc. unfold write_char.
  destruct (switch c t) as [t1 |] eqn:Hsw; [| discriminate]. cbn [bind].
  destruct (switch_wf _ Hf Hh Hsw) as (Hf1 & Hm1 & Hc1 & Ho1).
  intros Ha. rewrite <- Hc1 in Hc.
  destruct (@after_switch_wf pre c rest t1 t' Hf1 Hm1 Hc Ha)
    as (Hw & Hc' & Ho').
  repeat split; try apply Hw; congruence.
Qed.

Lemma pending_all (pre : jsstring) (t : LWMD) :
  frame pre t -> position t <= start t -> pending pre t = [].
Proof.
  intros (Hp & Hs & _) Hle. unfold pending. apply skipn_all2.
  unfold len in Hp. lia.
Qed.

(** After [flush()] without the lock the document shows what the view
    promised. *)
Lemma flush_view (pre : jsstring) (t : LWMD) :
  frame pre t -> locked t = false ->
  exists t', flush_ t = Ok t' /\ frame pre t' /\
    rendered (dom t') = view pre t /\
    start t' = Z.max (start t) (position t) /\
    options t' = options t /\ position t' = position t /\
    stack t' = stack t /\ top t' = top t /\ state t' = state t /\
    created_count t' = created_count t /\ chunks t' = chunks t.
Proof.
  intros Hf Hl. rewrite (flush_eq Hf), Hl. cbn [orb].
  unfold view. rewrite (frame_top Hf).
  destruct (position t <=? start t) eqn:E; bool_hyps.
  - exists t. rewrite (pending_all Hf E), app_nil_r.
    repeat split; try apply Hf. lia.
  - eexists. split; [reflexivity |]. simpl.
    rewrite rendered_app, rendered_text.
    pose proof (len_nonneg pre).
    repeat split; try apply Hf; inv_solve.
Qed.

Lemma flush_locked (t : LWMD) : locked t = true -> flush_ t = Ok t.
Proof. intros Hl. unfold flush_, flush. now rewrite Hl. Qed.

Ltac split_and := repeat match goal with |- _ /\ _ => split end.

Ltac sim_ok :=
  unfold sim, same_control, exact, loose, view, pending, head_ok, mid_ok in *.

(** [flush()] in both runs brings them to the same document. *)
Lemma flush_sim (pre : jsstring) (a b : LWMD) :
  frame pre a -> frame pre b -> sim pre a b ->
  exists a' b', flush_ a = Ok a' /\ flush_ b = Ok b' /\
    frame pre a' /\ frame pre b' /\ sim pre a' b' /\ exact a' b' /\
    state a' = state a /\ (locked a = true -> a' = a /\ b' = b).
Proof.
  intros Ha Hb Hs.
  assert (Hlb : locked b = locked a).
  { unfold locked. destruct Hs as ((_ & _ & _ & _ & -> & _) & _).
    reflexivity. }
  destruct (locked a) eqn:Hl.
  - exists a, b. rewrite !flush_locked by congruence.
    destruct Hs as (Hc & Hu & [He | Hlo]).
    + split_and; auto; try apply Hc; unfold sim; auto.
    + destruct Hlo as (Hlo & _). congruence.
  - destruct (flush_view Ha Hl)
      as (a' & Ea & Fa & Ra & Sa & A1 & A2 & A3 & A4 & A5 & A6 & A7).
    destruct (flush_view Hb Hlb)
      as (b' & Eb & Fb & Rb & Sb & B1 & B2 & B3 & B4 & B5 & B6 & B7).
    exists a', b'.
    destruct Hs as ((C1 & C2 & C3 & C4 & C5 & C6) & Hu & Hs).
    assert (Hex : exact a' b').
    { destruct Hs as [(E1 & E2) | (_ & _ & L1 & L2 & L3)]; split.
      - lia.
      - rewrite Ra, Rb. unfold view, pending. now rewrite E1, E2, C4.
      - lia.
      - now rewrite Ra, Rb. }
    unfold sim, same_control. split_and; auto; try congruence.
    unfold locked. rewrite A5. fold (locked a). congruence.
Qed.

Ltac sim_solve :=
  sim_ok; fields; bool_hyps; rewrite ?rendered_app in *;
  intuition (try congruence; try lia).

Lemma sim_fields (pre : jsstring) (a b : LWMD) :
  sim pre a b ->
  state_state b = state_state a /\ line_start b = line_start a /\
  locked b = locked a /\ heading_count b = heading_count a /\
  hr_char b = hr_char a /\ hr_count b = hr_count a /\
  modifierStack b = modifierStack a.
Proof.
  intros ((_ & _ & _ & _ & Hst & _) & _).
  unfold state_state, line_start, locked, heading_count, hr_char, hr_count,
    modifierStack.
  now rewrite Hst.
Qed.

Lemma switch_sim (pre : jsstring) (c : Z) (a b : LWMD) :
  frame pre a -> frame pre b -> head_ok a -> head_ok b -> sim pre a b ->
  rel_result (sim pre) (switch c a) (switch c b).
Proof.
  intros Ha Hb Hha Hhb Hs.
  destruct (sim_fields Hs) as (S1 & S2 & S3 & S4 & S5 & S6 & S7).
  pose proof (frame_top Ha) as Hta. pose proof (frame_top Hb) as Htb.
  unfold switch. rewrite S1.
  destruct (state_state a) eqn:Hst.
  - unfold case_NORMAL. rewrite S2.
    destruct (flush_sim Ha Hb Hs)
      as (a' & b' & Ea & Eb & Fa & Fb & Hs' & Hex & _).
    rewrite Ea, Eb. cbn [bind].
    repeat (break_match; cbn [bind rel_result]); try assumption; sim_solve.
  - (* SEQUENCE_HEADING *)
    unfold case_SEQUENCE_HEADING. rewrite S4.
    destruct (c =? CHAR.HASH); [cbn [rel_result]; sim_solve |].
    destruct ((c =? CHAR.SPACE) || (c =? CHAR.NEWLINE)).
    + rewrite (up_eq _ _ (e := last (stack a) target)) by exact Hta.
      rewrite (up_eq _ _ (e := last (stack b) target)) by exact Htb.
      cbn [bind rel_result]. sim_solve.
    + cbn [bind rel_result]. sim_solve.
  - (* SEQUENCE_HR *)
    unfold case_SEQUENCE_HR. rewrite S5, S6.
    destruct (strict_eq c (hr_char a) || (c =? CHAR.SPACE));
      [cbn [rel_result]; sim_solve |].
    assert (Hs0 : sim pre (set_locked false (set_state_state NORMAL a))
                    (set_locked false (set_state_state NORMAL b)))
      by sim_solve.
    destruct (@flush_sim pre (set_locked false (set_state_state NORMAL a))
                (set_locked false (set_state_state NORMAL b)) Ha Hb Hs0)
      as (a' & b' & Ea & Eb & Fa & Fb & Hs' & Hex & _).
    rewrite Ea, Eb. unfold top_append.
    replace (top (set_created_count
       (S (created_count (set_locked false (set_state_state NORMAL a))))
       (set_locked false (set_state_state NORMAL a))))
      with (Some (last (stack a) target)) by (symmetry; exact Hta).
    replace (top (set_created_count
       (S (created_count (set_locked false (set_state_state NORMAL b))))
       (set_locked false (set_state_state NORMAL b))))
      with (Some (last (stack b) target)) by (symmetry; exact Htb).
    fields.
    repeat (break_match; cbn [bind rel_result]); try assumption; sim_solve.
  - (* SEQUENCE_MODIFIER *)
    unfold case_SEQUENCE_MODIFIER. fields. rewrite S7.
    repeat (break_match; cbn [bind rel_result]); try assumption;
      try exact I; sim_solve.
  - exact Hs.
  - exact Hs.
Qed.

Lemma down_sim (pre : jsstring) (a b : LWMD) :
  sim pre a b -> exact a b ->
  sim pre (set_heading_count 0 (down a)) (set_heading_count 0 (down b)).
Proof.
  intros ((C1 & C2 & C3 & C4 & C5 & C6) & Hu & _) (E1 & E2).
  unfold down. rewrite C3.
  destruct (1 <? length_of (stack b)); sim_solve.
Qed.

Lemma skipn_snoc (A : Type) (l : list A) (x : A) (n : nat) :
  (n <= List.length l)%nat -> skipn n (l ++ [x]) = skipn n l ++ [x].
Proof.
  intros H. rewrite skipn_app.
  replace (n - List.length l)%nat with 0%nat by lia. reflexivity.
Qed.

(** [position++]: the character just consumed joins the pending text. *)
Lemma sim_step (pre : jsstring) (c : Z) (a b : LWMD) :
  frame pre a -> frame pre b -> sim pre a b ->
  sim (pre ++ [c]) (set_position (position a + 1) a)
    (set_position (position b + 1) b).
Proof.
  intros Ha Hb (Hc & Hu & Hs). split; [| split].
  - unfold same_control in *. simpl. intuition congruence.
  - exact Hu.
  - destruct Hs as [He | (L1 & L2 & L3 & L4 & L5)]; [now left | right].
    unfold loose. simpl. split_and; try assumption; try lia.
    unfold view, pending in *. simpl.
    destruct Ha as (Pa & Sa & _), Hb as (Pb & Sb & _).
    rewrite !skipn_snoc by (unfold len in *; lia).
    destruct Hc as (_ & _ & _ & Ht & _). rewrite <- Ht in *.
    destruct (top a); [| exact L5].
    rewrite !map_app, !app_assoc. now rewrite L5.
Qed.

Lemma after_switch_sim (pre : jsstring) (c : Z) (a b : LWMD) :
  frame pre a -> frame pre b -> sim pre a b ->
  rel_result (sim (pre ++ [c])) (after_switch c a) (after_switch c b).
Proof.
  intros Ha Hb Hs.
  destruct (sim_fields Hs) as (S1 & S2 & S3 & S4 & S5 & S6 & S7).
  unfold after_switch. destruct (c =? CHAR.NEWLINE).
  - assert (Hs0 : sim pre (set_modifierStack [] (set_line_start true a))
                    (set_modifierStack [] (set_line_start true b)))
      by sim_solve.
    change (heading_count (set_modifierStack [] (set_line_start true a)))
      with (heading_count a).
    change (heading_count (set_modifierStack [] (set_line_start true b)))
      with (heading_count b).
    rewrite S4. destruct (0 <? heading_count a).
    + destruct (@flush_sim pre (set_modifierStack [] (set_line_start true a))
                  (set_modifierStack [] (set_line_start true b)) Ha Hb Hs0)
        as (a' & b' & Ea & Eb & Fa & Fb & Hs' & Hex & _).
      rewrite Ea, Eb. cbn [bind rel_result].
      apply (@sim_step pre c (set_heading_count 0 (down a'))
               (set_heading_count 0 (down b'))).
      * apply (frame_down Fa).
      * apply (frame_down Fb).
      * now apply down_sim.
    + cbn [bind rel_result].
      now apply (@sim_step pre c
                   (set_modifierStack [] (set_line_start true a))
                   (set_modifierStack [] (set_line_start true b))).
  - rewrite S2. destruct (line_start a); cbn [bind rel_result].
    + apply (@sim_step pre c (set_line_start false a)
               (set_line_start false b)); try assumption. sim_solve.
    + now apply sim_step.
Qed.

(** One character, consumed by both runs. *)
Lemma write_char_sim (pre : jsstring) (c : Z) (a b : LWMD) :
  wf pre a -> wf pre b -> sim pre a b ->
  rel_result (sim (pre ++ [c])) (write_char c a) (write_char c b).
Proof.
  intros [Ha Hha] [Hb Hhb] Hs. unfold write_char.
  pose proof (switch_sim c Ha Hb Hha Hhb Hs) as Hsw.
  destruct (switch c a) as [a1 |] eqn:Ea, (switch c b) as [b1 |] eqn:Eb;
    cbn [rel_result bind] in *; try contradiction; [| exact I].
  destruct (switch_wf _ Ha Hha Ea) as (Fa & _).
  destruct (switch_wf _ Hb Hhb Eb) as (Fb & _).
  now apply after_switch_sim.
Qed.

(** [flush()] at the end of a [write] keeps the invariants and leaves
    nothing pending unless the lock is held. *)
Lemma flush_wf (pre : jsstring) (t : LWMD) :
  wf pre t ->
  exists t', flush_ t = Ok t' /\ wf pre t' /\
    chunks t' = chunks t /\ options t' = options t /\
    same_control t t' /\
    (locked t = true -> t' = t) /\
    (locked t = false -> start t' = position t' /\
                         rendered (dom t') = view pre t).
Proof.
  intros [Hf Hh]. destruct (locked t) eqn:Hl.
  - exists t. rewrite (flush_locked _ Hl).
    unfold same_control. split_and; auto; try discriminate. now split.
  - destruct (flush_view Hf Hl)
      as (t' & E & F & R & S & A1 & A2 & A3 & A4 & A5 & A6 & A7).
    exists t'. unfold same_control. split_and; auto; try discriminate.
    + split; [exact F |]. rewrite (flush_eq Hf), Hl in E. cbn [orb] in E.
      destruct (position t <=? start t); injection E as <-; inv_solve.
    + intros _. split; [| exact R]. destruct Hh as (Hh & _). lia.
Qed.

Lemma view_flushed (pre : jsstring) (t : LWMD) :
  frame pre t -> start t = position t -> view pre t = rendered (dom t).
Proof.
  intros Hf Hs. unfold view. rewrite (pending_all Hf) by lia.
  destruct (top t); apply app_nil_r.
Qed.

Lemma sim_view (pre : jsstring) (a b : LWMD) :
  sim pre a b -> view pre a = view pre b.
Proof.
  intros ((_ & _ & _ & Ht & _) & _ & [(E1 & E2) | (_ & _ & _ & _ & L)]).
  - unfold view, pending. now rewrite E1, E2, Ht.
  - exact L.
Qed.

(** A [flush()] that only one of the runs makes. *)
Lemma flush_right (pre : jsstring) (a b : LWMD) :
  wf pre a -> wf pre b -> sim pre a b ->
  Options.flush_on_write (options b) = true ->
  exists b', flush_ b = Ok b' /\ wf pre b' /\ sim pre a b' /\
    chunks b' = chunks b /\ options b' = options b /\
    (locked b' = false -> start b' = position b').
Proof.
  intros Ha Hb Hs Hfow.
  destruct (sim_fields Hs) as (_ & _ & S3 & _).
  destruct (flush_wf Hb) as (b' & E & W & Hc & Ho & Hctl & Hlk & Hun).
  exists b'. split_and; auto.
  - destruct (locked b) eqn:Hl; [now rewrite (Hlk eq_refl) |].
    destruct (Hun eq_refl) as (Hst & Hr).
    pose proof (sim_view Hs) as Hv.
    destruct Hs as (C & Hu & Hs). unfold sim. split_and.
    + unfold same_control in *. intuition congruence.
    + intros Hla. congruence.
    + right. unfold loose. split_and.
      * congruence.
      * destruct C as (-> & _). exact Hfow.
      * apply Ha.
      * lia.
      * rewrite Hv, (view_flushed (proj1 W) Hst). now rewrite Hr.
  - intros Hl'. destruct (locked b) eqn:Hl.
    + rewrite (Hlk eq_refl) in Hl'. congruence.
    + apply Hun. reflexivity.
Qed.

Lemma flush_left (pre : jsstring) (a b : LWMD) :
  wf pre a -> wf pre b -> sim pre a b ->
  Options.flush_on_write (options a) = true ->
  exists a', flush_ a = Ok a' /\ wf pre a' /\ sim pre a' b /\
    chunks a' = chunks a /\ options a' = options a /\
    (locked a' = false -> start a' = position a').
Proof.
  intros Ha Hb Hs Hfow.
  destruct (sim_fields Hs) as (_ & _ & S3 & _).
  destruct (flush_wf Ha) as (a' & E & W & Hc & Ho & Hctl & Hlk & Hun).
  exists a'. split_and; auto.
  - destruct (locked a) eqn:Hl; [now rewrite (Hlk eq_refl) |].
    destruct (Hun eq_refl) as (Hst & Hr).
    pose proof (sim_view Hs) as Hv.
    destruct Hs as (C & Hu & Hs). unfold sim. split_and.
    + unfold same_control in *. intuition congruence.
    + intros Hla. exfalso.
      destruct Hctl as (_ & _ & _ & _ & Hst' & _).
      unfold locked in *. rewrite <- Hst' in Hla. congruence.
    + right. unfold loose. split_and.
      * destruct Hctl as (_ & _ & _ & _ & Hst' & _).
        unfold locked in *. now rewrite <- Hst'.
      * now rewrite Ho.
      * lia.
      * apply Hb.
      * rewrite <- Hv, (view_flushed (proj1 W) Hst). now rewrite Hr.
  - intros Hl'. destruct (locked a) eqn:Hl.
    + rewrite (Hlk eq_refl) in Hl'. congruence.
    + apply Hun. reflexivity.
Qed.

Lemma write_loop_app (x y : jsstring) (t : LWMD) :
  write_loop (x ++ y) t = (t' <- write_loop x t ;; write_loop y t').
Proof.
  revert t. induction x as [| c x IH]; intros t; simpl; [reflexivity |].
  destruct (write_char c t); simpl; [apply IH | reflexivity].
Qed.

Lemma write_loop_wf (cs : jsstring) :
  forall (pre rest : jsstring) (t t' : LWMD),
    wf pre t -> concat (chunks t) = pre ++ cs ++ rest ->
    write_loop cs t = Ok t' ->
    wf (pre ++ cs) t' /\ chunks t' = chunks t /\ options t' = options t.
Proof.
  induction cs as [| c cs IH]; intros pre rest t t' Hw Hc; simpl.
  - intros [= <-]. now rewrite app_nil_r.
  - destruct (write_char c t) as [t1 |] eqn:E; [| discriminate].
    cbn [bind]. intros Hl.
    destruct (@write_char_wf pre c (cs ++ rest) t t1 Hw Hc E)
      as (Hw1 & Hc1 & Ho1).
    destruct (IH (pre ++ [c]) rest t1 t' Hw1) as (Hw' & Hc' & Ho'); auto.
    + now rewrite Hc1, Hc, <- app_assoc.
    + rewrite <- app_assoc in Hw'. split_and; [exact Hw' | congruence ..].
Qed.

(** The loop of [write] over the same characters, in both runs. *)
Lemma write_loop_sim (cs : jsstring) :
  forall (pre ra rb : jsstring) (a b : LWMD),
    wf pre a -> wf pre b -> sim pre a b ->
    concat (chunks a) = pre ++ cs ++ ra ->
    concat (chunks b) = pre ++ cs ++ rb ->
    rel_result (sim (pre ++ cs)) (write_loop cs a) (write_loop cs b).
Proof.
  induction cs as [| c cs IH]; intros pre ra rb a b Wa Wb Hs Ca Cb; simpl.
  - now rewrite app_nil_r.
  - pose proof (write_char_sim c Wa Wb Hs) as Hstep.
    destruct (write_char c a) as [a1 |] eqn:Ea,
             (write_char c b) as [b1 |] eqn:Eb;
      cbn [rel_result bind] in *; try contradiction; [| exact I].
    destruct (@write_char_wf pre c (cs ++ ra) a a1 Wa Ca Ea)
      as (Wa1 & Ca1 & _).
    destruct (@write_char_wf pre c (cs ++ rb) b b1 Wb Cb Eb)
      as (Wb1 & Cb1 & _).
    specialize (IH (pre ++ [c]) ra rb a1 b1 Wa1 Wb1 Hstep).
    rewrite <- !app_assoc in IH.
    apply IH; [rewrite Ca1, Ca | rewrite Cb1, Cb]; reflexivity.
Qed.

(** The one run reads [concat fragments] in a single loop, the other
    takes the fragments through [write] one by one. *)
Lemma write_all_sim (fragments : list jsstring) :
  forall (pre ra : jsstring) (a b : LWMD),
    wf pre a -> wf pre b -> sim pre a b -> settled b ->
    concat (chunks a) = pre ++ concat fragments ++ ra ->
    concat (chunks b) = pre ->
    rel_result
      (fun a' b' =>
         sim (pre ++ concat fragments) a' b' /\
         wf (pre ++ concat fragments) a' /\
         wf (pre ++ concat fragments) b' /\ settled b' /\
         options a' = options a)
      (write_loop (concat fragments) a) (write_all fragments b).
Proof.
  induction fragments as [| f fs IH]; intros pre ra a b Wa Wb Hs Hq Ca Cb.
  - simpl. rewrite app_nil_r. auto.
  - cbn [concat write_all]. rewrite write_loop_app. unfold write.
    set (b0 := set_chunks (chunks b ++ [f]) b).
    assert (Cb0 : concat (chunks b0) = pre ++ f ++ []).
    { unfold b0. cbn [chunks set_chunks]. rewrite concat_app, Cb.
      reflexivity. }
    assert (Wb0 : wf pre b0).
    { destruct Wb as ((P & S & _ & K) & H). split; [| exact H].
      unfold frame. split_and; auto. exists f. rewrite Cb0.
      now rewrite app_nil_r. }
    assert (Hs0 : sim pre a b0) by exact Hs.
    cbn [concat] in Ca. rewrite <- app_assoc in Ca.
    pose proof (@write_loop_sim f pre _ _ a b0 Wa Wb0 Hs0 Ca Cb0) as Hl.
    destruct (write_loop f a) as [a1 |] eqn:Ea,
             (write_loop f b0) as [b1 |] eqn:Eb;
      cbn [rel_result bind] in *; try contradiction; [| exact I].
    destruct (@write_loop_wf f pre _ a a1 Wa Ca Ea) as (Wa1 & Ca1 & Oa1).
    destruct (@write_loop_wf f pre _ b0 b1 Wb0 Cb0 Eb) as (Wb1 & Cb1 & Ob1).
    assert (Hgo : forall b2, wf (pre ++ f) b2 -> sim (pre ++ f) a1 b2 ->
              settled b2 -> chunks b2 = chunks b1 ->
              rel_result
                (fun a' b' =>
                   sim (pre ++ f ++ concat fs) a' b' /\
                   wf (pre ++ f ++ concat fs) a' /\
                   wf (pre ++ f ++ concat fs) b' /\ settled b' /\
                   options a' = options a)
                (write_loop (concat fs) a1) (write_all fs b2)).
    { intros b2 Wb2 Hs2 Hq2 Cb2.
      specialize (IH (pre ++ f) ra a1 b2 Wa1 Wb2 Hs2 Hq2).
      rewrite <- !app_assoc in IH.
      assert (C1 : concat (chunks a1) = pre ++ f ++ concat fs ++ ra)
        by congruence.
      assert (C2 : concat (chunks b2) = pre ++ f).
      { rewrite Cb2, Cb1, Cb0. now rewrite app_nil_r. }
      specialize (IH C1 C2).
      destruct (write_loop (concat fs) a1), (write_all fs b2);
        cbn [rel_result] in *; auto.
      intuition congruence. }
    destruct (Options.flush_on_write (options b1)) eqn:Hfow.
    + destruct (flush_right Wa1 Wb1 Hl Hfow)
        as (b2 & E2 & Wb2 & Hs2 & Cb2 & Ob2 & Hst2).
      rewrite E2. cbn [bind]. apply Hgo; auto.
      intros _. exact Hst2.
    + apply Hgo; auto. intros H. congruence.
Qed.

Lemma end_sim (pre : jsstring) (a b : LWMD) :
  wf pre a -> wf pre b -> sim pre a b -> settled a -> settled b ->
  rel_result same_rendering (end_ a) (end_ b).
Proof.
  intros [Fa Ha] [Fb Hb] Hs Qa Qb.
  destruct (sim_fields Hs) as (_ & _ & S3 & _).
  unfold end_. rewrite S3. destruct (locked a) eqn:Hl.
  - destruct Hs as ((C1 & C2 & C3 & C4 & C5 & C6) & Hu & Hs).
    destruct Hs as [(E1 & E2) | (L & _)]; [| congruence].
    unfold flush. cbn [locked set_locked set_state state State.locked].
    change (chunks (set_locked false a)) with (chunks a).
    change (chunks (set_locked false b)) with (chunks b).
    change (position (set_locked false a)) with (position a).
    change (position (set_locked false b)) with (position b).
    change (uncorfinmed_start (set_locked false a))
      with (uncorfinmed_start a).
    change (uncorfinmed_start (set_locked false b))
      with (uncorfinmed_start b).
    specialize (Hu Hl). rewrite <- Hu.
    rewrite (getSubstring_consumed _ Fa) by apply Ha.
    rewrite (getSubstring_consumed _ Fb) by apply Ha.
    destruct (len _ =? 0); cbn [bind rel_result snd].
    + exact E2.
    + unfold top_append. cbn [top set_locked set_state].
      rewrite <- C4, (frame_top Fa). cbn [bind rel_result snd].
      unfold same_rendering. simpl. rewrite !rendered_app. congruence.
  - cbn [bind rel_result]. unfold same_rendering. simpl.
    destruct Hs as ((C1 & C2 & C3 & C4 & C5 & C6) & Hu & Hs).
    destruct Hs as [(E1 & E2) | (L1 & L2 & _ & _ & L5)]; [exact E2 |].
    rewrite <- (view_flushed Fa), <- (view_flushed Fb); auto;
      first [apply Qb | apply Qa]; congruence.
Qed.

Lemma wf_clearState (t : LWMD) : wf [] (clearState t).
Proof.
  unfold wf, frame, head_ok, stack_ok. simpl. split_and; try lia;
    try discriminate; try reflexivity.
  - now exists [].
  - now exists [].
  - intros [H | H]; discriminate.
Qed.

Lemma flush_state (t t' : LWMD) : flush_ t = Ok t' -> state t' = state t.
Proof.
  unfold flush_, flush, top_append.
  repeat (break_match; cbn [bind]); try discriminate; intros [= <-];
    reflexivity.
Qed.

(** The end of the loop body leaves [state.state] alone. *)
Lemma after_switch_state (c : Z) (t t' : LWMD) :
  after_switch c t = Ok t' -> state_state t' = state_state t.
Proof.
  unfold after_switch. destruct (c =? CHAR.NEWLINE).
  - destruct (0 <? heading_count _).
    + destruct (flush_ _) as [t1 |] eqn:E; [| discriminate]. cbn [bind].
      intros [= <-]. apply flush_state in E.
      destruct (down_fields t1) as (_ & _ & _ & Hd & _).
      unfold state_state. simpl. now rewrite Hd, E.
    + intros [= <-]. reflexivity.
  - destruct (line_start t); intros [= <-]; reflexivity.
Qed.

Lemma elements_app (d1 d2 : list append_call) :
  elements (d1 ++ d2) = elements d1 ++ elements d2.
Proof. apply flat_map_app. Qed.

(** [flush()] appends text only and leaves the control state alone. *)
Lemma flush_keeps (pre : jsstring) (t : LWMD) :
  frame pre t ->
  exists t', flush_ t = Ok t' /\ frame pre t' /\
    elements (dom t') = elements (dom t) /\
    state t' = state t /\ created_count t' = created_count t /\
    position t' = position t /\ stack t' = stack t /\ top t' = top t /\
    (locked t = false -> start t <= position t ->
     start t' = position t /\ rendered (dom t') = view pre t).
Proof.
  intros Hf. rewrite (flush_eq Hf). eexists. split; [reflexivity |].
  pose proof (len_nonneg pre) as Hpre.
  destruct (locked t) eqn:Hl; cbn [orb].
  - split_and; try reflexivity; [exact Hf | discriminate].
  - destruct (position t <=? start t) eqn:E; bool_hyps.
    + split_and; try reflexivity; [exact Hf |]. intros _ Hle.
      split; [lia |]. symmetry. apply (view_flushed Hf). lia.
    + split_and; try reflexivity.
      * inv_solve.
      * simpl. rewrite elements_app. simpl. apply app_nil_r.
      * intros _ _. split; [reflexivity |]. simpl.
        rewrite rendered_app, rendered_text. unfold view.
        now rewrite (frame_top Hf).
Qed.

Lemma after_switch_elements (pre : jsstring) (c : Z) (t t' : LWMD) :
  frame pre t -> after_switch c t = Ok t' ->
  elements (dom t') = elements (dom t).
Proof.
  intros Hf. unfold after_switch.
  assert (Hf' : frame pre (set_modifierStack [] (set_line_start true t)))
    by exact Hf.
  destruct (flush_keeps Hf') as (tf & E & _ & El & _).
  rewrite E. cbn [bind].
  repeat (break_match; cbn [bind]); intros [= <-]; try reflexivity.
  simpl. destruct (down_fields tf) as (_ & _ & _ & _ & Hd & _).
  now rewrite Hd.
Qed.

(** * The claims of the specification *)

(** ** C1: streaming invariance *)

(** C1, as stated, fails: the text "ab" written as one fragment is one
    text append, written as the fragments "a" and "b" it is two. *)
Lemma streaming_appends_differ :
  concat [js "a"; js "b"] = js "ab" /\
  output (stream [js "ab"] (new_LWMD default_options)) =
    Some [(target, text (js "ab"))] /\
  output (stream [js "a"; js "b"] (new_LWMD default_options)) =
    Some [(target, text (js "a")); (target, text (js "b"))] /\
  output (stream [js "ab"] (new_LWMD default_options)) <>
  output (stream [js "a"; js "b"] (new_LWMD default_options)).
Proof.
  split; [reflexivity |]. split; [reflexivity |]. split; [reflexivity |].
  vm_compute. discriminate.
Qed.

(** C1 (amended): for every string S and every partition of S into
    fragments, on a fresh stream, writing the fragments in order and
    calling end either raises the TypeError that writing S as a single
    fragment raises, or completes as the single write does and leaves the
    same document up to the division of text into text nodes: the same
    elements appended to the same parents and the same characters appended
    to the same parents, all in the same order. *)
Theorem streaming_invariance (t : LWMD) (fragments : list jsstring) :
  rel_result same_rendering
    (stream [concat fragments] (clearState t))
    (stream fragments (clearState t)).
Proof.
  pose proof (wf_clearState t) as W0.
  assert (Hc0 : chunks (clearState t) = []) by reflexivity.
  assert (Hq0 : settled (clearState t)) by (intros _ _; reflexivity).
  generalize dependent (clearState t). intros t0 W0 Hc0 Hq0.
  unfold stream. cbn [write_all]. unfold write at 1. cbv zeta. rewrite Hc0.
  cbn [app].
  match goal with
  | |- context [write_loop _ ?x] => remember x as a0 eqn:Ea0
  end.
  assert (Wa0 : wf [] a0).
  { subst a0. split; [| exact (proj2 W0)]. unfold frame. simpl.
    destruct W0 as ((P & S & _ & K) & _). split_and; auto.
    eexists. reflexivity. }
  assert (Hs0 : sim [] a0 t0).
  { subst a0. unfold sim, same_control, exact. split_and; auto. }
  pose proof (@write_all_sim fragments [] [] a0 t0 Wa0 W0 Hs0 Hq0) as H.
  cbn [app] in H. rewrite app_nil_r in H.
  assert (Ca : concat (chunks a0) = concat fragments)
    by (subst a0; simpl; apply app_nil_r).
  assert (Cb : concat (chunks t0) = []) by now rewrite Hc0.
  specialize (H Ca Cb).
  destruct (write_loop (concat fragments) a0) as [a1 |] eqn:Ea,
           (write_all fragments t0) as [b1 |] eqn:Eb;
    cbn [rel_result bind] in *; try contradiction; [| exact I].
  destruct H as (Hs1 & Wa1 & Wb1 & Qb1 & Oa1).
  destruct (Options.flush_on_write (options a1)) eqn:Hfow.
  - destruct (flush_left Wa1 Wb1 Hs1 Hfow)
      as (a2 & E2 & Wa2 & Hs2 & _ & _ & Hst2).
    rewrite E2. cbn [bind].
    apply (end_sim Wa2 Wb1 Hs2); [| exact Qb1]. intros _. exact Hst2.
  - cbn [bind]. apply (end_sim Wa1 Wb1 Hs1); [| exact Qb1].
    intros Hf. congruence.
Qed.

(** ** C4: matched emphasis runs *)

(** C4: on "a **b** c" the closing run matches the opening run (the test
    of the matching branch holds when its second asterisk is read), yet
    the document gets three text appends and no element for the span. *)
Theorem matched_emphasis_not_wrapped :
  match write (js "a **b*") (new_LWMD default_options) with
  | Ok t =>
      state_state t = SEQUENCE_MODIFIER /\
      match at_index (modifierStack t) (length_of (modifierStack t) - 1) with
      | Some l =>
          let l' := Modifier (m_char l) (m_count l + 1) (m_position l) in
          have_match (removelast (modifierStack t) ++ [l']) CHAR.ASTERISK l'
            = true
      | None => False
      end
  | TypeError => False
  end /\
  output (stream [js "a **b** c"] (new_LWMD default_options)) =
    Some [(target, text (js "a ")); (target, text (js "**b"));
          (target, text (js "** c"))].
Proof. vm_compute. repeat split. Qed.

(** ** C5: inline code *)

(** C5: after the opening backtick the parser is in CODE and no character
    takes it out of it: on "a`b`c", a newline and "# t" the closing
    backtick leaves the state at CODE, no code span is appended and the
    heading on the next line is plain text. *)
Theorem inline_code_never_closes :
  (forall (c : Z) (t t' : LWMD),
     state_state t = CODE -> write_char c t = Ok t' ->
     state_state t' = CODE) /\
  match write (js "a`b`") (new_LWMD default_options) with
  | Ok t => state_state t = CODE
  | TypeError => False
  end /\
  output (stream [js "a`b`c" ++ NEWLINE ++ js "# t" ++ NEWLINE]
            (new_LWMD default_options)) =
    Some [(target, text (js "a"));
          (target, text (js "`b`c" ++ NEWLINE ++ js "# t" ++ NEWLINE))].
Proof.
  split; [| split; [vm_compute; reflexivity | reflexivity]].
  intros c t t' Hst. unfold write_char, switch. rewrite Hst. cbn [bind].
  intros H. now rewrite (after_switch_state _ _ H).
Qed.

(** ** C7: end of stream under the lock *)

(** C7: on "##" followed by end, the text appended is "#": the
    unconfirmed cursor was advanced with every further '#'. *)
Theorem end_in_heading_run_drops_markers :
  output (stream [js "##"] (new_LWMD default_options)) =
    Some [(target, text (js "#"))] /\
  output (stream [js "--"] (new_LWMD default_options)) =
    Some [(target, text (js "--"))].
Proof. split; reflexivity. Qed.

(** ** C9: flush *)

(** C9, as stated, fails: after "hello" is consumed (position 5, nothing
    flushed), flush(0, 3) appends "hel" and reports true, and the confirmed
    cursor is 5, not 3. *)
Lemma flush_cursor_is_position :
  match write (js "hello") (new_LWMD (Options.Make false true)) with
  | Ok t =>
      locked t = false /\ position t = 5 /\ start t = 0 /\
      match flush (Some 0) 3 t with
      | Ok (true, t') =>
          dom t' = dom t ++ [(target, text (js "hel"))] /\
          start t' = 5 /\ start t' <> 3
      | _ => False
      end
  | TypeError => False
  end.
Proof. vm_compute. repeat split. discriminate. Qed.

(** C9 (amended): for every call flush(from, to) with from and to not
    negative and a defined top: if the lock flag is true or the span
    from..to of the chunk store is empty, flush is a no-op that reports
    false and leaves start and all other parser state unchanged; otherwise
    it reads exactly the span from..to from the chunk store, appends it as
    text to the current top of the open-block stack, advances the confirmed
    cursor to the current position (which is [to] in every call the parser
    makes), unsets the unconfirmed cursor, and reports true. *)
Theorem flush_spec (t : LWMD) (from : option Z) (to : Z) (e : element) :
  0 <= toNumber from -> 0 <= to -> top t = Some e ->
  let span := slice (concat (chunks t)) (toNumber from) to in
  flush from to t =
  if locked t || (len span =? 0) then Ok (false, t)
  else Ok (true,
           set_uncorfinmed_start None
             (set_start (position t)
                (set_dom (dom t ++ [(e, text span)]) t))).
Proof.
  intros Hf Ht He span. unfold flush.
  destruct (locked t); [reflexivity |]. cbn [orb].
  rewrite getSubstring_spec by assumption. fold span.
  destruct (len span =? 0); [reflexivity |].
  unfold top_append. rewrite He. reflexivity.
Qed.

(** C9 (amended) at flush(1, 5) after "hello". *)
Lemma flush_spec_witness :
  flush (Some 1) 5 after_hello =
  Ok (true,
      set_uncorfinmed_start None
        (set_start 5 (set_dom [(target, text (js "ello"))] after_hello))).
Proof.
  refine (eq_trans (@flush_spec after_hello (Some 1) 5 target _ _ _) _).
  - simpl. lia.
  - lia.
  - reflexivity.
  - reflexivity.
Defined.

(** ** C10: the element stack *)

Lemma stack_ok_write_all (fragments : list jsstring) :
  forall (pre : jsstring) (t t' : LWMD),
    wf pre t -> concat (chunks t) = pre ->
    write_all fragments t = Ok t' ->
    wf (pre ++ concat fragments) t' /\
    concat (chunks t') = pre ++ concat fragments.
Proof.
  induction fragments as [| f fs IH]; intros pre t t' W C; simpl.
  - intros [= <-]. now rewrite app_nil_r.
  - unfold write.
    set (t0 := set_chunks (chunks t ++ [f]) t).
    assert (C0 : concat (chunks t0) = pre ++ f ++ []).
    { unfold t0. cbn [chunks set_chunks]. rewrite concat_app, C.
      reflexivity. }
    assert (W0 : wf pre t0).
    { destruct W as ((P & S & _ & K) & H). split; [| exact H].
      unfold frame. split_and; auto. exists f. rewrite C0.
      now rewrite app_nil_r. }
    destruct (write_loop f t0) as [t1 |] eqn:E1; [| discriminate].
    cbn [bind].
    destruct (@write_loop_wf f pre [] t0 t1 W0 C0 E1) as (W1 & C1 & O1).
    destruct (flush_wf W1) as (t2 & E2 & W2 & C2 & _).
    assert (Hgo : forall t3, wf (pre ++ f) t3 -> chunks t3 = chunks t1 ->
              write_all fs t3 = Ok t' ->
              wf (pre ++ f ++ concat fs) t' /\
              concat (chunks t') = pre ++ f ++ concat fs).
    { intros t3 W3 C3 H3. rewrite !app_assoc. apply (IH (pre ++ f) t3 t').
      - exact W3.
      - rewrite C3, C1, C0. now rewrite app_nil_r.
      - exact H3. }
    destruct (Options.flush_on_write (options t1)).
    + rewrite E2. cbn [bind]. now apply Hgo.
    + cbn [bind]. now apply Hgo.
Qed.

(** C10: the element stack always holds the root target at its bottom and
    top is its last element: clearState sets it to the target alone, up
    pushes one element, down pops only above the root, however often it is
    called, and every state a stream reaches keeps it so. *)
Theorem stack_keeps_root (t : LWMD) (H : stack_ok t) :
  (stack (clearState t) = [target] /\ stack_ok (clearState t)) /\
  (forall tag, exists t',
     up tag t = Ok t' /\ stack_ok t' /\
     stack t' = stack t ++ [created (created_count t) tag]) /\
  stack_ok (down t) /\
  (forall n, stack_ok (Nat.iter n down t)) /\
  (length_of (stack t) <= 1 -> down t = t) /\
  (forall fragments t',
     write_all fragments (clearState t) = Ok t' -> stack_ok t') /\
  (forall fragments t',
     stream fragments (clearState t) = Ok t' -> stack_ok t').
Proof.
  split_and.
  - reflexivity.
  - apply (wf_clearState t).
  - intros tag. destruct H as [Hs Ht].
    rewrite (up_eq tag t Ht). eexists. split; [reflexivity |].
    split; [| reflexivity].
    apply (@stack_ok_up tag t); [now split | now rewrite (up_eq tag t Ht)].
  - now apply stack_ok_down.
  - intros n. induction n as [| n IH]; [exact H |].
    simpl. now apply stack_ok_down.
  - intros Hle. unfold down.
    destruct (1 <? length_of (stack t)) eqn:E; [| reflexivity].
    apply Z.ltb_lt in E. lia.
  - intros fragments t' Hw.
    destruct (@stack_ok_write_all fragments [] (clearState t) t'
                (wf_clearState t) eq_refl Hw) as (W & _).
    apply W.
  - intros fragments t'. unfold stream.
    destruct (write_all fragments (clearState t)) as [t1 |]; [| discriminate].
    cbn [bind]. unfold end_.
    destruct (t0 <- _ ;; Ok (clearState t0)) as [t2 |] eqn:E;
      [| discriminate].
    destruct (if locked t1 then _ else _) as [t3 |]; [| discriminate].
    cbn [bind] in E. injection E as <-. intros [= <-].
    apply (wf_clearState t3).
Qed.

(** C10 at a fresh parser: two extra calls of down. *)
Lemma stack_keeps_root_witness :
  stack_ok (new_LWMD default_options) /\
  stack_ok (down (down (new_LWMD default_options))).
Proof.
  assert (H : stack_ok (new_LWMD default_options)).
  { split; [now exists [] | reflexivity]. }
  split; [exact H |].
  exact (proj1 (proj2 (proj2 (proj2
           (@stack_keeps_root (new_LWMD default_options) H)))) 2%nat).
Defined.

(** ** C8: line boundaries *)

Lemma after_switch_line (c : Z) (t t' : LWMD) :
  after_switch c t = Ok t' ->
  (c = CHAR.NEWLINE -> modifierStack t' = [] /\ line_start t' = true) /\
  (c <> CHAR.NEWLINE -> line_start t' = false).
Proof.
  unfold after_switch. destruct (c =? CHAR.NEWLINE) eqn:Ec; bool_hyps.
  - destruct (0 <? heading_count _).
    + destruct (flush_ _) as [t1 |] eqn:E; [| discriminate]. cbn [bind].
      intros [= <-]. apply flush_state in E.
      destruct (down_fields t1) as (_ & _ & _ & Hd & _).
      unfold modifierStack, line_start. simpl. rewrite Hd, E.
      split; [split; reflexivity | congruence].
    + intros [= <-]. split; [split; reflexivity | congruence].
  - destruct (line_start t) eqn:El; intros [= <-]; split; try congruence;
      intros _; [reflexivity | exact El].
Qed.

Lemma write_char_line (c : Z) (t t' : LWMD) :
  write_char c t = Ok t' ->
  (c = CHAR.NEWLINE -> modifierStack t' = [] /\ line_start t' = true) /\
  (line_start t' = true -> modifierStack t' = []).
Proof.
  unfold write_char. destruct (switch c t) as [t1 |]; [| discriminate].
  cbn [bind]. intros H. apply after_switch_line in H. destruct H as [H1 H2].
  split; [exact H1 |]. intros Hl.
  destruct (Z.eq_dec c CHAR.NEWLINE) as [E | E]; [now apply H1 |].
  rewrite (H2 E) in Hl. discriminate.
Qed.

Lemma write_loop_line (chunk : jsstring) :
  forall t t' : LWMD,
    write_loop chunk t = Ok t' ->
    (line_start t = true -> modifierStack t = []) ->
    line_start t' = true -> modifierStack t' = [].
Proof.
  induction chunk as [| c cs IH]; intros t t'; simpl.
  - intros [= <-]. auto.
  - destruct (write_char c t) as [t1 |] eqn:E; [| discriminate].
    cbn [bind]. intros H _. apply (IH t1 t' H).
    now apply (write_char_line c t).
Qed.

Lemma write_line (chunk : jsstring) (t t' : LWMD) :
  write chunk t = Ok t' ->
  (line_start t = true -> modifierStack t = []) ->
  line_start t' = true -> modifierStack t' = [].
Proof.
  unfold write.
  destruct (write_loop chunk _) as [t1 |] eqn:E; [| discriminate].
  cbn [bind]. intros H Hi.
  assert (Hs : state t' = state t1).
  { destruct (Options.flush_on_write (options t1));
      [now apply flush_state | now injection H as <-]. }
  unfold line_start, modifierStack. rewrite Hs.
  apply (write_loop_line chunk _ E). exact Hi.
Qed.

Lemma switch_total (pre : jsstring) (c : Z) (t : LWMD) :
  frame pre t ->
  (state_state t = SEQUENCE_MODIFIER -> modifierStack t <> []) ->
  exists t1, switch c t = Ok t1.
Proof.
  intros Hf Hm. pose proof (frame_top Hf) as Htop.
  unfold switch, case_NORMAL, case_SEQUENCE_HR, case_SEQUENCE_HEADING,
    case_SEQUENCE_MODIFIER.
  destruct (state_state t) eqn:Hst.
  - rewrite !(flush_eq Hf). cbn [bind].
    repeat (break_match; cbn [bind]); eauto.
  - rewrite (up_eq _ _ (e := last (stack t) target)) by exact Htop.
    cbn [bind]. repeat (break_match; cbn [bind]); eauto.
  - assert (Hf' : frame pre (set_locked false (set_state_state NORMAL t)))
      by exact Hf.
    rewrite (flush_eq Hf'). unfold top_append.
    replace (top (set_created_count
       (S (created_count (set_locked false (set_state_state NORMAL t))))
       (set_locked false (set_state_state NORMAL t))))
      with (Some (last (stack t) target)) by (symmetry; exact Htop).
    cbn [bind]. repeat (break_match; cbn [bind]); eauto.
  - specialize (Hm eq_refl).
    change (modifierStack (set_locked false (set_state_state NORMAL t)))
      with (modifierStack t).
    change (modifierStack (set_uncorfinmed_start
              (Some (toNumber (uncorfinmed_start t) + 1)) t))
      with (modifierStack t).
    rewrite (at_index_last (Modifier 0 0 None) Hm).
    repeat (break_match; cbn [bind]); eauto.
  - eauto.
  - eauto.
Qed.

Lemma after_switch_total (pre : jsstring) (c : Z) (t : LWMD) :
  frame pre t -> exists t', after_switch c t = Ok t'.
Proof.
  intros Hf. unfold after_switch.
  assert (Hf' : frame pre (set_modifierStack [] (set_line_start true t)))
    by exact Hf.
  rewrite (flush_eq Hf'). repeat (break_match; cbn [bind]); eauto.
Qed.

(** A character is consumed without a TypeError unless the parser is in
    SEQUENCE_MODIFIER with an empty Modifier Stack. *)
Lemma write_char_total (pre : jsstring) (c : Z) (t : LWMD) :
  wf pre t ->
  (state_state t = SEQUENCE_MODIFIER -> modifierStack t <> []) ->
  exists t', write_char c t = Ok t'.
Proof.
  intros [Hf Hh] Hm. unfold write_char.
  destruct (switch_total c Hf Hm) as (t1 & E1). rewrite E1. cbn [bind].
  destruct (switch_wf _ Hf Hh E1) as (F1 & _).
  apply (after_switch_total c F1).
Qed.

(** The one state in which a character is not consumed: SEQUENCE_MODIFIER
    with an empty Modifier Stack, which a rule run of '*' or of '_', of
    fewer than three characters and ended by a newline, leaves behind. *)
Lemma empty_modifier_stack_throws (c : Z) (t : LWMD) :
  state_state t = SEQUENCE_MODIFIER -> modifierStack t = [] ->
  write_char c t = TypeError.
Proof.
  intros Hst Hm. unfold write_char, switch, case_SEQUENCE_MODIFIER.
  rewrite Hst.
  change (modifierStack (set_locked false (set_state_state NORMAL t)))
    with (modifierStack t).
  rewrite Hm. destruct (isModifierChar c); reflexivity.
Qed.

Lemma rule_abort_by_newline_throws_later :
  match write (js "*" ++ NEWLINE) (new_LWMD default_options) with
  | Ok t => state_state t = SEQUENCE_MODIFIER /\ modifierStack t = [] /\
            line_start t = true
  | TypeError => False
  end /\
  output (stream [js "*" ++ NEWLINE ++ js "a"] (new_LWMD default_options))
    = None.
Proof. vm_compute. repeat split. Qed.

(** C8: whenever a newline character has been processed the Modifier
    Stack is empty and line_start is true, in every parser state, be the
    newline read on its own or at the end of a chunk; processing the
    newline completes in every state of a stream except SEQUENCE_MODIFIER
    with an empty stack; and in every state that a stream reaches at the
    start of a line (line_start true) the Modifier Stack is empty. *)
Theorem newline_resets_line (t : LWMD) :
  (forall t', write_char CHAR.NEWLINE t = Ok t' ->
     modifierStack t' = [] /\ line_start t' = true) /\
  (forall chunk t', write (chunk ++ NEWLINE) t = Ok t' ->
     modifierStack t' = [] /\ line_start t' = true) /\
  (forall pre, wf pre t ->
     (state_state t = SEQUENCE_MODIFIER -> modifierStack t <> []) ->
     exists t', write_char CHAR.NEWLINE t = Ok t') /\
  (forall fragments t',
     write_all fragments (clearState t) = Ok t' ->
     line_start t' = true -> modifierStack t' = []).
Proof.
  split_and.
  - intros t' H. now apply (write_char_line _ _ H).
  - intros chunk t'. unfold write. rewrite write_loop_app.
    destruct (write_loop chunk _) as [t1 |]; [| discriminate].
    cbn [bind write_loop NEWLINE].
    destruct (write_char CHAR.NEWLINE t1) as [t2 |] eqn:E; [| discriminate].
    cbn [bind]. intros H.
    assert (Hs : state t' = state t2).
    { destruct (Options.flush_on_write (options t2));
        [now apply flush_state | now injection H as <-]. }
    unfold line_start, modifierStack. rewrite Hs.
    now apply (write_char_line _ _ E).
  - intros pre W Hm. now apply (write_char_total CHAR.NEWLINE W).
  - intros fragments.
    assert (Hgen : forall t0 t', write_all fragments t0 = Ok t' ->
              (line_start t0 = true -> modifierStack t0 = []) ->
              line_start t' = true -> modifierStack t' = []).
    { induction fragments as [| f fs IH]; intros t0 t'; simpl.
      - intros [= <-]. auto.
      - destruct (write f t0) as [t1 |] eqn:E; [| discriminate].
        cbn [bind]. intros H Hi. apply (IH t1 t' H).
        now apply (write_line f t0). }
    intros t' H. apply (Hgen _ _ H). reflexivity.
Qed.

(** ** C6: what an abort does with the character *)

(** The end of the loop body for a character that is not a newline. *)
Lemma after_switch_plain (c : Z) (t : LWMD) :
  c <> CHAR.NEWLINE ->
  after_switch c t =
  Ok (set_position (position t + 1)
        (if line_start t then set_line_start false t else t)).
Proof.
  intros Hc. unfold after_switch.
  destruct (c =? CHAR.NEWLINE) eqn:E; bool_hyps; [congruence |].
  destruct (line_start t); reflexivity.
Qed.

(** What the end of the loop body keeps, for every character. *)
Lemma after_switch_keeps (pre : jsstring) (c : Z) (t : LWMD) :
  frame pre t ->
  exists t', after_switch c t = Ok t' /\
    position t' = position t + 1 /\
    state_state t' = state_state t /\ locked t' = locked t /\
    created_count t' = created_count t /\
    hr_char t' = hr_char t /\ hr_count t' = hr_count t /\
    modifierStack t' =
      (if c =? CHAR.NEWLINE then [] else modifierStack t) /\
    line_start t' = (c =? CHAR.NEWLINE).
Proof.
  intros Hf. unfold after_switch.
  assert (Hf' : frame pre (set_modifierStack [] (set_line_start true t)))
    by exact Hf.
  destruct (flush_keeps Hf') as (tf & E & _ & _ & S & C & P & _).
  rewrite E.
  destruct (c =? CHAR.NEWLINE).
  - destruct (0 <? heading_count _).
    + cbn [bind]. eexists. split; [reflexivity |].
      destruct (down_fields tf)
        as (E1 & E2 & E3 & E4 & E5 & E6 & E7 & E8 & E9).
      unfold state_state, locked, hr_char, hr_count, modifierStack,
        line_start. simpl. rewrite E1, E4, E8, S, C, P. simpl.
      repeat split.
    + cbn [bind]. eexists. split; [reflexivity |]. repeat split.
  - destruct (line_start t) eqn:El; cbn [bind]; eexists;
      (split; [reflexivity |]); repeat split; auto.
Qed.

Lemma runs_app (a b : list modifier) : runs (a ++ b) = runs a ++ runs b.
Proof. apply map_app. Qed.

Lemma last_entry_split (A : Type) (l : list A) (d x : A) :
  at_index l (length_of l - 1) = Some x -> l = removelast l ++ [x].
Proof.
  intros H. destruct l as [| y l]; [discriminate |].
  rewrite (at_index_last (l := y :: l) d) in H by discriminate.
  injection H as Hx. rewrite <- Hx.
  exact (@app_removelast_last A (y :: l) d ltac:(discriminate)).
Qed.

(** C6, as stated, fails: on "#*" the asterisk aborts the heading run and
    is not given to the Normal state, which would have started a modifier
    run with it; the parser is in NORMAL with an empty Modifier Stack. *)
Lemma heading_abort_not_reprocessed :
  match write (js "#*") (new_LWMD default_options) with
  | Ok t =>
      state_state t = NORMAL /\ modifierStack t = [] /\
      state_state t <> SEQUENCE_MODIFIER /\
      (t1 <- case_NORMAL CHAR.ASTERISK t ;; Ok (state_state t1)) =
        Ok SEQUENCE_MODIFIER
  | TypeError => False
  end.
Proof. vm_compute. repeat split. discriminate. Qed.

(** An abort that does not meet an empty Modifier Stack. *)
Lemma abort_step (pre : jsstring) (c : Z) (t : LWMD) :
  wf pre t -> aborts c t = true ->
  (state_state t = SEQUENCE_MODIFIER -> modifierStack t <> []) ->
  exists t', write_char c t = Ok t' /\
    position t' = position t + 1 /\ locked t' = false /\
    created_count t' = created_count t /\
    ((state_state t' = NORMAL /\
      runs (modifierStack t') =
        (if c =? CHAR.NEWLINE then [] else runs (modifierStack t)))
     \/
     (state_state t = SEQUENCE_HR /\
      state_state t' = SEQUENCE_MODIFIER /\
      exists m, hr_char t = Some m /\ isModifierChar m = true /\
        modifierStack t' =
          (if c =? CHAR.NEWLINE then []
           else modifierStack t ++ [Modifier m (hr_count t) None]))).
Proof.
  intros [Hf Hh] Hab Hm.
  assert (Hsw : exists t1, switch c t = Ok t1 /\ frame pre t1 /\
    locked t1 = false /\ created_count t1 = created_count t /\
    ((state_state t1 = NORMAL /\
      runs (modifierStack t1) = runs (modifierStack t))
     \/
     (state_state t = SEQUENCE_HR /\
      state_state t1 = SEQUENCE_MODIFIER /\
      exists m, hr_char t = Some m /\ isModifierChar m = true /\
        modifierStack t1 =
          modifierStack t ++ [Modifier m (hr_count t) None]))).
  { unfold aborts in Hab.
    unfold switch, case_SEQUENCE_HR, case_SEQUENCE_HEADING,
      case_SEQUENCE_MODIFIER.
    destruct (state_state t) eqn:Hst; try discriminate.
    - (* SEQUENCE_HEADING *)
      destruct (c =? CHAR.HASH); [discriminate |].
      destruct ((c =? CHAR.SPACE) || (c =? CHAR.NEWLINE)); [discriminate |].
      cbn [bind]. eexists. split; [reflexivity |].
      split; [exact Hf |]. split_and; try reflexivity. left. now split.
    - (* SEQUENCE_HR *)
      destruct (strict_eq c (hr_char t) || (c =? CHAR.SPACE));
        [discriminate |].
      assert (Hf' : frame pre (set_locked false (set_state_state NORMAL t)))
        by exact Hf.
      destruct (flush_keeps Hf') as (tf & E & Ff & _ & S & C & _).
      rewrite E.
      change (hr_count (set_locked false (set_state_state NORMAL t)))
        with (hr_count t).
      change (hr_char (set_locked false (set_state_state NORMAL t)))
        with (hr_char t).
      destruct ((2 <? hr_count t) && (c =? CHAR.NEWLINE)); [discriminate |].
      destruct (hr_char t) as [m |] eqn:Hm'.
      + destruct (isModifierChar m) eqn:Him; cbn [bind].
        * eexists. split; [reflexivity |]. split; [exact Ff |].
          unfold locked, state_state, modifierStack, hr_count, hr_char in *.
          simpl. rewrite S. simpl. split_and; auto.
          right. split_and; auto. exists m. split_and; auto.
        * eexists. split; [reflexivity |]. split; [exact Hf |].
          split_and; try reflexivity. left. now split.
      + cbn [bind]. eexists. split; [reflexivity |]. split; [exact Hf |].
        split_and; try reflexivity. left. now split.
    - (* SEQUENCE_MODIFIER *)
      destruct (isModifierChar c); [discriminate |].
      change (modifierStack (set_locked false (set_state_state NORMAL t)))
        with (modifierStack t).
      specialize (Hm eq_refl).
      pose proof (at_index_last (Modifier 0 0 None) Hm) as Hl.
      rewrite Hl. eexists. split; [reflexivity |]. split; [exact Hf |].
      split_and; try reflexivity. left. split; [reflexivity |].
      change (modifierStack (set_modifierStack ?x _)) with x.
      pose proof (@last_entry_split _ (modifierStack t) (Modifier 0 0 None)
                    _ Hl) as Heq.
      transitivity (runs (removelast (modifierStack t)
                          ++ [last (modifierStack t) (Modifier 0 0 None)])).
      + rewrite !runs_app. reflexivity.
      + now rewrite <- Heq. }
  destruct Hsw as (t1 & E1 & F1 & L1 & C1 & H1).
  destruct (after_switch_keeps c F1)
    as (t' & E' & P & S & L & C & _ & _ & M & _).
  destruct (switch_wf _ Hf Hh E1) as (_ & _ & _ & _).
  assert (P1 : position t1 = position t).
  { destruct Hf as (Pa & _), F1 as (Pb & _). congruence. }
  exists t'. unfold write_char. rewrite E1. cbn [bind].
  split; [exact E' |]. rewrite P, S, L, C, M, P1.
  split_and; auto.
  destruct H1 as [(N1 & N2) | (N1 & N2 & m & N3 & N4 & N5)].
  - left. split; [exact N1 |].
    destruct (c =? CHAR.NEWLINE); [reflexivity | exact N2].
  - right. split_and; auto. exists m. split_and; auto.
    destruct (c =? CHAR.NEWLINE); [reflexivity | exact N5].
Qed.

(** C6 (amended): whenever a recognizer aborts, the character that
    triggered the abort is not given to the Normal state: it starts no
    recognizer of its own.  The step throws a TypeError, the character not
    consumed, exactly when the modifier recognizer aborts while the
    Modifier Stack is empty.  In every other case the character is consumed
    by that same step: the position advances by exactly one, the lock is
    cleared, no element is created, and either the parser is in NORMAL
    with the runs of the Modifier Stack as they were, or, after a rule run
    of an emphasis marker, it is in SEQUENCE_MODIFIER with the rule run
    pushed as a modifier run; in both cases a newline empties the Modifier
    Stack. *)
Theorem abort_consumes_char (pre : jsstring) (c : Z) (t : LWMD) :
  wf pre t -> aborts c t = true ->
  (state_state t = SEQUENCE_MODIFIER /\ modifierStack t = [] /\
   write_char c t = TypeError)
  \/
  (~ (state_state t = SEQUENCE_MODIFIER /\ modifierStack t = []) /\
   exists t', write_char c t = Ok t' /\
     position t' = position t + 1 /\ locked t' = false /\
     created_count t' = created_count t /\
     ((state_state t' = NORMAL /\
       runs (modifierStack t') =
         (if c =? CHAR.NEWLINE then [] else runs (modifierStack t)))
      \/
      (state_state t = SEQUENCE_HR /\
       state_state t' = SEQUENCE_MODIFIER /\
       exists m, hr_char t = Some m /\ isModifierChar m = true /\
         modifierStack t' =
           (if c =? CHAR.NEWLINE then []
            else modifierStack t ++ [Modifier m (hr_count t) None])))).
Proof.
  intros W Hab.
  assert (D : (state_state t = SEQUENCE_MODIFIER /\ modifierStack t = []) \/
              (state_state t = SEQUENCE_MODIFIER -> modifierStack t <> [])).
  { destruct (modifierStack t) eqn:Hm.
    - destruct (state_state t) eqn:Hst; try (right; discriminate).
      left. now split.
    - right. discriminate. }
  destruct D as [[Hst Hm] | Hm].
  - left. split_and; auto. now apply empty_modifier_stack_throws.
  - right. split.
    + intros [Hst Hn]. now apply Hm.
    + apply (@abort_step pre c t W Hab Hm).
Qed.

(** C6 (amended) at the asterisk of "#*". *)
Lemma abort_consumes_char_witness :
  wf (js "#") state_after_hash /\
  aborts CHAR.ASTERISK state_after_hash = true /\
  ((state_state state_after_hash = SEQUENCE_MODIFIER /\
    modifierStack state_after_hash = [] /\
    write_char CHAR.ASTERISK state_after_hash = TypeError)
   \/
   (~ (state_state state_after_hash = SEQUENCE_MODIFIER /\
       modifierStack state_after_hash = []) /\
    exists t', write_char CHAR.ASTERISK state_after_hash = Ok t' /\
      position t' = position state_after_hash + 1 /\ locked t' = false /\
      created_count t' = created_count state_after_hash /\
      ((state_state t' = NORMAL /\
        runs (modifierStack t') =
          (if CHAR.ASTERISK =? CHAR.NEWLINE then []
           else runs (modifierStack state_after_hash)))
       \/
       (state_state state_after_hash = SEQUENCE_HR /\
        state_state t' = SEQUENCE_MODIFIER /\
        exists m, hr_char state_after_hash = Some m /\
          isModifierChar m = true /\
          modifierStack t' =
            (if CHAR.ASTERISK =? CHAR.NEWLINE then []
             else modifierStack state_after_hash
                  ++ [Modifier m (hr_count state_after_hash) None]))))).
Proof.
  assert (W : wf (js "#") state_after_hash).
  { unfold wf, frame, head_ok, stack_ok. simpl. repeat split; try lia.
    - now exists (js "*").
    - now exists []. }
  split; [exact W |]. split; [reflexivity |].
  apply (@abort_consumes_char (js "#") CHAR.ASTERISK state_after_hash W
           eq_refl).
Defined.

(** ** C3: the rule recognizer *)

Lemma rule_entry (pre : jsstring) (m : Z) (t : LWMD) (e : element) :
  frame pre t -> state_state t = NORMAL -> line_start t = true ->
  top t = Some e -> rule_marker m ->
  exists t1, write_char m t = Ok t1 /\
    in_rule_run m 1 e (created_count t) (elements (dom t))
      (modifierStack t) t1.
Proof.
  intros Hf Hst Hls Htop Hm.
  destruct (flush_keeps Hf) as (tf & E & _ & El & S & C & P & K & T & _).
  unfold write_char, switch, case_NORMAL. rewrite Hst, Hls, E.
  assert (Hne : (m =? CHAR.NEWLINE) = false)
    by (destruct Hm as [-> | [-> | ->]]; reflexivity).
  assert (Hnh : (m =? CHAR.HASH) = false)
    by (destruct Hm as [-> | [-> | ->]]; reflexivity).
  assert (Hmk : (m =? CHAR.UNDERSCORE) || (m =? CHAR.ASTERISK)
                || (m =? CHAR.DASH) = true)
    by (destruct Hm as [-> | [-> | ->]]; reflexivity).
  rewrite Hnh, Hmk. cbn [bind].
  rewrite (@after_switch_plain m) by (now apply Z.eqb_neq).
  eexists. split; [reflexivity |].
  unfold in_rule_run, state_state, hr_char, hr_count, locked, modifierStack.
  break_match; simpl; rewrite ?S; split_and; auto; congruence.
Qed.

Lemma rule_continue (m x k : Z) (e : element) (n : nat)
    (els : list (element * element)) (stk : list modifier) (t : LWMD) :
  in_rule_run m k e n els stk t -> rule_marker m ->
  x = m \/ x = CHAR.SPACE ->
  exists t1, write_char x t = Ok t1 /\
    in_rule_run m (k + 1) e n els stk t1.
Proof.
  intros (Hst & Hc & Hk & Hl & Ht & Hn & He & Hs) Hm Hx.
  unfold write_char, switch, case_SEQUENCE_HR. rewrite Hst, Hc.
  cbn [strict_eq].
  assert (Hgo : (x =? m) || (x =? CHAR.SPACE) = true).
  { destruct Hx as [-> | ->]; [now rewrite Z.eqb_refl |].
    apply orb_true_r. }
  rewrite Hgo. cbn [bind].
  assert (Hne : x <> CHAR.NEWLINE).
  { destruct Hx as [-> | ->]; [| discriminate].
    destruct Hm as [-> | [-> | ->]]; discriminate. }
  rewrite (@after_switch_plain x) by assumption.
  eexists. split; [reflexivity |].
  unfold in_rule_run, state_state, hr_char, hr_count, locked, modifierStack
    in *.
  break_match; simpl; split_and; auto; congruence.
Qed.

(** The rest of the run: further markers and spaces. *)
Lemma rule_run (m : Z) (e : element) (n : nat)
    (els : list (element * element)) (stk : list modifier)
    (more : jsstring) :
  rule_marker m ->
  Forall (fun x => x = m \/ x = CHAR.SPACE) more ->
  forall (k : Z) (t : LWMD),
    in_rule_run m k e n els stk t ->
    exists t1, write_loop more t = Ok t1 /\
      in_rule_run m (k + len more) e n els stk t1.
Proof.
  intros Hm. induction more as [| x more IH]; intros Hall k t H.
  - exists t. split; [reflexivity |]. unfold len. simpl.
    now rewrite Z.add_0_r.
  - inversion Hall as [| ? ? Hx Hall']; subst.
    cbn [write_loop].
    destruct (rule_continue H Hm Hx) as (t1 & E1 & H1).
    rewrite E1. cbn [bind].
    destruct (IH Hall' (k + 1) t1 H1) as (t2 & E2 & H2).
    exists t2. split; [exact E2 |].
    replace (k + len (x :: more)) with (k + 1 + len more)
      by (unfold len; cbn [List.length]; lia).
    exact H2.
Qed.

(** The character after the run: the rule is confirmed, or the run is
    handed to the modifier recognizer, or it stays text. *)
Lemma rule_terminate (pre : jsstring) (m k c : Z) (e : element) (n : nat)
    (els : list (element * element)) (stk : list modifier) (t : LWMD) :
  frame pre t -> in_rule_run m k e n els stk t ->
  c <> m -> c <> CHAR.SPACE ->
  exists t', write_char c t = Ok t' /\ locked t' = false /\
    if (2 <? k) && (c =? CHAR.NEWLINE)
    then elements (dom t') = els ++ [(e, created n hr)] /\
         created_count t' = S n /\ state_state t' = NORMAL
    else elements (dom t') = els /\ created_count t' = n /\
         if isModifierChar m
         then state_state t' = SEQUENCE_MODIFIER /\
              modifierStack t' =
                (if c =? CHAR.NEWLINE then []
                 else stk ++ [Modifier m k None])
         else state_state t' = NORMAL /\
              modifierStack t' =
                (if c =? CHAR.NEWLINE then [] else stk).
Proof.
  intros Hf (Hst & Hc & Hk & Hl & Ht & Hn & He & Hs) Hcm Hcs.
  assert (Hf' : frame pre (set_locked false (set_state_state NORMAL t)))
    by exact Hf.
  destruct (flush_keeps Hf') as (tf & E & Ff & El & Sx & C & P & K & T & _).
  assert (Hsw : exists t1, switch c t = Ok t1 /\ frame pre t1 /\
    locked t1 = false /\
    if (2 <? k) && (c =? CHAR.NEWLINE)
    then elements (dom t1) = els ++ [(e, created n hr)] /\
         created_count t1 = S n /\ state_state t1 = NORMAL
    else elements (dom t1) = els /\ created_count t1 = n /\
         if isModifierChar m
         then state_state t1 = SEQUENCE_MODIFIER /\
              modifierStack t1 = stk ++ [Modifier m k None]
         else state_state t1 = NORMAL /\ modifierStack t1 = stk).
  { unfold switch, case_SEQUENCE_HR. rewrite Hst, Hc. cbn [strict_eq].
    assert (E1 : (c =? m) = false) by now apply Z.eqb_neq.
    assert (E2 : (c =? CHAR.SPACE) = false) by now apply Z.eqb_neq.
    rewrite E1, E2. cbn [orb].
    change (hr_count (set_locked false (set_state_state NORMAL t)))
      with (hr_count t).
    change (hr_char (set_locked false (set_state_state NORMAL t)))
      with (hr_char t).
    rewrite Hk, Hc, E. unfold top_append.
    change (top (set_created_count ?x (set_locked false
                   (set_state_state NORMAL t)))) with (top t).
    rewrite Ht.
    destruct ((2 <? k) && (c =? CHAR.NEWLINE)).
    - cbn [bind]. eexists. split; [reflexivity |].
      split; [pose proof (len_nonneg pre); clear E; inv_solve |].
      split; [reflexivity |]. simpl.
      rewrite elements_app, He. simpl.
      split_and; try reflexivity; congruence.
    - destruct (isModifierChar m); cbn [bind].
      + eexists. split; [reflexivity |].
        split; [exact Ff |].
        unfold state_state, modifierStack, hr_count, locked in *. simpl.
        rewrite Sx. simpl in *. split_and; try reflexivity; congruence.
      + eexists. split; [reflexivity |].
        split; [exact Hf |]. split; [reflexivity |]. simpl.
        unfold state_state, modifierStack in *. simpl.
        split_and; try reflexivity; congruence. }
  destruct Hsw as (t1 & E1 & F1 & L1 & H1).
  destruct (after_switch_keeps c F1)
    as (t' & E' & _ & S' & L' & C' & _ & _ & M' & _).
  pose proof (after_switch_elements c F1 E') as El'.
  exists t'. unfold write_char. rewrite E1. cbn [bind].
  split; [exact E' |]. split; [congruence |].
  rewrite El', C', S', M'.
  destruct ((2 <? k) && (c =? CHAR.NEWLINE)); [exact H1 |].
  destruct H1 as (? & ? & H1). split_and; auto.
  destruct (isModifierChar m); destruct H1 as (-> & ->); split;
    reflexivity.
Qed.


(** ** C2: the heading recognizer *)

Lemma heading_entry (pre : jsstring) (t : LWMD) :
  wf pre t -> state_state t = NORMAL -> line_start t = true ->
  locked t = false ->
  exists t1 d, write_char CHAR.HASH t = Ok t1 /\
    rendered d = view pre t /\
    in_heading_run 1 (last (stack t) target) (stack t) (created_count t)
      d (position t) t1.
Proof.
  intros [Hf Hh] Hst Hls Hl.
  destruct (flush_keeps Hf) as (tf & E & _ & El & S & C & P & K & T & Hv).
  destruct (Hv Hl (proj1 Hh)) as (Hs & Hr).
  unfold write_char, switch, case_NORMAL. rewrite Hst, Hls, E.
  cbn [bind Z.eqb CHAR.HASH Pos.eqb].
  rewrite (@after_switch_plain CHAR.HASH) by discriminate.
  eexists. exists (dom tf). split; [reflexivity |]. split; [exact Hr |].
  unfold in_heading_run, state_state, heading_count, locked.
  break_match; simpl; rewrite ?(frame_top Hf) in T; split_and; auto.
Qed.

Lemma heading_continue (k : Z) (e : element) (stk : list element)
    (n : nat) (d : list append_call) (s : Z) (t : LWMD) :
  in_heading_run k e stk n d s t ->
  exists t1, write_char CHAR.HASH t = Ok t1 /\
    in_heading_run (k + 1) e stk n d s t1.
Proof.
  intros (Hst & Hk & Hl & Ht & Hs & Hn & Hd & Hc).
  unfold write_char, switch, case_SEQUENCE_HEADING. rewrite Hst.
  cbn [bind Z.eqb CHAR.HASH Pos.eqb].
  rewrite (@after_switch_plain CHAR.HASH) by discriminate.
  eexists. split; [reflexivity |].
  unfold in_heading_run, state_state, heading_count, locked in *.
  break_match; simpl; split_and; auto; congruence.
Qed.

Lemma heading_run (e : element) (stk : list element) (n : nat)
    (d : list append_call) (s : Z) (j : nat) :
  forall (k : Z) (t : LWMD),
    in_heading_run k e stk n d s t ->
    exists t1, write_loop (repeat CHAR.HASH j) t = Ok t1 /\
      in_heading_run (k + Z.of_nat j) e stk n d s t1.
Proof.
  induction j as [| j IH]; intros k t H.
  - exists t. split; [reflexivity |]. now rewrite Z.add_0_r.
  - cbn [repeat write_loop].
    destruct (heading_continue H) as (t1 & E1 & H1). rewrite E1. cbn [bind].
    destruct (IH (k + 1) t1 H1) as (t2 & E2 & H2).
    exists t2. split; [exact E2 |].
    replace (k + Z.of_nat (S j)) with (k + 1 + Z.of_nat j) by lia.
    exact H2.
Qed.

(** A newline right after the heading was opened: nothing is pending,
    the heading is closed again. *)
Lemma close_heading (pre : jsstring) (t : LWMD) (stk : list element)
    (w : element) :
  frame pre t -> 0 < heading_count t -> position t <= start t ->
  stack t = stk ++ [w] -> stk <> [] ->
  exists t', after_switch CHAR.NEWLINE t = Ok t' /\
    dom t' = dom t /\ stack t' = stk /\
    top t' = Some (last stk target) /\ heading_count t' = 0 /\
    start t' = start t /\ position t' = position t + 1 /\
    locked t' = locked t /\ state_state t' = state_state t /\
    created_count t' = created_count t /\ line_start t' = true.
Proof.
  intros Hf Hh Hp Hs Hne. unfold after_switch.
  cbn [Z.eqb CHAR.NEWLINE Pos.eqb].
  change (heading_count (set_modifierStack [] (set_line_start true t)))
    with (heading_count t).
  destruct (0 <? heading_count t) eqn:E0; bool_hyps; [| lia].
  assert (Hf' : frame pre (set_modifierStack [] (set_line_start true t)))
    by exact Hf.
  rewrite (flush_eq Hf').
  change (position (set_modifierStack [] (set_line_start true t)))
    with (position t).
  change (start (set_modifierStack [] (set_line_start true t)))
    with (start t).
  destruct (position t <=? start t) eqn:E1; bool_hyps; [| lia].
  rewrite orb_true_r. cbn [bind]. eexists. split; [reflexivity |].
  unfold down.
  change (stack (set_modifierStack [] (set_line_start true t)))
    with (stack t).
  rewrite Hs.
  destruct stk as [| x stk]; [congruence |].
  assert (Hlen : (1 <? length_of ((x :: stk) ++ [w])) = true).
  { apply Z.ltb_lt. unfold length_of. rewrite length_app. simpl. lia. }
  rewrite Hlen, removelast_last.
  unfold heading_count, locked, state_state, line_start.
  cbn [set_top set_stack set_heading_count set_position set_state
       set_modifierStack set_line_start
       dom stack top state start position created_count
       State.heading_count State.locked State.state State.line_start].
  split_and; try reflexivity.
  apply (at_index_last (l := x :: stk) target). discriminate.
Qed.

(** The character after the run. *)
Lemma heading_terminate (pre : jsstring) (k c : Z) (e : element)
    (stk : list element) (n : nat) (d : list append_call) (s : Z)
    (t : LWMD) :
  wf pre t -> in_heading_run k e stk n d s t -> 0 < k ->
  c <> CHAR.HASH ->
  exists t', write_char c t = Ok t' /\
    locked t' = false /\ state_state t' = NORMAL /\
    line_start t' = (c =? CHAR.NEWLINE) /\
    if (c =? CHAR.SPACE) || (c =? CHAR.NEWLINE)
    then dom t' = d ++ [(e, elem (created n (h (Z.min 6 k))))] /\
         created_count t' = S n /\ start t' = position t' /\
         if c =? CHAR.SPACE
         then stack t' = stk ++ [created n (h (Z.min 6 k))] /\
              top t' = Some (created n (h (Z.min 6 k))) /\
              heading_count t' = k
         else stack t' = stk /\ top t' = Some e /\ heading_count t' = 0
    else dom t' = d /\ created_count t' = n /\ start t' = s /\
         stack t' = stk /\ top t' = Some e /\ heading_count t' = 0.
Proof.
  intros [Hf Hh] (Hst & Hk & Hl & Ht & Hs & Hn & Hd & Hc) Hpos Hch.
  destruct Hh as (_ & _ & Hus & _). specialize (Hus Hst).
  unfold write_char, switch, case_SEQUENCE_HEADING. rewrite Hst.
  assert (E1 : (c =? CHAR.HASH) = false) by now apply Z.eqb_neq.
  rewrite E1.
  rewrite (up_eq _ _ (e := e)) by exact Ht.
  destruct (c =? CHAR.SPACE) eqn:Esp; cbn [orb bind]; bool_hyps.
  - (* a space opens the heading *)
    subst c. rewrite (@after_switch_plain CHAR.SPACE) by discriminate.
    eexists. split; [reflexivity |].
    unfold state_state, heading_count, locked, line_start in *.
    break_match; simpl; rewrite Hus; simpl; split_and; auto;
      try congruence; try lia.
  - destruct (c =? CHAR.NEWLINE) eqn:Enl; cbn [orb bind]; bool_hyps.
    + (* a newline opens the heading and closes it at once *)
      subst c.
      match goal with
      | |- context [after_switch _ ?x] => set (t1 := x)
      end.
      destruct Hf as (P & S0 & Cc & [below Hb] & T0).
      pose proof (len_nonneg pre) as Hpre.
      assert (F1 : frame pre t1).
      { unfold frame, stack_ok, t1. simpl. rewrite Hus. simpl.
        rewrite last_app_one. split_and; auto; try lia.
        exists (below ++ [created (created_count t)
                            (h (Z.min 6 (heading_count t)))]).
        now rewrite Hb. }
      destruct (@close_heading pre t1 stk
                  (created n (h (Z.min 6 k))) F1)
        as (t' & E' & D & K & T & H0 & S1 & P1 & L1 & N1 & C1 & Ls).
      * unfold t1, heading_count in *. simpl. lia.
      * unfold t1. simpl. rewrite Hus. simpl. lia.
      * unfold t1, heading_count in *. simpl. congruence.
      * rewrite <- Hs, Hb. discriminate.
      * exists t'. split; [exact E' |].
        rewrite D, K, T, H0, S1, P1, L1, N1, C1, Ls.
        unfold t1, heading_count, locked, state_state in *. simpl.
        rewrite Hus. simpl.
        split_and; auto; try congruence; try lia.
    + (* any other character aborts *)
      rewrite (@after_switch_plain c) by assumption.
      eexists. split; [reflexivity |].
      unfold state_state, heading_count, locked, line_start in *.
      break_match; simpl; split_and; auto.
Qed.

(** The heading recognizer on a run of [S n] markers '#' at a line start
    in the Normal state, ended by [c]. *)
Lemma heading_recognizer (pre rest : jsstring) (t : LWMD) (c : Z) (n : nat) :
  wf pre t ->
  concat (chunks t) = pre ++ repeat CHAR.HASH (S n) ++ c :: rest ->
  state_state t = NORMAL -> line_start t = true -> locked t = false ->
  c <> CHAR.HASH ->
  let k := Z.of_nat (S n) in
  let e := last (stack t) target in
  let w := created (created_count t) (h (Z.min 6 k)) in
  exists t' d,
    write_loop (repeat CHAR.HASH (S n) ++ [c]) t = Ok t' /\
    rendered d = view pre t /\
    locked t' = false /\ state_state t' = NORMAL /\
    line_start t' = (c =? CHAR.NEWLINE) /\
    if (c =? CHAR.SPACE) || (c =? CHAR.NEWLINE)
    then dom t' = d ++ [(e, elem w)] /\
         created_count t' = S (created_count t) /\
         start t' = position t' /\
         if c =? CHAR.SPACE
         then stack t' = stack t ++ [w] /\ top t' = Some w /\
              heading_count t' = k
         else stack t' = stack t /\ top t' = Some e /\ heading_count t' = 0
    else dom t' = d /\ created_count t' = created_count t /\
         start t' = position t /\
         stack t' = stack t /\ top t' = Some e /\ heading_count t' = 0 /\
         exists t'', flush_ t' = Ok t'' /\
           dom t'' = d ++ [(e, text (repeat CHAR.HASH (S n) ++ [c]))].
Proof.
  intros W Hc Hst Hls Hl Hch k e w.
  rewrite write_loop_app. cbn [repeat write_loop].
  destruct (heading_entry W Hst Hls Hl) as (t1 & d & E1 & Hd & R1).
  rewrite E1. cbn [bind]. cbn [repeat app] in Hc.
  destruct (@write_char_wf pre CHAR.HASH (repeat CHAR.HASH n ++ c :: rest)
              t t1 W Hc E1) as (W1 & C1 & _).
  destruct (heading_run n R1) as (t2 & E2 & R2).
  rewrite E2. cbn [bind].
  assert (C1' : concat (chunks t1)
                = (pre ++ [CHAR.HASH]) ++ repeat CHAR.HASH n ++ c :: rest)
    by (rewrite C1, Hc, <- app_assoc; reflexivity).
  destruct (@write_loop_wf (repeat CHAR.HASH n) (pre ++ [CHAR.HASH])
              (c :: rest) t1 t2 W1 C1' E2) as (W2 & C2 & _).
  assert (Hk : 0 < 1 + Z.of_nat n) by lia.
  destruct (heading_terminate W2 R2 Hk Hch)
    as (t' & E' & L' & S' & Ls' & H').
  exists t', d. rewrite E'. split; [reflexivity |].
  split; [exact Hd |]. split; [exact L' |]. split; [exact S' |].
  split; [exact Ls' |].
  unfold w, k. replace (Z.of_nat (S n)) with (1 + Z.of_nat n) by lia.
  destruct ((c =? CHAR.SPACE) || (c =? CHAR.NEWLINE)); [exact H' |].
  destruct H' as (D' & N' & S1 & K' & T' & H0). split_and; auto.
  (* the run is what a flush now appends *)
  assert (C2' : concat (chunks t2)
                = ((pre ++ [CHAR.HASH]) ++ repeat CHAR.HASH n) ++ c :: rest).
  { rewrite C2, C1'. now rewrite <- !app_assoc. }
  destruct (@write_char_wf _ c rest t2 t' W2 C2' E') as (W' & _).
  rewrite (flush_eq (proj1 W')), L'. cbn [orb].
  destruct W' as ((P' & _) & _).
  destruct W as ((P & _) & _).
  assert (Hlt : (position t' <=? start t') = false).
  { apply Z.leb_gt. rewrite P', S1, P, !len_app. unfold len. simpl. lia. }
  rewrite Hlt. eexists. split; [reflexivity |]. simpl.
  rewrite D', K'. fold e. do 3 f_equal.
  unfold pending. rewrite S1, P. unfold len. rewrite Nat2Z.id.
  rewrite <- !app_assoc.
  rewrite skipn_app, skipn_all, Nat.sub_diag. reflexivity.
Qed.

Lemma text_switch (pre : jsstring) (c : Z) (e : element)
    (stk : list element) (n : nat) (hc : Z) (V : list event) (t : LWMD) :
  line_inv pre e stk n hc V t -> line_start t = false ->
  exists t1, switch c t = Ok t1 /\ line_inv pre e stk n hc V t1 /\
    line_start t1 = false.
Proof.
  intros (Hf & Hs & Hl & Hh & Hk & Ht & Hn & Hst & Hv) Hls.
  unfold switch.
  destruct Hst as [Hst | [[Hst Hm] | Hst]]; rewrite Hst.
  - (* NORMAL *)
    unfold case_NORMAL. rewrite Hls.
    destruct (flush_keeps Hf) as (tf & E & Ff & _ & Sx & C & P & K & T & Hfl).
    destruct (Hfl Hl Hs) as (Hs' & Hr). rewrite E. cbn [bind].
    assert (Hvf : view pre tf = V).
    { rewrite (view_flushed Ff) by congruence. congruence. }
    assert (Hgo : forall t1, frame pre t1 -> start t1 = start tf ->
              position t1 = position tf -> dom t1 = dom tf ->
              top t1 = top tf -> view pre t1 = V).
    { intros t1 _ A1 A2 A3 A4. unfold view, pending in *.
      now rewrite A1, A3, A4. }
    unfold line_inv, heading_count, locked, state_state, modifierStack,
      line_start in *.
    repeat (break_match; cbn [bind]); eexists; (split; [reflexivity |]);
      simpl; rewrite ?Sx; split_and; auto; try congruence; try lia;
      try (left; reflexivity);
      try (right; left; split; [reflexivity | now destruct (State.modifierStack (state t))]);
      try (right; right; reflexivity);
      try (apply Hgo; auto; exact Ff).
  - (* SEQUENCE_MODIFIER *)
    unfold case_SEQUENCE_MODIFIER.
    change (modifierStack (set_locked false (set_state_state NORMAL t)))
      with (modifierStack t).
    change (modifierStack (set_uncorfinmed_start
              (Some (toNumber (uncorfinmed_start t) + 1)) t))
      with (modifierStack t).
    rewrite (at_index_last (Modifier 0 0 None) Hm).
    unfold line_inv, heading_count, locked, state_state, modifierStack,
      line_start in *.
    repeat (break_match; cbn [bind]); eexists; (split; [reflexivity |]);
      simpl; split_and; auto;
      try (left; reflexivity);
      try (right; left; split; [assumption |
             now destruct (removelast (State.modifierStack (state t)))]);
      try (right; left; split; [assumption |
             now destruct (State.modifierStack (state t))]).
  - (* CODE *)
    exists t. split; [reflexivity |]. unfold line_inv. split_and; auto.
Qed.

Lemma view_snoc (pre : jsstring) (c : Z) (e : element) (t t' : LWMD) :
  frame pre t -> start t <= position t -> top t = Some e ->
  dom t' = dom t -> start t' = start t -> top t' = top t ->
  view (pre ++ [c]) t' = view pre t ++ [EChar e c].
Proof.
  intros (Hp & Hs & _) Hle Ht Hd Hs' Ht'. unfold view, pending.
  rewrite Hd, Hs', Ht', Ht.
  rewrite skipn_snoc by (unfold len in *; lia).
  now rewrite map_app, app_assoc.
Qed.

(** A character of the line that is not a newline: it joins the text. *)
Lemma text_char (pre rest : jsstring) (c : Z) (e : element)
    (stk : list element) (n : nat) (hc : Z) (V : list event) (t : LWMD) :
  wf pre t -> line_inv pre e stk n hc V t -> line_start t = false ->
  c <> CHAR.NEWLINE -> concat (chunks t) = pre ++ c :: rest ->
  exists t', write_char c t = Ok t' /\ wf (pre ++ [c]) t' /\
    line_inv (pre ++ [c]) e stk n hc (V ++ [EChar e c]) t' /\
    line_start t' = false /\ chunks t' = chunks t.
Proof.
  intros W Hi Hls Hc Hch.
  destruct (text_switch c Hi Hls) as (t1 & E1 & Hi1 & Hls1).
  unfold write_char. rewrite E1. cbn [bind].
  rewrite (@after_switch_plain c) by assumption. rewrite Hls1.
  eexists. split; [reflexivity |].
  assert (Ew : write_char c t = Ok (set_position (position t1 + 1) t1)).
  { unfold write_char. rewrite E1. cbn [bind].
    rewrite (@after_switch_plain c) by assumption. now rewrite Hls1. }
  destruct (@write_char_wf pre c rest t _ W Hch Ew) as (W' & C' & _).
  split; [exact W' |]. split; [| split; [exact Hls1 | exact C']].
  destruct Hi1 as (Hf & Hs & Hl & Hh & Hk & Ht & Hn & Hst & Hv).
  unfold line_inv. split_and; auto.
  - apply W'.
  - simpl. lia.
  - rewrite <- Hv. now apply view_snoc.
Qed.

Lemma text_loop (text : jsstring) :
  forall (pre rest : jsstring) (e : element) (stk : list element)
         (n : nat) (hc : Z) (V : list event) (t : LWMD),
    wf pre t -> line_inv pre e stk n hc V t -> line_start t = false ->
    Forall (fun c => c <> CHAR.NEWLINE) text ->
    concat (chunks t) = pre ++ text ++ rest ->
    exists t', write_loop text t = Ok t' /\ wf (pre ++ text) t' /\
      line_inv (pre ++ text) e stk n hc (V ++ map (EChar e) text) t' /\
      line_start t' = false /\ chunks t' = chunks t.
Proof.
  induction text as [| c text IH];
    intros pre rest e stk n hc V t W Hi Hls Hall Hch.
  - exists t. simpl. rewrite !app_nil_r. auto.
  - inversion Hall as [| ? ? Hc Hall']; subst.
    destruct (@text_char pre (text ++ rest) c e stk n hc V t W Hi Hls Hc Hch)
      as (t1 & E1 & W1 & Hi1 & Hls1 & C1).
    destruct (IH (pre ++ [c]) rest e stk n hc (V ++ [EChar e c]) t1
                W1 Hi1 Hls1 Hall') as (t' & E' & W' & Hi' & Hls' & C').
    { rewrite C1, Hch, <- app_assoc. reflexivity. }
    exists t'. cbn [write_loop]. rewrite E1. cbn [bind].
    rewrite <- !app_assoc in *. cbn [app map] in *.
    split_and; auto. congruence.
Qed.

(** The newline at the end of a heading line: the pending text goes into
    the heading, which is then closed. *)
Lemma newline_closes (pre : jsstring) (t : LWMD) (stk : list element)
    (w : element) :
  frame pre t -> 0 < heading_count t -> locked t = false ->
  start t <= position t -> stack t = stk ++ [w] -> stk <> [] ->
  exists t', after_switch CHAR.NEWLINE t = Ok t' /\
    rendered (dom t') = view pre t /\ start t' = position t /\
    position t' = position t + 1 /\ stack t' = stk /\
    top t' = Some (last stk target) /\ heading_count t' = 0 /\
    locked t' = false.
Proof.
  intros Hf Hh Hl Hs Hk Hne. unfold after_switch.
  cbn [Z.eqb CHAR.NEWLINE Pos.eqb].
  change (heading_count (set_modifierStack [] (set_line_start true t)))
    with (heading_count t).
  destruct (0 <? heading_count t) eqn:E0; bool_hyps; [| lia].
  assert (Hf' : frame pre (set_modifierStack [] (set_line_start true t)))
    by exact Hf.
  destruct (flush_keeps Hf') as (tf & E & Ff & _ & Sx & C & P & K & T & Hfl).
  destruct (Hfl Hl Hs) as (Hs' & Hr). rewrite E. cbn [bind].
  eexists. split; [reflexivity |].
  destruct (down_fields tf) as (E1 & E2 & E3 & E4 & E5 & E6 & E7 & E8 & E9).
  unfold heading_count, locked.
  cbn [set_heading_count set_position set_state dom start position stack
       top state State.heading_count State.locked].
  rewrite E1, E2, E4, E5, Sx, P, Hs', Hr.
  split_and; try reflexivity.
  - unfold down. rewrite K.
    change (stack (set_modifierStack [] (set_line_start true t)))
      with (stack t).
    rewrite Hk.
    destruct stk as [| x stk]; [congruence |].
    assert (Hlen : (1 <? length_of ((x :: stk) ++ [w])) = true).
    { apply Z.ltb_lt. unfold length_of. rewrite length_app. simpl. lia. }
    rewrite Hlen, removelast_last. reflexivity.
  - unfold down. rewrite K.
    change (stack (set_modifierStack [] (set_line_start true t)))
      with (stack t).
    rewrite Hk.
    destruct stk as [| x stk]; [congruence |].
    assert (Hlen : (1 <? length_of ((x :: stk) ++ [w])) = true).
    { apply Z.ltb_lt. unfold length_of. rewrite length_app. simpl. lia. }
    rewrite Hlen, removelast_last.
    cbn [set_top set_stack top stack].
    apply (at_index_last (l := x :: stk) target). discriminate.
  - exact Hl.
Qed.

(** "# ", a text without a newline, and a newline: one h1 element that
    holds the text, then the newline as text of the target. *)
Lemma heading_line (body : jsstring) :
  Forall (fun c => c <> CHAR.NEWLINE) body ->
  exists t',
    stream [js "# " ++ body ++ NEWLINE] (new_LWMD default_options) = Ok t' /\
    rendered (dom t') =
      EElem target (created 0 (h 1))
      :: map (EChar (created 0 (h 1))) body
         ++ [EChar target CHAR.NEWLINE].
Proof.
  intros Hall.
  set (w := created 0 (h 1)).
  set (S0 := js "# " ++ body ++ NEWLINE).
  unfold stream. cbn [write_all]. unfold write. cbv zeta.
  change (chunks (new_LWMD default_options) ++ [S0]) with [S0].
  set (t0 := set_chunks [S0] (new_LWMD default_options)).
  assert (W0 : wf [] t0).
  { unfold wf, frame, head_ok, stack_ok. simpl. repeat split; try lia.
    - eexists. reflexivity.
    - now exists [].
    - intros [H | H]; discriminate.
    - discriminate. }
  assert (C0 : concat (chunks t0)
               = [] ++ repeat CHAR.HASH 1 ++ CHAR.SPACE :: body ++ NEWLINE).
  { unfold t0, S0. simpl. now rewrite app_nil_r. }
  (* "# " *)
  destruct (@heading_recognizer [] (body ++ NEWLINE) t0 CHAR.SPACE 0 W0 C0)
    as (t1 & d & E1 & Hd & L1 & St1 & Ls1 & H1); try reflexivity;
    try discriminate.
  cbn [Z.eqb CHAR.SPACE CHAR.NEWLINE Pos.eqb orb] in H1, Ls1.
  destruct H1 as (D1 & N1 & S1 & K1 & T1 & Hc1).
  assert (C0' : concat (chunks t0)
                = [] ++ (repeat CHAR.HASH 1 ++ [CHAR.SPACE])
                  ++ body ++ NEWLINE).
  { rewrite C0. now rewrite <- !app_assoc. }
  destruct (@write_loop_wf _ [] (body ++ NEWLINE) t0 t1 W0 C0' E1)
    as (W1 & C1 & O1).
  cbn [app] in W1.
  set (pre1 := repeat CHAR.HASH 1 ++ [CHAR.SPACE]) in *.
  assert (Hi1 : line_inv pre1 w [target; w] 1 1 [EElem target w] t1).
  { unfold line_inv. split_and; auto.
    - apply W1.
    - lia.
    - rewrite (view_flushed (proj1 W1) S1), D1, rendered_app, Hd.
      reflexivity. }
  (* the text *)
  destruct (@text_loop body pre1 NEWLINE w [target; w] 1 1
              [EElem target w] t1 W1 Hi1 Ls1 Hall)
    as (t2 & E2 & W2 & Hi2 & Ls2 & C2).
  { rewrite C1, C0'. reflexivity. }
  (* the newline *)
  destruct (text_switch CHAR.NEWLINE Hi2 Ls2) as (t3 & E3 & Hi3 & Ls3).
  destruct Hi3 as (F3 & S3 & L3 & H3 & K3 & T3 & N3 & St3 & V3).
  destruct (@newline_closes (pre1 ++ body) t3 [target] w F3)
    as (t4 & E4 & R4 & S4 & P4 & K4 & T4 & H4 & L4); auto; try lia;
    try discriminate.
  assert (E34 : write_char CHAR.NEWLINE t2 = Ok t4).
  { unfold write_char. rewrite E3. exact E4. }
  destruct (@write_char_wf (pre1 ++ body) CHAR.NEWLINE [] t2 t4 W2)
    as (W4 & C4 & O4); auto.
  { rewrite C2, C1, C0'. now rewrite app_assoc. }
  (* the whole loop *)
  assert (EL : write_loop S0 t0 = Ok t4).
  { unfold S0. change (js "# ") with pre1.
    rewrite write_loop_app, E1. cbn [bind].
    rewrite write_loop_app, E2. cbn [bind].
    cbn [NEWLINE write_loop]. rewrite E34. reflexivity. }
  rewrite EL. cbn [bind].
  assert (O40 : options t4 = default_options).
  { rewrite O4.
    destruct (@write_loop_wf body pre1 NEWLINE t1 t2 W1) as (_ & _ & O2);
      auto.
    - rewrite C1, C0'. reflexivity.
    - rewrite O2, O1. reflexivity. }
  rewrite O40. cbn [Options.flush_on_write default_options].
  (* flush at the end of write, then end *)
  destruct (flush_keeps (proj1 W4))
    as (tf & Ef & Ff & _ & Sf & _ & _ & _ & _ & Hfl).
  assert (S4' : start t4 <= position t4) by lia.
  destruct (Hfl L4 S4') as (_ & Rf).
  rewrite Ef. cbn [bind]. unfold end_.
  assert (Lf : locked tf = false) by (unfold locked; now rewrite Sf).
  rewrite Lf. cbn [bind]. eexists. split; [reflexivity |].
  cbn [dom clearState]. rewrite Rf. unfold view.
  rewrite R4, V3, T4. unfold pending. rewrite S4.
  destruct F3 as (P3 & _). rewrite P3. unfold len. rewrite Nat2Z.id.
  rewrite skipn_app, skipn_all, Nat.sub_diag. cbn [skipn app map last].
  reflexivity.
Qed.

(** * Beyond the claims

    Properties of the code that the specification does not state: of the
    chunk store, of [flush], [up] and [down] on their own, of the states a
    stream reaches, of the text and the elements in the document, of the
    TypeError, and of the reuse of a parser by [reset] and [parse]. *)

(** ** The chunk store *)

(** An empty range is the empty string on every path of [getSubstring]. *)
Lemma within_chunk_empty_range (cs : list jsstring) :
  forall (idx p : Z) (s : jsstring),
    within_chunk cs idx (Some p) p = Some s -> s = [].
Proof.
  induction cs as [| chunk rest IH]; intros idx p s; simpl.
  - discriminate.
  - destruct ((idx =? p) && (idx + len chunk =? p)) eqn:E1.
    + intros [= <-]. bool_hyps. apply len_zero. lia.
    + destruct ((idx <=? p) && (p <=? idx + len chunk)) eqn:E2.
      * intros [= <-]. unfold slice.
        now rewrite Z.sub_diag.
      * apply IH.
Qed.

Lemma getSubstring_empty_range (cs : list jsstring) (p : Z) :
  getSubstring cs (Some p) p = [].
Proof.
  assert (Hs : forall c : jsstring, slice c p p = []).
  { intros c. unfold slice. now rewrite Z.sub_diag. }
  assert (Hc : forall l : list jsstring, collect l 0 (Some p) p [] = []).
  { intros [| c l]; simpl; [reflexivity |]. now rewrite Z.ltb_irrefl. }
  unfold getSubstring.
  destruct cs as [| c [| c' l]]; [reflexivity | apply Hs |].
  destruct (within_chunk _ _ _ _) eqn:E.
  - apply (within_chunk_empty_range _ _ _ E).
  - apply Hc.
Qed.

(** *** X1 *)

(** X1: for a range with non-negative ends, [getSubstring] returns that
    range of the concatenation of all chunks, on each of its three paths;
    so two chunk lists that hold the same text give the same substring. *)
Theorem getSubstring_chunking (cs cs' : list jsstring) (from : option Z)
    (to : Z) :
  0 <= toNumber from -> 0 <= to -> concat cs = concat cs' ->
  getSubstring cs from to = slice (concat cs) (toNumber from) to /\
  getSubstring cs from to = getSubstring cs' from to.
Proof.
  intros Hf Ht Hc. rewrite !getSubstring_spec by assumption.
  now rewrite Hc.
Qed.

(** X1 on "ab", "cd", "ef" and on "abcdef", for the range from 1 to 5. *)
Lemma getSubstring_chunking_witness :
  getSubstring [js "ab"; js "cd"; js "ef"] (Some 1) 5 =
    slice (concat [js "ab"; js "cd"; js "ef"]) 1 5 /\
  getSubstring [js "ab"; js "cd"; js "ef"] (Some 1) 5 =
    getSubstring [js "abcdef"] (Some 1) 5.
Proof.
  apply (@getSubstring_chunking [js "ab"; js "cd"; js "ef"] [js "abcdef"]
           (Some 1) 5); [simpl; lia | lia | reflexivity].
Defined.

(** *** X2 *)

(** X2: the length of what [getSubstring] returns: the range is cut at the
    end of the text, and a range that ends before it begins, or begins at
    or after the end of the text, is the empty string. *)
Theorem getSubstring_length (cs : list jsstring) (from : option Z) (to : Z) :
  0 <= toNumber from -> 0 <= to ->
  len (getSubstring cs from to) =
    Z.max 0 (Z.min to (len (concat cs)) - toNumber from) /\
  (to <= toNumber from \/ len (concat cs) <= toNumber from ->
   getSubstring cs from to = []).
Proof.
  intros Hf Ht. rewrite getSubstring_spec, slice_nonneg by assumption.
  assert (E : len (skipn (Z.to_nat (toNumber from))
                     (firstn (Z.to_nat to) (concat cs))) =
              Z.max 0 (Z.min to (len (concat cs)) - toNumber from)).
  { unfold len. rewrite length_skipn, length_firstn. lia. }
  split; [exact E |].
  intros H. apply len_zero. rewrite E. lia.
Qed.

(** X2 on "ab", "cd": the range from 3 to 9 is cut to "d". *)
Lemma getSubstring_length_witness :
  len (getSubstring [js "ab"; js "cd"] (Some 3) 9) =
    Z.max 0 (Z.min 9 (len (concat [js "ab"; js "cd"])) - 3) /\
  (9 <= 3 \/ len (concat [js "ab"; js "cd"]) <= 3 ->
   getSubstring [js "ab"; js "cd"] (Some 3) 9 = []).
Proof.
  apply (@getSubstring_length [js "ab"; js "cd"] (Some 3) 9); simpl; lia.
Defined.

(** ** flush, up and down in any state *)

(** [flush()] twice: the second call finds nothing to append. *)
Lemma flush_again (t t1 : LWMD) (b : bool) :
  flush (Some (start t)) (position t) t = Ok (b, t1) ->
  flush (Some (start t1)) (position t1) t1 = Ok (false, t1).
Proof.
  unfold flush, top_append.
  destruct (locked t) eqn:Hl.
  - intros [= <- <-]. now rewrite Hl.
  - destruct (len (getSubstring (chunks t) (Some (start t)) (position t))
              =? 0) eqn:E.
    + intros [= <- <-]. now rewrite Hl, E.
    + destruct (top t); cbn [bind]; [| discriminate].
      intros [= <- <-]. fields. rewrite Hl.
      now rewrite getSubstring_empty_range.
Qed.

(** *** X3 *)

(** X3: [flush()] is idempotent: right after a call of [flush()], whatever
    it did, a second call appends nothing, returns [false] and leaves the
    parser as it is. *)
Theorem flush_idempotent (t t1 : LWMD) :
  flush_ t = Ok t1 ->
  flush (Some (start t1)) (position t1) t1 = Ok (false, t1) /\
  flush_ t1 = Ok t1.
Proof.
  unfold flush_ at 1.
  destruct (flush (Some (start t)) (position t) t) as [[b t2] |] eqn:E;
    cbn [bind]; [| discriminate].
  intros [= <-]. apply flush_again in E.
  split; [exact E |]. unfold flush_. now rewrite E.
Qed.

(** X3 after "hello" was written without a flush. *)
Lemma flush_idempotent_witness :
  let t1 := set_uncorfinmed_start None
              (set_start 5 (set_dom [(target, text (js "hello"))]
                              after_hello)) in
  flush (Some (start t1)) (position t1) t1 = Ok (false, t1) /\
  flush_ t1 = Ok t1.
Proof.
  apply (@flush_idempotent after_hello). reflexivity.
Defined.

(** *** X4 *)

(** X4: [down()] undoes [up(tag)]: on a parser whose top is the last
    element of a non-empty stack, opening an element and closing it again
    restores the stack and the top; what stays is the element, appended to
    the former top. *)
Theorem down_undoes_up (tag : tagName) (t : LWMD) :
  stack_ok t ->
  exists t1, up tag t = Ok t1 /\
    stack (down t1) = stack t /\ top (down t1) = top t /\
    dom (down t1) =
      dom t ++ [(last (stack t) target,
                 elem (created (created_count t) tag))] /\
    created_count (down t1) = S (created_count t).
Proof.
  intros [[below Hb] Ht].
  rewrite (up_eq tag t Ht). eexists. split; [reflexivity |].
  unfold down. cbn [stack set_top set_stack].
  assert (Hl : (1 <? length_of (stack t ++ [created (created_count t) tag]))
               = true).
  { apply Z.ltb_lt. unfold length_of. rewrite length_app, Hb. simpl. lia. }
  rewrite Hl. cbn [stack top dom created_count set_top set_stack set_dom
                   set_created_count].
  rewrite removelast_last.
  split_and; try reflexivity.
  rewrite Ht. apply at_index_last. rewrite Hb. discriminate.
Qed.

(** X4 on a new parser. *)
Lemma down_undoes_up_witness :
  exists t1, up (h 2) (new_LWMD default_options) = Ok t1 /\
    stack (down t1) = stack (new_LWMD default_options) /\
    top (down t1) = top (new_LWMD default_options) /\
    dom (down t1) =
      dom (new_LWMD default_options)
      ++ [(last (stack (new_LWMD default_options)) target,
           elem (created (created_count (new_LWMD default_options)) (h 2)))] /\
    created_count (down t1) = S (created_count (new_LWMD default_options)).
Proof.
  apply (@down_undoes_up (h 2) (new_LWMD default_options)).
  split; [now exists [] | reflexivity].
Defined.

(** ** The parser does not look at the document

    Running the parser in a document where [k] more elements were made
    before, on a target that already holds [content], is running it on an
    empty target and renaming: every operation commutes with [rebase]. *)

Lemma removelast_map (A B : Type) (f : A -> B) (l : list A) :
  removelast (map f l) = map f (removelast l).
Proof.
  induction l as [| x [| y l] IH]; try reflexivity.
  change (f x :: removelast (map f (y :: l)) = f x :: map f (removelast (y :: l))).
  now rewrite IH.
Qed.

Lemma at_index_map (A B : Type) (f : A -> B) (l : list A) (i : Z) :
  at_index (map f l) i = option_map f (at_index l i).
Proof.
  unfold at_index. destruct (i <? 0); [reflexivity |]. apply nth_error_map.
Qed.

Lemma length_of_map (A B : Type) (f : A -> B) (l : list A) :
  length_of (map f l) = length_of l.
Proof. unfold length_of. now rewrite length_map. Qed.

Lemma top_append_rebase (k : nat) (p : list append_call) (n : node)
    (t : LWMD) :
  top_append (shift_node k n) (rebase k p t) =
  map_result (rebase k p) (top_append n t).
Proof.
  unfold top_append. simpl. destruct (top t); [| reflexivity]. simpl.
  unfold rebase, set_dom. simpl. now rewrite map_app, app_assoc.
Qed.

Lemma flush_rebase (k : nat) (p : list append_call) (from : option Z)
    (to : Z) (t : LWMD) :
  flush from to (rebase k p t) =
  map_result (fun r => (fst r, rebase k p (snd r))) (flush from to t).
Proof.
  unfold flush.
  change (locked (rebase k p t)) with (locked t).
  change (chunks (rebase k p t)) with (chunks t).
  destruct (locked t); [reflexivity |].
  destruct (len (getSubstring (chunks t) from to) =? 0); [reflexivity |].
  change (text (getSubstring (chunks t) from to))
    with (shift_node k (text (getSubstring (chunks t) from to))) at 1.
  rewrite top_append_rebase.
  destruct (top_append _ t); reflexivity.
Qed.

Lemma flush__rebase (k : nat) (p : list append_call) (t : LWMD) :
  flush_ (rebase k p t) = map_result (rebase k p) (flush_ t).
Proof.
  unfold flush_.
  change (start (rebase k p t)) with (start t).
  change (position (rebase k p t)) with (position t).
  rewrite flush_rebase. destruct (flush _ _ t); reflexivity.
Qed.

Lemma up_rebase (k : nat) (p : list append_call) (tag : tagName)
    (t : LWMD) :
  up tag (rebase k p t) = map_result (rebase k p) (up tag t).
Proof.
  unfold up, createElement.
  change (set_created_count (S (created_count (rebase k p t)))
            (rebase k p t))
    with (rebase k p (set_created_count (S (created_count t)) t)).
  change (elem (created (created_count (rebase k p t)) tag))
    with (shift_node k (elem (created (created_count t) tag))).
  rewrite top_append_rebase.
  destruct (top_append _ _); [| reflexivity]. simpl.
  unfold rebase, set_top, set_stack. simpl. now rewrite map_app.
Qed.

Lemma down_rebase (k : nat) (p : list append_call) (t : LWMD) :
  down (rebase k p t) = rebase k p (down t).
Proof.
  unfold down.
  change (stack (rebase k p t)) with (map (shift_element k) (stack t)).
  rewrite length_of_map. destruct (1 <? length_of (stack t)); [| reflexivity].
  unfold rebase, set_top, set_stack. simpl.
  now rewrite removelast_map, at_index_map, length_of_map.
Qed.

Lemma switch_rebase (k : nat) (p : list append_call) (c : Z) (t : LWMD) :
  switch c (rebase k p t) = map_result (rebase k p) (switch c t).
Proof.
  unfold switch.
  change (state_state (rebase k p t)) with (state_state t).
  destruct (state_state t); try reflexivity.
  - unfold case_NORMAL.
    change (line_start (rebase k p t)) with (line_start t).
    rewrite !flush__rebase.
    repeat break_if; try reflexivity;
      destruct (flush_ t); reflexivity.
  - unfold case_SEQUENCE_HEADING.
    destruct (c =? CHAR.HASH); [reflexivity |].
    destruct ((c =? CHAR.SPACE) || (c =? CHAR.NEWLINE)); [| reflexivity].
    match goal with
    | |- context [up ?tag (set_uncorfinmed_start ?u
                    (set_locked false (set_state_state NORMAL
                       (rebase k p t))))] =>
        change (up tag (set_uncorfinmed_start u
                  (set_locked false (set_state_state NORMAL (rebase k p t)))))
          with (up (h (Z.min 6 (heading_count t)))
                  (rebase k p
                     (set_uncorfinmed_start
                        (Some (toNumber (uncorfinmed_start t) + 2))
                        (set_locked false (set_state_state NORMAL t)))))
    end.
    rewrite up_rebase. destruct (up _ _); reflexivity.
  - unfold case_SEQUENCE_HR.
    change (hr_char (rebase k p t)) with (hr_char t).
    destruct (strict_eq c (hr_char t) || (c =? CHAR.SPACE)); [reflexivity |].
    change (hr_count (set_locked false (set_state_state NORMAL
                                          (rebase k p t))))
      with (hr_count t).
    change (hr_count (set_locked false (set_state_state NORMAL t)))
      with (hr_count t).
    destruct ((2 <? hr_count t) && (c =? CHAR.NEWLINE)).
    + match goal with
      | |- context [top_append ?n (set_created_count ?m
                      (set_locked false (set_state_state NORMAL
                         (rebase k p t))))] =>
          change (top_append n (set_created_count m
                    (set_locked false (set_state_state NORMAL
                       (rebase k p t)))))
            with (top_append
                    (shift_node k (elem (created (created_count t) hr)))
                    (rebase k p
                       (set_created_count (S (created_count t))
                          (set_locked false (set_state_state NORMAL t)))))
      end.
      rewrite top_append_rebase. destruct (top_append _ _); reflexivity.
    + change (hr_char (set_locked false (set_state_state NORMAL
                                           (rebase k p t))))
        with (hr_char t).
      change (hr_char (set_locked false (set_state_state NORMAL t)))
        with (hr_char t).
      destruct (hr_char t) as [m |]; [| reflexivity].
      destruct (isModifierChar m); [| reflexivity].
      change (flush_ (set_locked false (set_state_state NORMAL
                                          (rebase k p t))))
        with (flush_ (rebase k p
                        (set_locked false (set_state_state NORMAL t)))).
      rewrite flush__rebase. destruct (flush_ _); reflexivity.
  - unfold case_SEQUENCE_MODIFIER.
    change (modifierStack (rebase k p t)) with (modifierStack t).
    change (modifierStack (set_locked false (set_state_state NORMAL
                                               (rebase k p t))))
      with (modifierStack t).
    change (modifierStack (set_locked false (set_state_state NORMAL t)))
      with (modifierStack t).
    destruct (isModifierChar c);
      destruct (at_index (modifierStack t) (length_of (modifierStack t) - 1));
      try reflexivity.
    repeat break_if; reflexivity.
Qed.

Lemma after_switch_rebase (k : nat) (p : list append_call) (c : Z)
    (t : LWMD) :
  after_switch c (rebase k p t) = map_result (rebase k p) (after_switch c t).
Proof.
  unfold after_switch.
  destruct (c =? CHAR.NEWLINE).
  - change (heading_count (set_modifierStack [] (set_line_start true
                                                    (rebase k p t))))
      with (heading_count t).
    change (heading_count (set_modifierStack [] (set_line_start true t)))
      with (heading_count t).
    destruct (0 <? heading_count t); [| reflexivity].
    change (flush_ (set_modifierStack [] (set_line_start true
                                            (rebase k p t))))
      with (flush_ (rebase k p
                      (set_modifierStack [] (set_line_start true t)))).
    rewrite flush__rebase. destruct (flush_ _) as [t1 |]; [| reflexivity].
    cbn [map_result bind]. rewrite down_rebase. reflexivity.
  - change (line_start (rebase k p t)) with (line_start t).
    destruct (line_start t); reflexivity.
Qed.

Lemma write_char_rebase (k : nat) (p : list append_call) (c : Z)
    (t : LWMD) :
  write_char c (rebase k p t) = map_result (rebase k p) (write_char c t).
Proof.
  unfold write_char. rewrite switch_rebase.
  destruct (switch c t); [| reflexivity]. cbn [map_result bind].
  apply after_switch_rebase.
Qed.

Lemma write_loop_rebase (k : nat) (p : list append_call) (chunk : jsstring) :
  forall t : LWMD,
    write_loop chunk (rebase k p t) =
    map_result (rebase k p) (write_loop chunk t).
Proof.
  induction chunk as [| c rest IH]; intros t; [reflexivity |].
  cbn [write_loop]. rewrite write_char_rebase.
  destruct (write_char c t); [| reflexivity]. cbn [map_result bind].
  apply IH.
Qed.

Lemma write_rebase (k : nat) (p : list append_call) (chunk : jsstring)
    (t : LWMD) :
  write chunk (rebase k p t) = map_result (rebase k p) (write chunk t).
Proof.
  unfold write.
  change (set_chunks (chunks (rebase k p t) ++ [chunk]) (rebase k p t))
    with (rebase k p (set_chunks (chunks t ++ [chunk]) t)).
  rewrite write_loop_rebase.
  destruct (write_loop chunk _) as [t1 |]; [| reflexivity].
  cbn [map_result bind].
  change (options (rebase k p t1)) with (options t1).
  destruct (Options.flush_on_write (options t1)); [| reflexivity].
  apply flush__rebase.
Qed.

Lemma write_all_rebase (k : nat) (p : list append_call)
    (fragments : list jsstring) :
  forall t : LWMD,
    write_all fragments (rebase k p t) =
    map_result (rebase k p) (write_all fragments t).
Proof.
  induction fragments as [| f rest IH]; intros t; [reflexivity |].
  cbn [write_all]. rewrite write_rebase.
  destruct (write f t); [| reflexivity]. cbn [map_result bind].
  apply IH.
Qed.

Lemma end_rebase (k : nat) (p : list append_call) (t : LWMD) :
  end_ (rebase k p t) = map_result (rebase k p) (end_ t).
Proof.
  unfold end_.
  change (locked (rebase k p t)) with (locked t).
  destruct (locked t); [| reflexivity].
  change (flush (uncorfinmed_start (set_locked false (rebase k p t)))
            (position (set_locked false (rebase k p t)))
            (set_locked false (rebase k p t)))
    with (flush (uncorfinmed_start (set_locked false t))
            (position (set_locked false t))
            (rebase k p (set_locked false t))).
  rewrite flush_rebase. destruct (flush _ _ _); reflexivity.
Qed.

Lemma stream_rebase (k : nat) (p : list append_call)
    (fragments : list jsstring) (t : LWMD) :
  stream fragments (rebase k p t) =
  map_result (rebase k p) (stream fragments t).
Proof.
  unfold stream. rewrite write_all_rebase.
  destruct (write_all fragments t); [| reflexivity]. cbn [map_result bind].
  apply end_rebase.
Qed.

(** ** What holds in every state the parser reaches

    The lemmas of this part make no assumption on the state in which a
    call begins. *)

Lemma flush_any (t t' : LWMD) :
  flush_ t = Ok t' ->
  t' = t \/
  exists e s, top t = Some e /\ locked t = false /\ s <> [] /\
    t' = set_uncorfinmed_start None
           (set_start (position t) (set_dom (dom t ++ [(e, text s)]) t)).
Proof.
  unfold flush_, flush, top_append.
  destruct (locked t) eqn:Hl; [intros [= <-]; now left |].
  destruct (len (getSubstring _ _ _) =? 0) eqn:E;
    [intros [= <-]; now left |].
  destruct (top t) as [e |]; cbn [bind]; [| discriminate].
  intros [= <-]. right. exists e, (getSubstring (chunks t) (Some (start t)) (position t)).
  split_and; try reflexivity.
  intros H. rewrite H in E. discriminate.
Qed.

Lemma top_append_any (n : node) (t t' : LWMD) :
  top_append n t = Ok t' ->
  exists e, top t = Some e /\ t' = set_dom (dom t ++ [(e, n)]) t.
Proof.
  unfold top_append. destruct (top t) as [e |]; [| discriminate].
  intros [= <-]. now exists e.
Qed.

Lemma up_any (tag : tagName) (t t' : LWMD) :
  up tag t = Ok t' ->
  exists e, top t = Some e /\
    t' = set_top (Some (created (created_count t) tag))
           (set_stack (stack t ++ [created (created_count t) tag])
              (set_dom (dom t ++ [(e, elem (created (created_count t) tag))])
                 (set_created_count (S (created_count t)) t))).
Proof.
  destruct (top t) as [e |] eqn:Ht.
  - rewrite (up_eq tag t Ht). intros [= <-]. now exists e.
  - unfold up, createElement, top_append. simpl. rewrite Ht. discriminate.
Qed.

(** Inversion of a run that returned. *)
Ltac run_inv :=
  repeat match goal with
  | H : bind ?c _ = Ok _ |- _ =>
      let E := fresh "E" in
      destruct c eqn:E; cbn [bind] in H; [| discriminate H]
  | H : TypeError = Ok _ |- _ => discriminate H
  | H : Ok _ = Ok _ |- _ => injection H as H
  | H : (if ?b then _ else _) = Ok _ |- _ => destruct b eqn:?
  | H : match ?x with _ => _ end = Ok _ |- _ => destruct x eqn:?
  | H : flush_ _ = Ok _ |- _ =>
      apply flush_any in H; destruct H as [H | (? & ? & ? & ? & ? & H)]
  | H : up _ _ = Ok _ |- _ =>
      apply up_any in H; destruct H as (? & ? & H)
  | H : top_append _ _ = Ok _ |- _ =>
      apply top_append_any in H; destruct H as (? & ? & H)
  end.

Ltac unfold_step H :=
  unfold write_char, switch, after_switch, case_NORMAL, case_SEQUENCE_HR,
    case_SEQUENCE_HEADING, case_SEQUENCE_MODIFIER in H.

(** *** The lock *)

Lemma lock_ok_flush (t t' : LWMD) : flush_ t = Ok t' -> lock_ok t -> lock_ok t'.
Proof.
  intros E. apply flush_state in E. unfold lock_ok, locked, state_state.
  now rewrite E.
Qed.

Lemma lock_ok_write_char (c : Z) (t t' : LWMD) :
  write_char c t = Ok t' -> lock_ok t -> lock_ok t'.
Proof.
  intros H L. unfold_step H. unfold lock_ok in *.
  destruct (state_state t) eqn:Hst; run_inv; subst;
    repeat match goal with
    | |- context [down ?x] =>
        let D := fresh "D" in
        destruct (down_fields x) as (_ & _ & _ & D & _); revert D;
        generalize (down x); intros ? D
    end;
    fields; try rewrite D; simpl;
    intuition (try congruence; try discriminate).
Qed.

(** A property kept by every character and by [flush()] is kept by a
    stream of writes. *)
Lemma write_loop_invariant (I : LWMD -> Prop) :
  (forall c t t', write_char c t = Ok t' -> I t -> I t') ->
  forall chunk t t', write_loop chunk t = Ok t' -> I t -> I t'.
Proof.
  intros Hc. induction chunk as [| c rest IH]; intros t t'; cbn [write_loop].
  - now intros [= <-].
  - destruct (write_char c t) as [t1 |] eqn:E; cbn [bind]; [| discriminate].
    intros H Ht. apply (IH _ _ H). apply (Hc _ _ _ E Ht).
Qed.

Lemma write_invariant (I : LWMD -> Prop) :
  (forall c t t', write_char c t = Ok t' -> I t -> I t') ->
  (forall t t', flush_ t = Ok t' -> I t -> I t') ->
  (forall v t, I t -> I (set_chunks v t)) ->
  forall chunk t t', write chunk t = Ok t' -> I t -> I t'.
Proof.
  intros Hc Hf Hs chunk t t'. unfold write.
  destruct (write_loop chunk _) as [t1 |] eqn:E; cbn [bind]; [| discriminate].
  intros H Ht.
  assert (I1 : I t1).
  { apply (write_loop_invariant I Hc _ _ E). apply Hs, Ht. }
  destruct (Options.flush_on_write (options t1)).
  - apply (Hf _ _ H I1).
  - now injection H as <-.
Qed.

Lemma write_all_invariant (I : LWMD -> Prop) :
  (forall c t t', write_char c t = Ok t' -> I t -> I t') ->
  (forall t t', flush_ t = Ok t' -> I t -> I t') ->
  (forall v t, I t -> I (set_chunks v t)) ->
  forall fragments t t', write_all fragments t = Ok t' -> I t -> I t'.
Proof.
  intros Hc Hf Hs.
  induction fragments as [| f rest IH]; intros t t'; cbn [write_all].
  - now intros [= <-].
  - destruct (write f t) as [t1 |] eqn:E; cbn [bind]; [| discriminate].
    intros H Ht. apply (IH _ _ H).
    apply (write_invariant I Hc Hf Hs _ _ E Ht).
Qed.

(** *** X5 *)

(** X5: in every state that a stream of writes reaches, the lock is held
    exactly while the parser is inside a heading marker run or a rule
    marker run. *)
Theorem locked_iff_in_marker_run (t : LWMD) (fragments : list jsstring)
    (t' : LWMD) :
  write_all fragments (clearState t) = Ok t' ->
  (locked t' = true <->
   state_state t' = SEQUENCE_HEADING \/ state_state t' = SEQUENCE_HR).
Proof.
  intros H.
  apply (write_all_invariant lock_ok lock_ok_write_char lock_ok_flush)
    with (fragments := fragments) (t := clearState t).
  - intros v t0 L. exact L.
  - exact H.
  - unfold lock_ok. simpl. intuition discriminate.
Qed.

(** X5 after "intro", newline, "##": the lock is held in a heading run. *)
Lemma locked_iff_in_marker_run_witness :
  locked after_intro_hashes = true <->
  state_state after_intro_hashes = SEQUENCE_HEADING \/
  state_state after_intro_hashes = SEQUENCE_HR.
Proof.
  apply (@locked_iff_in_marker_run (new_LWMD default_options)
           [js "intro"; NEWLINE; js "##"] after_intro_hashes).
  vm_compute. reflexivity.
Defined.

(** *** The open elements *)

Lemma open_ok_flush (t t' : LWMD) : flush_ t = Ok t' -> open_ok t -> open_ok t'.
Proof.
  intros E O. apply flush_any in E.
  destruct E as [-> | (e & s & _ & _ & _ & ->)]; exact O.
Qed.

Lemma heading_level (k : Z) (n : nat) :
  0 < k -> heading_element (created n (h (Z.min 6 k))).
Proof. intros Hk. exists n, (Z.min 6 k). split; [reflexivity | lia]. Qed.

Lemma open_ok_write_char (c : Z) (t t' : LWMD) :
  write_char c t = Ok t' -> open_ok t -> open_ok t'.
Proof.
  intros H O. unfold_step H. unfold open_ok in *.
  destruct O as [(Hs & Ht & Hh) | (w & Hw & Hs & Ht & Hh & Hl & Hn1 & Hn2)].
  - destruct (state_state t) eqn:Hst;
      (first [ assert (Hpos : 0 < heading_count t)
                 by (apply Hh; reflexivity)
             | assert (Hpos : ~ 0 < heading_count t)
                 by (intros X; apply Hh in X; discriminate X) ]);
      clear Hh; run_inv; subst;
      unfold down; fields; rewrite ?Hs in *; simpl;
      bool_hyps;
      try (exfalso; unfold CHAR.NEWLINE, CHAR.HASH, CHAR.SPACE in *; lia);
      try (left; split_and; try reflexivity; try assumption;
           intuition (try congruence; try discriminate; try lia); fail).
    all: right; eexists;
      (split;
       [| split;
          [reflexivity
          | split_and; try reflexivity; try assumption; try lia;
            try discriminate]]);
      apply heading_level; lia.
  - destruct (state_state t) eqn:Hst; try congruence; run_inv; subst;
      unfold down; fields; rewrite ?Hs in *; simpl;
      bool_hyps; try congruence; try lia;
      try (left; split_and; try reflexivity;
           intuition (try congruence; try discriminate; try lia); fail);
      try (right; exists w; split_and; try reflexivity; try assumption;
           try discriminate; try lia; congruence).
Qed.

(** *** X6 *)

(** X6: headings do not nest and end with their line.  In every state that
    a stream of writes reaches the element stack is the root alone, or the
    root and one heading of a level from 1 to 6; at the start of a line it
    is the root alone. *)
Theorem headings_do_not_nest (t : LWMD) (fragments : list jsstring)
    (t' : LWMD) :
  write_all fragments (clearState t) = Ok t' ->
  (stack t' = [target] \/
   exists n lvl, 1 <= lvl <= 6 /\ stack t' = [target; created n (h lvl)]) /\
  (line_start t' = true -> stack t' = [target]).
Proof.
  intros H.
  assert (O : open_ok t').
  { apply (write_all_invariant open_ok open_ok_write_char open_ok_flush)
      with (fragments := fragments) (t := clearState t).
    - intros v t0 L. exact L.
    - exact H.
    - left. simpl. split_and; try reflexivity. unfold heading_count, state_state.
      simpl. intuition (try lia; try discriminate). }
  destruct O as [(Hs & _) | (w & (n & lvl & -> & Hlvl) & Hs & _ & _ & Hl & _)].
  - split; [now left | now intros _].
  - split; [right; now exists n, lvl | congruence].
Qed.

(** X6 after "# T": the heading of the line is open. *)
Lemma headings_do_not_nest_witness :
  (stack after_title = [target] \/
   exists n lvl,
     1 <= lvl <= 6 /\ stack after_title = [target; created n (h lvl)]) /\
  (line_start after_title = true -> stack after_title = [target]).
Proof.
  apply (@headings_do_not_nest (new_LWMD default_options) [js "# T"]
           after_title).
  vm_compute. reflexivity.
Defined.

(** *** The elements made *)

Lemma fresh_blocks_snoc (es : list (element * element)) :
  forall (n : nat) (p : element) (tag : tagName),
    fresh_blocks n es -> block_tag tag ->
    fresh_blocks n (es ++ [(p, created (n + List.length es) tag)]).
Proof.
  induction es as [| [q e] rest IH]; intros n p tag; simpl.
  - intros _ Hb. rewrite Nat.add_0_r. split; [now exists tag | exact I].
  - intros [He Hr] Hb. split; [exact He |].
    replace (n + S (List.length rest))%nat
      with (S n + List.length rest)%nat by lia.
    now apply IH.
Qed.

Lemma doc_ok_text (n0 : nat) (d0 : list append_call) (cc : nat)
    (dm : list append_call) (e : element) (s : jsstring) :
  doc_ok n0 d0 cc dm -> doc_ok n0 d0 cc (dm ++ [(e, text s)]).
Proof.
  intros (d & -> & Hf & Hc). exists (d ++ [(e, text s)]).
  rewrite elements_app, app_assoc. simpl. rewrite app_nil_r. now split_and.
Qed.

Lemma doc_ok_elem (n0 : nat) (d0 : list append_call) (cc : nat)
    (dm : list append_call) (e : element) (tag : tagName) :
  doc_ok n0 d0 cc dm -> block_tag tag ->
  doc_ok n0 d0 (S cc) (dm ++ [(e, elem (created cc tag))]).
Proof.
  intros (d & -> & Hf & ->) Hb. exists (d ++ [(e, elem (created (n0 + List.length (elements d)) tag))]).
  rewrite elements_app, app_assoc. simpl. split_and.
  - reflexivity.
  - now apply fresh_blocks_snoc.
  - rewrite length_app. simpl. lia.
Qed.

Lemma made_ok_flush (n0 : nat) (d0 : list append_call) (t t' : LWMD) :
  flush_ t = Ok t' -> made_ok n0 d0 t -> made_ok n0 d0 t'.
Proof.
  intros E [Hh Hd]. apply flush_any in E.
  destruct E as [-> | (e & s & _ & _ & _ & ->)]; [now split |].
  split; [exact Hh |]. simpl. now apply doc_ok_text.
Qed.

Lemma made_ok_write_char (n0 : nat) (d0 : list append_call) (c : Z)
    (t t' : LWMD) :
  write_char c t = Ok t' -> made_ok n0 d0 t -> made_ok n0 d0 t'.
Proof.
  intros H [Hh Hd]. unfold_step H. unfold made_ok.
  destruct (state_state t) eqn:Hst;
    try (assert (Hpos : 0 < heading_count t) by (apply Hh; reflexivity));
    clear Hh; run_inv; subst;
    unfold down; repeat break_if; fields;
    (split;
     [ intros; try discriminate; try congruence; try lia;
       bool_hyps; unfold CHAR.NEWLINE, CHAR.HASH in *; lia
     | repeat first [apply doc_ok_text | apply doc_ok_elem]; try assumption;
       simpl; try lia; try exact I ]).
Qed.

Lemma made_ok_end (n0 : nat) (d0 : list append_call) (t t' : LWMD) :
  end_ t = Ok t' -> made_ok n0 d0 t -> made_ok n0 d0 t'.
Proof.
  intros H [Hh Hd]. unfold end_, flush, top_append in H.
  run_inv; subst; (split; [discriminate |]); simpl;
    try apply doc_ok_text; exact Hd.
Qed.

(** *** X7 *)

(** X7: the parser creates headings of a level from 1 to 6 and rules, and
    nothing else.  What a stream of writes, and the [end] after it, add to
    the document holds exactly the elements created meanwhile, each
    appended once, in the order of creation. *)
Theorem only_headings_and_rules (t : LWMD) (fragments : list jsstring)
    (t' : LWMD) :
  write_all fragments (clearState t) = Ok t' ->
  (exists d, dom t' = dom t ++ d /\
     fresh_blocks (created_count t) (elements d) /\
     created_count t' = (created_count t + List.length (elements d))%nat) /\
  (forall t'', end_ t' = Ok t'' ->
     exists d, dom t'' = dom t ++ d /\
       fresh_blocks (created_count t) (elements d) /\
       created_count t'' =
         (created_count t + List.length (elements d))%nat).
Proof.
  intros H.
  assert (M : made_ok (created_count t) (dom t) t').
  { apply (write_all_invariant (made_ok (created_count t) (dom t))
             (@made_ok_write_char _ _) (@made_ok_flush _ _))
      with (fragments := fragments) (t := clearState t).
    - intros v t0 L. exact L.
    - exact H.
    - split; [discriminate |]. exists []. simpl.
      rewrite app_nil_r. split_and; [reflexivity | exact I | lia]. }
  split; [exact (proj2 M) |].
  intros t'' E. exact (proj2 (made_ok_end E M)).
Qed.

(** X7 after "# T". *)
Lemma only_headings_and_rules_witness :
  (exists d, dom after_title = dom (new_LWMD default_options) ++ d /\
     fresh_blocks (created_count (new_LWMD default_options)) (elements d) /\
     created_count after_title =
       (created_count (new_LWMD default_options)
        + List.length (elements d))%nat) /\
  (forall t'', end_ after_title = Ok t'' ->
     exists d, dom t'' = dom (new_LWMD default_options) ++ d /\
       fresh_blocks (created_count (new_LWMD default_options))
         (elements d) /\
       created_count t'' =
         (created_count (new_LWMD default_options)
          + List.length (elements d))%nat).
Proof.
  apply (@only_headings_and_rules (new_LWMD default_options) [js "# T"]
           after_title).
  vm_compute. reflexivity.
Defined.

(** *** Positions and chunks *)

Lemma write_char_consumed (c : Z) (t t' : LWMD) :
  write_char c t = Ok t' -> consumed 1 t t'.
Proof.
  intros H. unfold_step H. unfold consumed.
  destruct (state_state t) eqn:Hst; run_inv; subst;
    unfold down; repeat break_if; simpl; split_and; reflexivity.
Qed.

Lemma write_loop_consumed (chunk : jsstring) :
  forall t t', write_loop chunk t = Ok t' -> consumed (len chunk) t t'.
Proof.
  induction chunk as [| c rest IH]; intros t t'; cbn [write_loop].
  - intros [= <-]. unfold consumed, len. simpl. split_and; try reflexivity.
    lia.
  - destruct (write_char c t) as [t1 |] eqn:E; cbn [bind]; [| discriminate].
    intros H. apply write_char_consumed in E. apply IH in H.
    unfold consumed in *. unfold len in *. cbn [List.length].
    intuition (try congruence; try lia).
Qed.

(** *** X8 *)

(** X8: a [write] that returns has consumed every code unit of its chunk:
    the position has advanced by the length of the chunk, the chunk is the
    last of the chunk store, and the options are as they were. *)
Theorem write_accounting (chunk : jsstring) (t t' : LWMD) :
  write chunk t = Ok t' ->
  position t' = position t + len chunk /\
  chunks t' = chunks t ++ [chunk] /\
  options t' = options t /\ streamingMode t' = streamingMode t.
Proof.
  unfold write.
  destruct (write_loop chunk _) as [t1 |] eqn:E; cbn [bind]; [| discriminate].
  apply write_loop_consumed in E. destruct E as (Ep & Ec & Eo & Es).
  simpl in *.
  assert (F : forall t2, flush_ t1 = Ok t2 ->
            position t2 = position t1 /\ chunks t2 = chunks t1 /\
            options t2 = options t1 /\ streamingMode t2 = streamingMode t1).
  { intros t2 F. apply flush_any in F.
    destruct F as [-> | (e & s & _ & _ & _ & ->)]; now split_and. }
  destruct (Options.flush_on_write (options t1)).
  - intros F2. apply F in F2. intuition congruence.
  - intros [= <-]. now split_and.
Qed.

(** X8 at the write of "hello" to a new parser. *)
Lemma write_accounting_witness :
  position after_hello =
    position (new_LWMD (Options.Make false true)) + len (js "hello") /\
  chunks after_hello =
    chunks (new_LWMD (Options.Make false true)) ++ [js "hello"] /\
  options after_hello = options (new_LWMD (Options.Make false true)) /\
  streamingMode after_hello =
    streamingMode (new_LWMD (Options.Make false true)).
Proof.
  apply (@write_accounting (js "hello") (new_LWMD (Options.Make false true))
           after_hello).
  vm_compute. reflexivity.
Defined.

(** ** Streams on a cleared parser *)

(** One [write] of a stream whose text so far is [pre]. *)
Lemma write_wf (pre chunk : jsstring) (t t' : LWMD) :
  wf pre t -> concat (chunks t) = pre -> write chunk t = Ok t' ->
  wf (pre ++ chunk) t' /\ concat (chunks t') = pre ++ chunk /\
  options t' = options t /\
  (Options.flush_on_write (options t) = true -> locked t' = false ->
   start t' = position t').
Proof.
  intros W C. unfold write.
  set (t0 := set_chunks (chunks t ++ [chunk]) t).
  assert (C0 : concat (chunks t0) = pre ++ chunk ++ []).
  { unfold t0. cbn [chunks set_chunks]. rewrite concat_app, C. reflexivity. }
  assert (W0 : wf pre t0).
  { destruct W as ((P & Sx & _ & K) & H). split; [| exact H].
    unfold frame. split_and; auto. exists chunk. rewrite C0.
    now rewrite app_nil_r. }
  destruct (write_loop chunk t0) as [t1 |] eqn:E1; [| discriminate].
  cbn [bind].
  destruct (@write_loop_wf chunk pre [] t0 t1 W0 C0 E1) as (W1 & C1 & O1).
  assert (C1' : concat (chunks t1) = pre ++ chunk)
    by (rewrite C1, C0; now rewrite app_nil_r).
  change (options t0) with (options t) in O1.
  destruct (flush_wf W1) as (t2 & E2 & W2 & C2 & O2 & _ & Hl & Hs).
  rewrite O1.
  destruct (Options.flush_on_write (options t)) eqn:Hfw.
  - rewrite E2. intros [= <-]. split_and; try congruence.
    intros _ L. destruct (locked t1) eqn:L1.
    + rewrite (Hl eq_refl) in L. congruence.
    + apply (Hs eq_refl).
  - intros [= <-]. split_and; congruence.
Qed.

Lemma write_all_wf (fragments : list jsstring) :
  forall (pre : jsstring) (t t' : LWMD),
    wf pre t -> concat (chunks t) = pre ->
    (Options.flush_on_write (options t) = true -> locked t = false ->
     start t = position t) ->
    write_all fragments t = Ok t' ->
    wf (pre ++ concat fragments) t' /\
    concat (chunks t') = pre ++ concat fragments /\
    options t' = options t /\
    (Options.flush_on_write (options t) = true -> locked t' = false ->
     start t' = position t').
Proof.
  induction fragments as [| f fs IH]; intros pre t t' W C Hs;
    cbn [write_all concat].
  - intros [= <-]. rewrite app_nil_r. now split_and.
  - destruct (write f t) as [t1 |] eqn:E; cbn [bind]; [| discriminate].
    destruct (@write_wf pre f t t1 W C E) as (W1 & C1 & O1 & S1).
    intros H. rewrite <- O1 in S1.
    destruct (IH _ _ _ W1 C1 S1 H) as (W' & C' & O' & S').
    rewrite app_assoc. split_and; try congruence.
    rewrite <- O1. exact S'.
Qed.

(** *** X9 *)

(** X9: the cursors of a stream.  After any writes to a cleared parser the
    position is the number of code units written, the chunk store holds
    the text written, and the confirmed cursor lies between 0 and the
    position; with [flush_on_write] it has reached the position whenever
    the lock is not held, so that nothing consumed waits to be rendered. *)
Theorem stream_cursors (t : LWMD) (fragments : list jsstring) (t' : LWMD) :
  write_all fragments (clearState t) = Ok t' ->
  position t' = len (concat fragments) /\
  concat (chunks t') = concat fragments /\
  0 <= start t' <= position t' /\
  (Options.flush_on_write (options t) = true -> locked t' = false ->
   start t' = position t').
Proof.
  intros H.
  destruct (@write_all_wf fragments [] (clearState t) t'
              (wf_clearState t) eq_refl (fun _ _ => eq_refl) H)
    as (((P & S0 & _) & (S1 & _)) & C & _ & S).
  cbn [app] in *. now split_and.
Qed.

(** X9 after "intro", newline, "##": two code units wait behind the
    lock. *)
Lemma stream_cursors_witness :
  position after_intro_hashes = len (concat [js "intro"; NEWLINE; js "##"]) /\
  concat (chunks after_intro_hashes) = concat [js "intro"; NEWLINE; js "##"] /\
  0 <= start after_intro_hashes <= position after_intro_hashes /\
  (Options.flush_on_write (options (new_LWMD default_options)) = true ->
   locked after_intro_hashes = false ->
   start after_intro_hashes = position after_intro_hashes).
Proof.
  apply (@stream_cursors (new_LWMD default_options)
           [js "intro"; NEWLINE; js "##"] after_intro_hashes).
  vm_compute. reflexivity.
Defined.

(** ** The TypeError *)

(** *** X10 *)

(** X10: in a state that a stream reaches, consuming a character throws
    exactly when the parser is in SEQUENCE_MODIFIER and the Modifier Stack
    is empty; then it throws whatever the character is. *)
Theorem write_char_throws_iff (pre : jsstring) (c : Z) (t : LWMD) :
  wf pre t ->
  (write_char c t = TypeError <->
   state_state t = SEQUENCE_MODIFIER /\ modifierStack t = []).
Proof.
  intros W. split.
  - intros E.
    destruct (state_state t) eqn:Hst;
      try (destruct (@write_char_total pre c t W) as (t' & E');
           [rewrite Hst; discriminate | congruence]).
    destruct (modifierStack t) eqn:Hm; [now split |].
    destruct (@write_char_total pre c t W) as (t' & E');
      [rewrite Hm; discriminate | congruence].
  - intros [Hst Hm]. now apply empty_modifier_stack_throws.
Qed.

(** X10 after "*", newline: the next character throws. *)
Lemma write_char_throws_iff_witness :
  write_char 97 after_star_line = TypeError <->
  state_state after_star_line = SEQUENCE_MODIFIER /\
  modifierStack after_star_line = [].
Proof.
  apply (@write_char_throws_iff (js "*" ++ NEWLINE) 97 after_star_line).
  apply (@stack_ok_write_all [js "*" ++ NEWLINE] []
           (clearState (new_LWMD default_options)) after_star_line).
  - apply wf_clearState.
  - reflexivity.
  - vm_compute. reflexivity.
Defined.

(** *** X11 *)

(** X11: a [write] in NORMAL at a line start whose chunk begins with a
    line that is one '*' or one '_', alone or followed by one more
    occurrence of the same character or by one space, then the newline,
    and that holds at least one more character, throws a TypeError: the
    rule run of fewer than three hands over to SEQUENCE_MODIFIER, the
    newline empties the Modifier Stack, and the next character, whatever
    it is, reads its last entry. *)
Theorem short_marker_line_throws (pre more rest : jsstring) (t : LWMD)
    (m c : Z) :
  wf pre t -> concat (chunks t) = pre ->
  state_state t = NORMAL -> line_start t = true ->
  m = CHAR.ASTERISK \/ m = CHAR.UNDERSCORE ->
  Forall (fun x => x = m \/ x = CHAR.SPACE) more -> len more <= 1 ->
  write ((m :: more) ++ NEWLINE ++ c :: rest) t = TypeError.
Proof.
  intros W C Hst Hls Hm Hall Hlen. unfold write.
  match goal with
  | |- context [write_loop _ ?x] => remember x as t0 eqn:Ht0
  end.
  assert (C0 : concat (chunks t0) =
               pre ++ (m :: more) ++ CHAR.NEWLINE :: c :: rest).
  { rewrite Ht0. cbn [chunks set_chunks]. rewrite concat_app, C.
    cbn [concat]. now rewrite app_nil_r. }
  assert (W0 : wf pre t0).
  { rewrite Ht0. destruct W as ((P & Sx & _ & K) & H). split; [| exact H].
    unfold frame. split_and; auto. eexists. rewrite <- Ht0. exact C0. }
  assert (Hst0 : state_state t0 = NORMAL) by (now rewrite Ht0).
  assert (Hls0 : line_start t0 = true) by (now rewrite Ht0).
  clear Ht0.
  assert (Hrm : rule_marker m) by (unfold rule_marker; tauto).
  assert (Him : isModifierChar m = true)
    by (destruct Hm as [-> | ->]; reflexivity).
  assert (Hnl : CHAR.NEWLINE <> m)
    by (destruct Hm as [-> | ->]; discriminate).
  pose proof (frame_top (proj1 W0)) as Htop.
  cbn [app write_loop NEWLINE].
  destruct (rule_entry (proj1 W0) Hst0 Hls0 Htop Hrm) as (t1 & E1 & R1).
  rewrite E1. cbn [bind]. cbn [app] in C0.
  destruct (@write_char_wf pre m (more ++ CHAR.NEWLINE :: c :: rest)
              t0 t1 W0 C0 E1) as (W1 & C1 & _).
  rewrite write_loop_app.
  destruct (rule_run Hrm Hall R1) as (t2 & E2 & R2).
  rewrite E2. cbn [bind write_loop].
  assert (C1' : concat (chunks t1) =
                (pre ++ [m]) ++ more ++ CHAR.NEWLINE :: c :: rest)
    by (rewrite C1, C0, <- app_assoc; reflexivity).
  destruct (@write_loop_wf more (pre ++ [m]) (CHAR.NEWLINE :: c :: rest)
              t1 t2 W1 C1' E2) as (W2 & _).
  destruct (rule_terminate (proj1 W2) R2 Hnl) as (t3 & E3 & _ & H3);
    [discriminate |].
  rewrite E3. cbn [bind].
  assert (Hk : (2 <? 1 + len more) = false) by (apply Z.ltb_ge; lia).
  rewrite Hk, Him in H3. cbn [andb] in H3.
  destruct H3 as (_ & _ & Hs3 & Hm3).
  rewrite (empty_modifier_stack_throws c t3 Hs3 Hm3). reflexivity.
Qed.

(** X11 at the text "*", newline, "a" written to a new parser. *)
Lemma short_marker_line_throws_witness :
  write ((CHAR.ASTERISK :: []) ++ NEWLINE ++ 97 :: [])
    (new_LWMD default_options) = TypeError.
Proof.
  apply (@short_marker_line_throws [] [] [] (new_LWMD default_options)
           CHAR.ASTERISK 97).
  - apply wf_clearState.
  - reflexivity.
  - reflexivity.
  - reflexivity.
  - now left.
  - constructor.
  - unfold len. simpl. lia.
Defined.

(** ** Text without markers *)

Lemma plain_char (c : Z) (t : LWMD) :
  state_state t = NORMAL -> heading_count t <= 0 -> marker c = false ->
  exists t', write_char c t = Ok t' /\ quiet t t'.
Proof.
  intros Hst Hh Hm. unfold marker in Hm. bool_hyps.
  unfold write_char, switch, case_NORMAL, isModifierChar. rewrite Hst.
  repeat match goal with
  | H : ?x <> ?y |- _ => apply Z.eqb_neq in H; rewrite H; clear H
  end.
  cbn [orb]. replace (if line_start t then Ok t else Ok t) with (Ok t)
    by (destruct (line_start t); reflexivity).
  cbn [bind]. unfold after_switch.
  change (heading_count (set_modifierStack [] (set_line_start true t)))
    with (heading_count t).
  replace (0 <? heading_count t) with false by (symmetry; apply Z.ltb_ge; lia).
  unfold quiet.
  destruct (c =? CHAR.NEWLINE); [| destruct (line_start t)];
    cbn [bind]; eexists; (split; [reflexivity |]); now split_and.
Qed.

Lemma plain_loop (chunk : jsstring) :
  forall t : LWMD,
    state_state t = NORMAL -> heading_count t <= 0 -> plain chunk ->
    exists t', write_loop chunk t = Ok t' /\ quiet t t'.
Proof.
  induction chunk as [| c rest IH]; intros t Hst Hh Hp; cbn [write_loop].
  - exists t. split; [reflexivity |]. unfold quiet. now split_and.
  - inversion Hp as [| ? ? Hc Hr]; subst.
    destruct (@plain_char c t Hst Hh Hc) as (t1 & E1 & Q1).
    rewrite E1. cbn [bind].
    destruct Q1 as (S1 & H1 & Q1).
    destruct (IH t1 S1 ltac:(lia) Hr) as (t' & E' & Q').
    exists t'. split; [exact E' |]. unfold quiet in *.
    intuition congruence.
Qed.

Lemma plain_write (pre chunk : jsstring) (t : LWMD) :
  plain_inv pre t -> plain chunk ->
  exists t', write chunk t = Ok t' /\ plain_inv (pre ++ chunk) t' /\
    options t' = options t /\
    dom t' = dom t ++ (if Options.flush_on_write (options t)
                       then text_node_of chunk else []).
Proof.
  intros (W & C & Hst & Hh & Hl & Hk & Hs) Hp.
  destruct (write chunk t) as [t' |] eqn:E.
  - destruct (@write_wf pre chunk t t' W C E) as (W' & C' & O' & S').
    exists t'. split; [reflexivity |].
    revert E. unfold write.
    match goal with
    | |- context [write_loop _ ?x] => remember x as t0 eqn:Ht0
    end.
    assert (Hst0 : state_state t0 = NORMAL) by (now rewrite Ht0).
    assert (Hh0 : heading_count t0 <= 0) by (now rewrite Ht0).
    destruct (@plain_loop chunk t0 Hst0 Hh0 Hp)
      as (t1 & E1 & Q1 & Q2 & Q3 & Q4 & Q5 & Q6 & Q7 & Q8).
    rewrite E1. cbn [bind].
    assert (W0 : wf pre t0).
    { rewrite Ht0. destruct W as ((P & Sx & _ & K) & H). split; [| exact H].
      unfold frame. split_and; auto. exists chunk.
      cbn [chunks set_chunks]. rewrite concat_app, C. cbn [concat].
      now rewrite app_nil_r. }
    assert (C0 : concat (chunks t0) = pre ++ chunk ++ []).
    { rewrite Ht0. cbn [chunks set_chunks]. rewrite concat_app, C.
      reflexivity. }
    destruct (@write_loop_wf chunk pre [] t0 t1 W0 C0 E1) as (W1 & C1 & O1).
    assert (O1' : options t1 = options t) by (now rewrite O1, Ht0).
    assert (L1 : locked t1 = false) by (now rewrite Q3, Ht0).
    assert (K1 : stack t1 = [target]) by (now rewrite Q6, Ht0).
    assert (D1 : dom t1 = dom t) by (now rewrite Q4, Ht0).
    assert (S1 : start t1 = start t) by (now rewrite Q5, Ht0).
    assert (H1 : heading_count t1 <= 0) by (rewrite Q2, Ht0; exact Hh).
    rewrite O1'. rewrite (flush_eq (proj1 W1)), L1. cbn [orb].
    destruct (Options.flush_on_write (options t)) eqn:Hfw.
    + specialize (Hs eq_refl).
      assert (P1 : position t1 = len pre + len chunk).
      { destruct W1 as ((P & _) & _). now rewrite P, len_app. }
      assert (P0 : position t = len pre) by (destruct W as ((P & _) & _); exact P).
      assert (Hpend : pending (pre ++ chunk) t1 = chunk).
      { unfold pending. rewrite S1, Hs, P0. unfold len.
        rewrite Nat2Z.id. rewrite skipn_app, skipn_all, Nat.sub_diag.
        reflexivity. }
      unfold text_node_of.
      pose proof (len_nonneg chunk) as Hn.
      destruct (len chunk =? 0) eqn:Hz; bool_hyps.
      * replace (position t1 <=? start t1) with true
          by (symmetry; apply Z.leb_le; lia).
        intros [= <-]. unfold plain_inv. rewrite app_nil_r.
        split_and; auto; lia.
      * replace (position t1 <=? start t1) with false
          by (symmetry; apply Z.leb_gt; lia).
        intros [= <-]. unfold plain_inv. rewrite Hpend, K1. cbn [last].
        split_and; auto; try reflexivity.
        simpl. now rewrite D1.
    + intros [= <-]. unfold plain_inv. rewrite app_nil_r.
      split_and; auto. rewrite O1', Hfw. discriminate.
  - exfalso. revert E. unfold write.
    match goal with
    | |- context [write_loop _ ?x] => remember x as t0 eqn:Ht0
    end.
    assert (Hst0 : state_state t0 = NORMAL) by (now rewrite Ht0).
    assert (Hh0 : heading_count t0 <= 0) by (now rewrite Ht0).
    destruct (@plain_loop chunk t0 Hst0 Hh0 Hp) as (t1 & E1 & Q1).
    rewrite E1. cbn [bind].
    assert (W0 : wf pre t0).
    { rewrite Ht0. destruct W as ((P & Sx & _ & K) & H). split; [| exact H].
      unfold frame. split_and; auto. exists chunk.
      cbn [chunks set_chunks]. rewrite concat_app, C. cbn [concat].
      now rewrite app_nil_r. }
    assert (C0 : concat (chunks t0) = pre ++ chunk ++ []).
    { rewrite Ht0. cbn [chunks set_chunks]. rewrite concat_app, C.
      reflexivity. }
    destruct (@write_loop_wf chunk pre [] t0 t1 W0 C0 E1) as (W1 & _).
    rewrite (flush_eq (proj1 W1)).
    destruct (Options.flush_on_write (options t1)); discriminate.
Qed.

Lemma plain_write_all (fragments : list jsstring) :
  forall (pre : jsstring) (t : LWMD),
    plain_inv pre t -> Forall plain fragments ->
    exists t', write_all fragments t = Ok t' /\
      locked t' = false /\
      dom t' = dom t ++ (if Options.flush_on_write (options t)
                         then flat_map text_node_of fragments else []).
Proof.
  induction fragments as [| f fs IH]; intros pre t I Hp; cbn [write_all].
  - exists t. split; [reflexivity |].
    split; [apply I |]. cbn [flat_map].
    destruct (Options.flush_on_write (options t)); now rewrite app_nil_r.
  - inversion Hp as [| ? ? Hf Hr]; subst.
    destruct (@plain_write pre f t I Hf) as (t1 & E1 & I1 & O1 & D1).
    rewrite E1. cbn [bind].
    destruct (IH _ _ I1 Hr) as (t' & E' & L' & D').
    exists t'. split; [exact E' |]. split; [exact L' |].
    rewrite D', D1, O1. cbn [flat_map].
    destruct (Options.flush_on_write (options t));
      now rewrite <- ?app_assoc, ?app_nil_r.
Qed.

Lemma plain_stream (t : LWMD) (fragments : list jsstring) :
  Forall plain fragments ->
  exists t', stream fragments (clearState t) = Ok t' /\
    dom t' = dom t ++ (if Options.flush_on_write (options t)
                       then flat_map text_node_of fragments else []).
Proof.
  intros Hp.
  assert (I : plain_inv [] (clearState t)).
  { unfold plain_inv.
    split_and; try reflexivity; try apply wf_clearState;
      try discriminate. }
  destruct (@plain_write_all fragments [] (clearState t) I Hp) as (t' & E & L & D).
  unfold stream, end_. rewrite E. cbn [bind]. rewrite L. cbn [bind].
  eexists. split; [reflexivity |]. exact D.
Qed.

(** *** X12 *)

(** X12: text without the characters '#', '-', '*', '_', '~' and '`' passes
    through unchanged.  With [flush_on_write], a stream of such fragments
    appends each non-empty fragment to the target as one text node, in
    order, and nothing else. *)
Theorem plain_text_passes (t : LWMD) (fragments : list jsstring) :
  Options.flush_on_write (options t) = true -> Forall plain fragments ->
  exists t', stream fragments (clearState t) = Ok t' /\
    dom t' = dom t ++ flat_map text_node_of fragments.
Proof.
  intros Hfw Hp. destruct (@plain_stream t fragments Hp) as (t' & E & D).
  exists t'. split; [exact E |]. now rewrite Hfw in D.
Qed.

(** X12 on the fragments "ab", "", "c d". *)
Lemma plain_text_passes_witness :
  exists t',
    stream [js "ab"; js ""; js "c d"] (clearState (new_LWMD default_options))
      = Ok t' /\
    dom t' =
      dom (new_LWMD default_options)
      ++ flat_map text_node_of [js "ab"; js ""; js "c d"].
Proof.
  apply (@plain_text_passes (new_LWMD default_options)
           [js "ab"; js ""; js "c d"]).
  - reflexivity.
  - repeat constructor.
Defined.

(** *** X13 *)

(** X13: without [flush_on_write], text without marker characters never
    reaches the document: [write] does not flush, and [end] flushes only
    when the lock is held. *)
Theorem unflushed_text_is_dropped (t : LWMD) (fragments : list jsstring) :
  Options.flush_on_write (options t) = false -> Forall plain fragments ->
  exists t', stream fragments (clearState t) = Ok t' /\ dom t' = dom t.
Proof.
  intros Hfw Hp. destruct (@plain_stream t fragments Hp) as (t' & E & D).
  exists t'. split; [exact E |]. rewrite Hfw in D. now rewrite app_nil_r in D.
Qed.

(** X13 on the fragments "ab", "c d". *)
Lemma unflushed_text_is_dropped_witness :
  exists t',
    stream [js "ab"; js "c d"]
      (clearState (new_LWMD (Options.Make false true))) = Ok t' /\
    dom t' = dom (new_LWMD (Options.Make false true)).
Proof.
  apply (@unflushed_text_is_dropped (new_LWMD (Options.Make false true))
           [js "ab"; js "c d"]).
  - reflexivity.
  - repeat constructor.
Defined.

(** ** Reuse of a parser *)

Lemma shift_element_0 (e : element) : shift_element 0 e = e.
Proof. destruct e; simpl; [reflexivity |]. now rewrite Nat.add_0_r. Qed.

Lemma shift_call_0 (a : append_call) : shift_call 0 a = a.
Proof.
  destruct a as [e [s | x]]; unfold shift_call; simpl;
    now rewrite ?shift_element_0.
Qed.

Lemma rebase_0 (p : list append_call) (t : LWMD) :
  rebase 0 p t = set_dom (p ++ dom t) t.
Proof.
  unfold rebase, set_dom. f_equal.
  - rewrite <- (map_id (stack t)) at 2. apply map_ext, shift_element_0.
  - destruct (top t); simpl; now rewrite ?shift_element_0.
  - apply Nat.add_0_r.
  - f_equal. rewrite <- (map_id (dom t)) at 2. apply map_ext, shift_call_0.
Qed.

Lemma rebase_content (t : LWMD) : rebase 0 (dom t) (set_dom [] t) = t.
Proof.
  rewrite rebase_0. destruct t. unfold set_dom. simpl.
  now rewrite app_nil_r.
Qed.

(** *** X14 *)

(** X14: the parser only appends.  [write] and [end] on a target that has
    content do what they do on an empty target, the content staying in
    front as it is: the parser neither reads nor changes what the document
    already holds, and it throws in the one case exactly when it throws in
    the other. *)
Theorem write_only_appends (chunk : jsstring) (t : LWMD) :
  write chunk t =
    map_result (fun t' => set_dom (dom t ++ dom t') t')
      (write chunk (set_dom [] t)) /\
  end_ t =
    map_result (fun t' => set_dom (dom t ++ dom t') t')
      (end_ (set_dom [] t)).
Proof.
  split.
  - rewrite <- (rebase_content t) at 1. rewrite write_rebase.
    destruct (write chunk (set_dom [] t)); [| reflexivity].
    cbn [map_result]. now rewrite rebase_0.
  - rewrite <- (rebase_content t) at 1. rewrite end_rebase.
    destruct (end_ (set_dom [] t)); [| reflexivity].
    cbn [map_result]. now rewrite rebase_0.
Qed.

(** *** X15 *)

(** X15: a parser that was used before works like a new one.  After
    [reset], a stream gives the document that a new parser with the same
    options gives for it, placed behind the content of the target, the
    elements being those created after the ones the used parser has
    created; it throws exactly when the new parser throws. *)
Theorem stream_after_reset (t : LWMD) (content : list append_call)
    (fragments : list jsstring) :
  stream fragments (reset content t) =
    map_result (rebase (created_count t) content)
      (stream fragments (new_LWMD (options t))) /\
  output (stream fragments (reset content t)) =
    option_map (fun d => content ++ map (shift_call (created_count t)) d)
      (output (stream fragments (new_LWMD (options t)))).
Proof.
  assert (E : reset content t =
              rebase (created_count t) content (new_LWMD (options t))).
  { unfold reset, rebase, new_LWMD, clearState. simpl.
    now rewrite app_nil_r. }
  rewrite E, stream_rebase.
  split; [reflexivity |].
  destruct (stream fragments (new_LWMD (options t))); reflexivity.
Qed.

(** *** X16 *)

(** X16: [parse] on a used parser returns what it returns on a new one.
    Whatever the instance has parsed before, [parse(text)] returns the
    document that a new parser with the same options returns, up to the
    identity of the elements, and throws exactly when the new parser
    throws. *)
Theorem parse_reuse (text : jsstring) (t : LWMD) :
  map_result fst (parse text t) =
  map_result (fun r => map (shift_call (created_count t)) (fst r))
    (parse text (new_LWMD (options t))).
Proof.
  unfold parse.
  assert (E : set_streamingMode false (clearState (set_dom [] t)) =
              rebase (created_count t) []
                (set_streamingMode false
                   (clearState (set_dom [] (new_LWMD (options t)))))).
  { reflexivity. }
  rewrite E, write_rebase.
  destruct (write text _) as [t1 |]; [| reflexivity].
  cbn [map_result bind]. rewrite end_rebase.
  destruct (end_ t1) as [t2 |]; reflexivity.
Qed.

(** ** The text of the document *)

Lemma subseq_refl (A : Type) (l : list A) : subseq l l.
Proof.
  induction l; [apply subseq_nil | apply subseq_keep; assumption].
Qed.

Lemma subseq_nil_l (A : Type) (l : list A) : subseq [] l.
Proof.
  induction l; [apply subseq_nil | apply subseq_skip; assumption].
Qed.

Lemma subseq_app (A : Type) (x a : list A) :
  subseq x a -> forall y b, subseq y b -> subseq (x ++ y) (a ++ b).
Proof.
  induction 1; intros y b Hy; simpl.
  - exact Hy.
  - apply subseq_skip. now apply IHsubseq.
  - apply subseq_keep. now apply IHsubseq.
Qed.

Lemma subseq_app_r (A : Type) (x a b : list A) :
  subseq x a -> subseq x (a ++ b).
Proof.
  intros H. rewrite <- (app_nil_r x). apply (subseq_app H), subseq_nil_l.
Qed.

Lemma subseq_firstn (A : Type) (x l : list A) (n : nat) :
  subseq x (firstn n l) -> subseq x l.
Proof.
  intros H. rewrite <- (firstn_skipn n l). now apply subseq_app_r.
Qed.

Lemma subseq_firstn_le (A : Type) (x l : list A) (n m : nat) :
  (n <= m)%nat -> subseq x (firstn n l) -> subseq x (firstn m l).
Proof.
  intros Hle H. apply (@subseq_firstn A x (firstn m l) n).
  rewrite firstn_firstn. now rewrite Nat.min_l.
Qed.

Lemma text_of_app (d1 d2 : list append_call) :
  text_of (d1 ++ d2) = text_of d1 ++ text_of d2.
Proof. apply flat_map_app. Qed.

Lemma text_ok_jump (d0 : list append_call) (all : jsstring) (s s' : Z)
    (dm : list append_call) :
  text_ok d0 all s dm -> s <= s' -> text_ok d0 all s' dm.
Proof.
  intros (d & -> & H) Hle. exists d. split; [reflexivity |].
  apply (@subseq_firstn_le _ _ _ (Z.to_nat s)); [lia | exact H].
Qed.

Lemma text_ok_elem (d0 : list append_call) (all : jsstring) (s : Z)
    (dm : list append_call) (e x : element) :
  text_ok d0 all s dm -> text_ok d0 all s (dm ++ [(e, elem x)]).
Proof.
  intros (d & -> & H). exists (d ++ [(e, elem x)]).
  rewrite app_assoc, text_of_app. simpl. rewrite app_nil_r. now split.
Qed.

Lemma text_ok_flush (d0 : list append_call) (pre rest : jsstring) (s p : Z)
    (dm : list append_call) (e : element) :
  text_ok d0 (pre ++ rest) s dm -> 0 <= s <= len pre -> p = len pre ->
  text_ok d0 (pre ++ rest) p (dm ++ [(e, text (skipn (Z.to_nat s) pre))]).
Proof.
  intros (d & -> & H) Hs ->. exists (d ++ [(e, text (skipn (Z.to_nat s) pre))]).
  rewrite app_assoc, text_of_app. simpl. rewrite app_nil_r.
  split; [reflexivity |].
  unfold len in *. rewrite Nat2Z.id.
  rewrite firstn_app, firstn_all, Nat.sub_diag, firstn_O, app_nil_r.
  rewrite firstn_app in H.
  replace (Z.to_nat s - List.length pre)%nat with 0%nat in H by lia.
  rewrite firstn_O, app_nil_r in H.
  rewrite <- (firstn_skipn (Z.to_nat s) pre) at 2.
  apply (subseq_app H), subseq_refl.
Qed.

Lemma text_ok_more (d0 : list append_call) (pre more : jsstring) (s : Z)
    (dm : list append_call) :
  text_ok d0 pre s dm -> text_ok d0 (pre ++ more) s dm.
Proof.
  intros (d & -> & H). exists d. split; [reflexivity |].
  rewrite firstn_app. now apply subseq_app_r.
Qed.

(** [flush()] in a stream: nothing, or the pending text. *)
Lemma flush_frame (pre : jsstring) (t t' : LWMD) :
  frame pre t -> flush_ t = Ok t' ->
  t' = t \/
  (locked t = false /\ start t < position t /\
   t' = set_uncorfinmed_start None
          (set_start (position t)
             (set_dom (dom t ++ [(last (stack t) target,
                                  text (skipn (Z.to_nat (start t)) pre))])
                t))).
Proof.
  intros Hf. rewrite (flush_eq Hf).
  destruct (locked t); cbn [orb]; [intros [= <-]; now left |].
  destruct (position t <=? start t) eqn:E; intros [= <-]; [now left |].
  right. bool_hyps. now split_and.
Qed.

Ltac run_inv_in pre Hf :=
  repeat match goal with
  | H : bind ?c _ = Ok _ |- _ =>
      let E := fresh "E" in
      destruct c eqn:E; cbn [bind] in H; [| discriminate H]
  | H : TypeError = Ok _ |- _ => discriminate H
  | H : Ok _ = Ok _ |- _ => injection H as H
  | H : (if ?b then _ else _) = Ok _ |- _ => destruct b eqn:?
  | H : match ?x with _ => _ end = Ok _ |- _ => destruct x eqn:?
  | H : flush_ ?x = Ok ?y |- _ =>
      apply (@flush_frame pre x y Hf) in H; destruct H as [H | (? & ? & H)]
  | H : up _ _ = Ok _ |- _ =>
      apply up_any in H; destruct H as (? & ? & H)
  | H : top_append _ _ = Ok _ |- _ =>
      apply top_append_any in H; destruct H as (? & ? & H)
  end.

Ltac text_solve :=
  repeat apply text_ok_elem;
  first
    [ assumption
    | eapply text_ok_flush; [eassumption | lia | lia]
    | eapply text_ok_jump; [eassumption | use_cursor] ].

Lemma switch_text (d0 : list append_call) (pre rest : jsstring) (c : Z)
    (t t1 : LWMD) :
  frame pre t -> head_ok t -> cursor_ok 0 t ->
  text_ok d0 (pre ++ rest) (start t) (dom t) ->
  switch c t = Ok t1 ->
  text_ok d0 (pre ++ rest) (start t1) (dom t1) /\ cursor_ok 1 t1.
Proof.
  intros Hf Hh Hk Ht H.
  pose proof (len_nonneg pre) as Hpre.
  assert (Hp : position t = len pre) by apply Hf.
  assert (Hs : 0 <= start t) by apply Hf.
  destruct Hh as (Hsp & Hlk & Hu & Hu0).
  unfold switch, case_NORMAL, case_SEQUENCE_HR, case_SEQUENCE_HEADING,
    case_SEQUENCE_MODIFIER in H. unfold cursor_ok in *.
  destruct (state_state t) eqn:Hst;
    (first [specialize (Hu eq_refl) | clear Hu]);
    (first [ specialize (Hlk (or_introl eq_refl))
           | specialize (Hlk (or_intror eq_refl))
           | clear Hlk ]);
    try specialize (Hk Hlk);
    run_inv_in pre Hf; subst; fields;
    try (rewrite Hu in *; simpl in * );
    (split; [text_solve |]);
    intros; try discriminate; try lia; try (intuition lia).
Qed.

Lemma after_switch_text (d0 : list append_call) (pre rest : jsstring) (c : Z)
    (t1 t' : LWMD) :
  frame pre t1 -> mid_ok t1 -> cursor_ok 1 t1 ->
  text_ok d0 (pre ++ c :: rest) (start t1) (dom t1) ->
  after_switch c t1 = Ok t' ->
  text_ok d0 ((pre ++ [c]) ++ rest) (start t') (dom t') /\ cursor_ok 0 t'.
Proof.
  intros Hf Hm Hk Ht H. rewrite <- app_assoc. cbn [app].
  pose proof (len_nonneg pre) as Hpre.
  assert (Hp : position t1 = len pre) by apply Hf.
  assert (Hs : 0 <= start t1) by apply Hf.
  assert (Hf' : frame pre (set_modifierStack [] (set_line_start true t1)))
    by exact Hf.
  unfold after_switch in H. unfold cursor_ok in *.
  run_inv_in pre Hf'; subst; unfold down; repeat break_if; fields;
    (split; [text_solve |]);
    intros; try discriminate; try congruence; try lia; try (intuition lia).
Qed.

Lemma write_char_text (d0 : list append_call) (pre rest : jsstring) (c : Z)
    (t t' : LWMD) :
  wf pre t -> cursor_ok 0 t ->
  text_ok d0 (pre ++ c :: rest) (start t) (dom t) ->
  write_char c t = Ok t' ->
  text_ok d0 ((pre ++ [c]) ++ rest) (start t') (dom t') /\ cursor_ok 0 t'.
Proof.
  intros [Hf Hh] Hk Ht. unfold write_char.
  destruct (switch c t) as [t1 |] eqn:E1; cbn [bind]; [| discriminate].
  destruct (switch_wf c Hf Hh E1) as (F1 & M1 & _).
  destruct (@switch_text d0 pre (c :: rest) c t t1 Hf Hh Hk Ht E1)
    as (T1 & K1).
  apply (@after_switch_text d0 pre rest c t1 t' F1 M1 K1 T1).
Qed.

Lemma write_loop_text (d0 : list append_call) (cs : jsstring) :
  forall (pre rest : jsstring) (t t' : LWMD),
    wf pre t -> concat (chunks t) = pre ++ cs ++ rest -> cursor_ok 0 t ->
    text_ok d0 (pre ++ cs ++ rest) (start t) (dom t) ->
    write_loop cs t = Ok t' ->
    text_ok d0 (pre ++ cs ++ rest) (start t') (dom t') /\ cursor_ok 0 t'.
Proof.
  induction cs as [| c cs IH]; intros pre rest t t' W C K T;
    cbn [write_loop].
  - intros [= <-]. now split.
  - destruct (write_char c t) as [t1 |] eqn:E; cbn [bind]; [| discriminate].
    intros H. cbn [app] in *.
    destruct (@write_char_wf pre c (cs ++ rest) t t1 W C E) as (W1 & C1 & _).
    destruct (@write_char_text d0 pre (cs ++ rest) c t t1 W K T E)
      as (T1 & K1).
    assert (A : pre ++ c :: cs ++ rest = (pre ++ [c]) ++ cs ++ rest)
      by (now rewrite <- app_assoc).
    rewrite A. apply (IH (pre ++ [c]) rest t1 t'); auto.
    rewrite C1, C. exact A.
Qed.

Lemma write_text (d0 : list append_call) (pre chunk : jsstring)
    (t t' : LWMD) :
  wf pre t -> concat (chunks t) = pre -> cursor_ok 0 t ->
  text_ok d0 pre (start t) (dom t) ->
  write chunk t = Ok t' ->
  text_ok d0 (pre ++ chunk) (start t') (dom t') /\ cursor_ok 0 t'.
Proof.
  intros W C K T. unfold write.
  match goal with
  | |- context [write_loop _ ?x] => remember x as t0 eqn:Ht0
  end.
  assert (C0 : concat (chunks t0) = pre ++ chunk ++ []).
  { rewrite Ht0. cbn [chunks set_chunks]. rewrite concat_app, C.
    reflexivity. }
  assert (W0 : wf pre t0).
  { rewrite Ht0. destruct W as ((P & Sx & _ & Kx) & H). split; [| exact H].
    unfold frame. split_and; auto. exists chunk. rewrite <- Ht0, C0.
    now rewrite app_nil_r. }
  assert (K0 : cursor_ok 0 t0) by (rewrite Ht0; exact K).
  assert (T0 : text_ok d0 (pre ++ chunk ++ []) (start t0) (dom t0)).
  { rewrite Ht0. rewrite app_nil_r. apply text_ok_more. exact T. }
  destruct (write_loop chunk t0) as [t1 |] eqn:E1; cbn [bind];
    [| discriminate].
  destruct (@write_loop_wf chunk pre [] t0 t1 W0 C0 E1) as (W1 & _).
  destruct (@write_loop_text d0 chunk pre [] t0 t1 W0 C0 K0 T0 E1)
    as (T1 & K1).
  rewrite app_nil_r in T1.
  destruct (Options.flush_on_write (options t1)); [| now intros [= <-]].
  intros H. destruct W1 as (F1 & H1).
  pose proof (len_nonneg (pre ++ chunk)) as Hpre.
  assert (Hp : position t1 = len (pre ++ chunk)) by apply F1.
  assert (Hs : 0 <= start t1) by apply F1.
  rewrite <- (app_nil_r (pre ++ chunk)) in T1 |- *.
  apply (@flush_frame (pre ++ chunk) t1 t' F1) in H.
  unfold cursor_ok in *.
  destruct H as [-> | (L & S & ->)]; [now split |].
  fields. split; [text_solve | intros; congruence].
Qed.

Lemma write_all_text (d0 : list append_call) (fragments : list jsstring) :
  forall (pre : jsstring) (t t' : LWMD),
    wf pre t -> concat (chunks t) = pre -> cursor_ok 0 t ->
    text_ok d0 pre (start t) (dom t) ->
    write_all fragments t = Ok t' ->
    wf (pre ++ concat fragments) t' /\
    concat (chunks t') = pre ++ concat fragments /\
    text_ok d0 (pre ++ concat fragments) (start t') (dom t') /\
    cursor_ok 0 t'.
Proof.
  induction fragments as [| f fs IH]; intros pre t t' W C K T;
    cbn [write_all concat].
  - intros [= <-]. rewrite app_nil_r. now split_and.
  - destruct (write f t) as [t1 |] eqn:E; cbn [bind]; [| discriminate].
    destruct (@write_wf pre f t t1 W C E) as (W1 & C1 & _).
    destruct (@write_text d0 pre f t t1 W C K T E) as (T1 & K1).
    intros H. rewrite app_assoc. apply (IH _ _ _ W1 C1 K1 T1 H).
Qed.

Lemma end_text (d0 : list append_call) (pre : jsstring) (t t' : LWMD) :
  wf pre t -> cursor_ok 0 t -> text_ok d0 pre (start t) (dom t) ->
  end_ t = Ok t' ->
  exists d, dom t' = d0 ++ d /\ subseq (text_of d) pre.
Proof.
  intros [Hf Hh] K T.
  assert (Hdone : forall s dm, text_ok d0 pre s dm ->
            exists d, dm = d0 ++ d /\ subseq (text_of d) pre).
  { intros s dm (d & -> & H). exists d. split; [reflexivity |].
    apply (@subseq_firstn _ _ _ (Z.to_nat s) H). }
  unfold end_. destruct (locked t) eqn:L; cbn [bind].
  - assert (Hf' : frame pre (set_locked false t)) by exact Hf.
    destruct Hh as (_ & _ & _ & Hu0).
    destruct (K L) as (K1 & K2). rewrite Z.add_0_r in K2.
    assert (Hp : position t = len pre) by apply Hf.
    unfold flush.
    change (locked (set_locked false t)) with false. cbn iota.
    change (chunks (set_locked false t)) with (chunks t).
    change (uncorfinmed_start (set_locked false t))
      with (uncorfinmed_start t).
    change (position (set_locked false t)) with (position t).
    rewrite (@getSubstring_consumed pre t (uncorfinmed_start t) Hf Hu0).
    destruct (len _ =? 0); cbn [bind].
    + intros [= <-]. apply (Hdone _ _ T).
    + unfold top_append.
      change (top (set_locked false t)) with (top t).
      rewrite (frame_top Hf). cbn [bind]. intros [= <-]. simpl.
      apply (Hdone (len pre)).
      rewrite <- (app_nil_r pre) at 1.
      apply text_ok_flush; [| lia | reflexivity].
      rewrite app_nil_r.
      apply (@text_ok_jump d0 pre (start t) _ (dom t) T K1).
  - intros [= <-]. apply (Hdone _ _ T).
Qed.

(** *** X17 *)

(** X17: the parser does not make up text.  The text that a stream of
    writes, and the [end] after it, append to the document is the text
    written with some of its code units left out: nothing is added, nothing
    is appended twice, and the order is kept. *)
Theorem text_comes_from_the_input (t : LWMD) (fragments : list jsstring)
    (t1 : LWMD) :
  write_all fragments (clearState t) = Ok t1 ->
  (exists d, dom t1 = dom t ++ d /\
     subseq (text_of d) (concat fragments)) /\
  (forall t', end_ t1 = Ok t' ->
     exists d, dom t' = dom t ++ d /\
       subseq (text_of d) (concat fragments)).
Proof.
  intros H.
  assert (T0 : text_ok (dom t) [] (start (clearState t))
                 (dom (clearState t))).
  { exists []. simpl. rewrite app_nil_r. split; [reflexivity |].
    apply subseq_nil. }
  assert (K0 : cursor_ok 0 (clearState t)) by (intros L; discriminate L).
  destruct (@write_all_text (dom t) fragments [] (clearState t) t1
              (wf_clearState t) eq_refl K0 T0 H) as (W & _ & T & K).
  cbn [app] in *. split.
  - destruct T as (d & -> & Hd). exists d. split; [reflexivity |].
    apply (@subseq_firstn _ _ _ _ Hd).
  - intros t' E. apply (@end_text (dom t) (concat fragments) t1 t' W K T E).
Qed.

(** X17 after "# T": the marker and the space are left out. *)
Lemma text_comes_from_the_input_witness :
  (exists d, dom after_title = dom (new_LWMD default_options) ++ d /\
     subseq (text_of d) (concat [js "# T"])) /\
  (forall t', end_ after_title = Ok t' ->
     exists d, dom t' = dom (new_LWMD default_options) ++ d /\
       subseq (text_of d) (concat [js "# T"])).
Proof.
  apply (@text_comes_from_the_input (new_LWMD default_options) [js "# T"]
           after_title).
  vm_compute. reflexivity.
Defined.

(** ** Text that cannot throw *)

Lemma safe_ok_flush (t t' : LWMD) : flush_ t = Ok t' -> safe_ok t -> safe_ok t'.
Proof.
  intros E. apply flush_state in E.
  unfold safe_ok, state_state, modifierStack, hr_char. now rewrite E.
Qed.

Lemma snoc_not_nil (A : Type) (l : list A) (x : A) : l ++ [x] <> [].
Proof. destruct l; discriminate. Qed.

Lemma safe_ok_write_char (c : Z) (t t' : LWMD) :
  calm c -> write_char c t = Ok t' -> safe_ok t -> safe_ok t'.
Proof.
  intros [Hc1 Hc2] H [Hm Hr]. unfold_step H. unfold safe_ok.
  destruct (state_state t) eqn:Hst;
    (first [specialize (Hm eq_refl) | clear Hm]);
    (first [specialize (Hr eq_refl) | clear Hr]);
    run_inv; subst; unfold down; repeat break_if; fields;
    bool_hyps; subst;
    repeat match goal with
    | H : State.hr_char _ = Some _, H' : State.hr_char _ = Some _ |- _ =>
        rewrite H in H'; injection H' as H'; subst
    | H : isModifierChar _ = true |- _ =>
        first [ discriminate H | vm_compute in H; discriminate H ]
    end;
    (split; intros; try discriminate; try congruence;
     try apply snoc_not_nil);
    unfold isModifierChar in *; bool_hyps;
    repeat match goal with
    | H : _ \/ _ |- _ => destruct H
    end;
    bool_hyps; try congruence;
    try (exfalso;
         unfold CHAR.NEWLINE, CHAR.UNDERSCORE, CHAR.ASTERISK, CHAR.DASH,
           CHAR.HASH, CHAR.TILDE in *; lia).
Qed.

Lemma calm_loop (cs : jsstring) :
  forall (pre rest : jsstring) (t : LWMD),
    wf pre t -> concat (chunks t) = pre ++ cs ++ rest -> safe_ok t ->
    Forall calm cs ->
    exists t', write_loop cs t = Ok t' /\ safe_ok t'.
Proof.
  induction cs as [| c cs IH]; intros pre rest t W C S Hc; cbn [write_loop].
  - now exists t.
  - inversion Hc as [| ? ? Hc1 Hc2]; subst.
    destruct (@write_char_total pre c t W (proj1 S)) as (t1 & E1).
    rewrite E1. cbn [bind]. cbn [app] in C.
    destruct (@write_char_wf pre c (cs ++ rest) t t1 W C E1) as (W1 & C1 & _).
    apply (IH (pre ++ [c]) rest t1 W1).
    + rewrite C1, C. now rewrite <- app_assoc.
    + apply (safe_ok_write_char Hc1 E1 S).
    + exact Hc2.
Qed.

Lemma calm_write (pre chunk : jsstring) (t : LWMD) :
  wf pre t -> concat (chunks t) = pre -> safe_ok t -> Forall calm chunk ->
  exists t', write chunk t = Ok t' /\ safe_ok t'.
Proof.
  intros W C S Hc. unfold write.
  match goal with
  | |- context [write_loop _ ?x] => remember x as t0 eqn:Ht0
  end.
  assert (C0 : concat (chunks t0) = pre ++ chunk ++ []).
  { rewrite Ht0. cbn [chunks set_chunks]. rewrite concat_app, C.
    reflexivity. }
  assert (W0 : wf pre t0).
  { rewrite Ht0. destruct W as ((P & Sx & _ & Kx) & H). split; [| exact H].
    unfold frame. split_and; auto. exists chunk. rewrite <- Ht0, C0.
    now rewrite app_nil_r. }
  assert (S0 : safe_ok t0) by (rewrite Ht0; exact S).
  destruct (@calm_loop chunk pre [] t0 W0 C0 S0 Hc) as (t1 & E1 & S1).
  rewrite E1. cbn [bind].
  destruct (Options.flush_on_write (options t1)); [| now exists t1].
  destruct (@write_loop_wf chunk pre [] t0 t1 W0 C0 E1) as (W1 & _).
  destruct (flush_wf W1) as (t2 & E2 & _).
  exists t2. split; [exact E2 |]. apply (safe_ok_flush E2 S1).
Qed.

Lemma calm_write_all (fragments : list jsstring) :
  forall (pre : jsstring) (t : LWMD),
    wf pre t -> concat (chunks t) = pre -> safe_ok t ->
    Forall (Forall calm) fragments ->
    exists t', write_all fragments t = Ok t' /\
      wf (pre ++ concat fragments) t'.
Proof.
  induction fragments as [| f fs IH]; intros pre t W C S Hc;
    cbn [write_all concat].
  - exists t. rewrite app_nil_r. now split.
  - inversion Hc as [| ? ? Hc1 Hc2]; subst.
    destruct (@calm_write (concat (chunks t)) f t W eq_refl S Hc1)
      as (t1 & E1 & S1).
    rewrite E1. cbn [bind].
    destruct (@write_wf (concat (chunks t)) f t t1 W eq_refl E1)
      as (W1 & C1 & _).
    rewrite app_assoc. apply (IH _ _ W1 C1 S1 Hc2).
Qed.

(** *** X18 *)

(** X18: text without '*' and '_' is parsed without a TypeError, however
    it is cut into fragments: every [write] of the stream and the [end]
    return. *)
Theorem no_emphasis_marker_no_throw (t : LWMD) (fragments : list jsstring) :
  Forall (Forall calm) fragments ->
  exists t', stream fragments (clearState t) = Ok t'.
Proof.
  intros Hc.
  assert (S0 : safe_ok (clearState t)) by (split; discriminate).
  destruct (@calm_write_all fragments [] (clearState t) (wf_clearState t)
              eq_refl S0 Hc) as (t1 & E1 & [F1 H1]).
  unfold stream. rewrite E1. cbn [bind]. unfold end_.
  destruct (locked t1); cbn [bind]; [| eexists; reflexivity].
  unfold flush. change (locked (set_locked false t1)) with false. cbn iota.
  destruct (len _ =? 0); cbn [bind]; [eexists; reflexivity |].
  unfold top_append. change (top (set_locked false t1)) with (top t1).
  rewrite (frame_top F1). cbn [bind]. eexists. reflexivity.
Qed.

(** X18 on the fragments "# a ~b", "~ -", "--", newline, "`c". *)
Lemma no_emphasis_marker_no_throw_witness :
  exists t',
    stream [js "# a ~b"; js "~ -"; js "--"; NEWLINE; js "`c"]
      (clearState (new_LWMD default_options)) = Ok t'.
Proof.
  apply (@no_emphasis_marker_no_throw (new_LWMD default_options)
           [js "# a ~b"; js "~ -"; js "--"; NEWLINE; js "`c"]).
  repeat constructor; discriminate.
Defined.

(** ** end *)

(** *** X19 *)

(** X19: in a state that a stream reaches, [end] returns: it appends at
    most one text node, to the current top, creates nothing, and leaves
    the parser cleared for the next document, with its options. *)
Theorem end_returns_and_clears (pre : jsstring) (t : LWMD) :
  wf pre t ->
  exists t', end_ t = Ok t' /\
    t' = clearState t' /\ options t' = options t /\
    created_count t' = created_count t /\
    (dom t' = dom t \/
     exists s, s <> [] /\
       dom t' = dom t ++ [(last (stack t) target, text s)]).
Proof.
  intros [Hf _]. unfold end_.
  destruct (locked t); cbn [bind].
  - unfold flush. change (locked (set_locked false t)) with false. cbn iota.
    destruct (len _ =? 0) eqn:E; cbn [bind].
    + eexists. split; [reflexivity |]. split_and; try reflexivity. now left.
    + unfold top_append. change (top (set_locked false t)) with (top t).
      rewrite (frame_top Hf). cbn [bind].
      eexists. split; [reflexivity |]. split_and; try reflexivity.
      right. eexists. split; [| reflexivity].
      intros X. rewrite X in E. discriminate E.
  - eexists. split; [reflexivity |]. split_and; try reflexivity. now left.
Qed.

(** X19 after "intro", newline, "##": the last '#' is appended. *)
Lemma end_returns_and_clears_witness :
  exists t', end_ after_intro_hashes = Ok t' /\
    t' = clearState t' /\ options t' = options after_intro_hashes /\
    created_count t' = created_count after_intro_hashes /\
    (dom t' = dom after_intro_hashes \/
     exists s, s <> [] /\
       dom t' =
         dom after_intro_hashes
         ++ [(last (stack after_intro_hashes) target, text s)]).
Proof.
  apply (@end_returns_and_clears (concat [js "intro"; NEWLINE; js "##"])
           after_intro_hashes).
  apply (@stack_ok_write_all [js "intro"; NEWLINE; js "##"] []
           (clearState (new_LWMD default_options)) after_intro_hashes).
  - apply wf_clearState.
  - reflexivity.
  - vm_compute. reflexivity.
Defined.

(** ** Line starts *)

Lemma write_char_line_start (c : Z) (t t' : LWMD) :
  write_char c t = Ok t' -> line_start t' = (c =? CHAR.NEWLINE).
Proof.
  unfold write_char. destruct (switch c t) as [t1 |]; [| discriminate].
  cbn [bind]. intros H. apply after_switch_line in H. destruct H as [H1 H2].
  destruct (c =? CHAR.NEWLINE) eqn:E; bool_hyps.
  - now apply H1.
  - now apply H2.
Qed.

Lemma write_loop_line_start (cs : jsstring) :
  forall (pre : jsstring) (t t' : LWMD),
    write_loop cs t = Ok t' -> line_start t = ends_line pre ->
    line_start t' = ends_line (pre ++ cs).
Proof.
  induction cs as [| c cs IH]; intros pre t t'; cbn [write_loop].
  - intros [= <-]. now rewrite app_nil_r.
  - destruct (write_char c t) as [t1 |] eqn:E; cbn [bind]; [| discriminate].
    intros H _. apply write_char_line_start in E.
    replace (pre ++ c :: cs) with ((pre ++ [c]) ++ cs)
      by (now rewrite <- app_assoc).
    apply (IH _ _ _ H). rewrite E. unfold ends_line.
    now rewrite last_last.
Qed.

Lemma write_line_start (pre chunk : jsstring) (t t' : LWMD) :
  write chunk t = Ok t' -> line_start t = ends_line pre ->
  line_start t' = ends_line (pre ++ chunk).
Proof.
  unfold write.
  destruct (write_loop chunk _) as [t1 |] eqn:E; cbn [bind]; [| discriminate].
  intros H L. apply (write_loop_line_start _ pre) in E; [| exact L].
  destruct (Options.flush_on_write (options t1)).
  - apply flush_state in H. unfold line_start in *. now rewrite H.
  - now injection H as <-.
Qed.

(** *** X20 *)

(** X20: [state.line_start] tells whether a line begins: in every state
    reached by writes to a cleared parser it is true exactly when nothing
    has been written yet or the last code unit written is a newline. *)
Theorem line_start_iff_after_newline (t : LWMD) (fragments : list jsstring)
    (t' : LWMD) :
  write_all fragments (clearState t) = Ok t' ->
  line_start t' = ends_line (concat fragments).
Proof.
  assert (G : forall fs pre t0 t1,
            write_all fs t0 = Ok t1 -> line_start t0 = ends_line pre ->
            line_start t1 = ends_line (pre ++ concat fs)).
  { induction fs as [| f fs IH]; intros pre t0 t1; cbn [write_all concat].
    - intros [= <-]. now rewrite app_nil_r.
    - destruct (write f t0) as [t2 |] eqn:E; cbn [bind]; [| discriminate].
      intros H L. rewrite app_assoc. apply (IH _ _ _ H).
      apply (@write_line_start pre f t0 t2 E L). }
  intros H. apply (G fragments [] (clearState t) t' H). reflexivity.
Qed.

(** X20 after "*", newline, and after "# T". *)
Lemma line_start_iff_after_newline_witness :
  line_start after_star_line = ends_line (concat [js "*" ++ NEWLINE]).
Proof.
  apply (@line_start_iff_after_newline (new_LWMD default_options)
           [js "*" ++ NEWLINE] after_star_line).
  vm_compute. reflexivity.
Defined.

(** ** The streamingMode field

    No method reads [this.streamingMode]: every operation commutes with
    setting it. *)

Lemma flush_mode (b : bool) (from : option Z) (to : Z) (t : LWMD) :
  flush from to (set_streamingMode b t) =
  map_result (fun r => (fst r, set_streamingMode b (snd r)))
    (flush from to t).
Proof.
  unfold flush, top_append.
  change (locked (set_streamingMode b t)) with (locked t).
  change (chunks (set_streamingMode b t)) with (chunks t).
  change (top (set_streamingMode b t)) with (top t).
  destruct (locked t); [reflexivity |].
  destruct (len _ =? 0); [reflexivity |].
  destruct (top t); reflexivity.
Qed.

Lemma flush__mode (b : bool) (t : LWMD) :
  flush_ (set_streamingMode b t) =
  map_result (set_streamingMode b) (flush_ t).
Proof.
  unfold flush_.
  change (start (set_streamingMode b t)) with (start t).
  change (position (set_streamingMode b t)) with (position t).
  rewrite flush_mode. destruct (flush _ _ t); reflexivity.
Qed.

Lemma up_mode (b : bool) (tag : tagName) (t : LWMD) :
  up tag (set_streamingMode b t) = map_result (set_streamingMode b) (up tag t).
Proof.
  unfold up, createElement, top_append. simpl.
  destruct (top t); reflexivity.
Qed.

Lemma down_mode (b : bool) (t : LWMD) :
  down (set_streamingMode b t) = set_streamingMode b (down t).
Proof.
  unfold down. change (stack (set_streamingMode b t)) with (stack t).
  destruct (1 <? length_of (stack t)); reflexivity.
Qed.

Lemma switch_mode (b : bool) (c : Z) (t : LWMD) :
  switch c (set_streamingMode b t) =
  map_result (set_streamingMode b) (switch c t).
Proof.
  unfold switch.
  change (state_state (set_streamingMode b t)) with (state_state t).
  destruct (state_state t); try reflexivity.
  - unfold case_NORMAL.
    change (line_start (set_streamingMode b t)) with (line_start t).
    rewrite !flush__mode.
    repeat break_if; try reflexivity; destruct (flush_ t); reflexivity.
  - unfold case_SEQUENCE_HEADING.
    destruct (c =? CHAR.HASH); [reflexivity |].
    destruct ((c =? CHAR.SPACE) || (c =? CHAR.NEWLINE)); [| reflexivity].
    match goal with
    | |- context [up ?tag (set_uncorfinmed_start ?u
                    (set_locked false (set_state_state NORMAL
                       (set_streamingMode b t))))] =>
        change (up tag (set_uncorfinmed_start u
                  (set_locked false (set_state_state NORMAL
                     (set_streamingMode b t)))))
          with (up (h (Z.min 6 (heading_count t)))
                  (set_streamingMode b
                     (set_uncorfinmed_start
                        (Some (toNumber (uncorfinmed_start t) + 2))
                        (set_locked false (set_state_state NORMAL t)))))
    end.
    rewrite up_mode. destruct (up _ _); reflexivity.
  - unfold case_SEQUENCE_HR.
    change (hr_char (set_streamingMode b t)) with (hr_char t).
    destruct (strict_eq c (hr_char t) || (c =? CHAR.SPACE)); [reflexivity |].
    change (hr_count (set_locked false (set_state_state NORMAL
                                          (set_streamingMode b t))))
      with (hr_count t).
    change (hr_count (set_locked false (set_state_state NORMAL t)))
      with (hr_count t).
    destruct ((2 <? hr_count t) && (c =? CHAR.NEWLINE)).
    + unfold top_append. simpl. destruct (top t); reflexivity.
    + change (hr_char (set_locked false (set_state_state NORMAL
                                           (set_streamingMode b t))))
        with (hr_char t).
      change (hr_char (set_locked false (set_state_state NORMAL t)))
        with (hr_char t).
      destruct (hr_char t) as [m |]; [| reflexivity].
      destruct (isModifierChar m); [| reflexivity].
      change (flush_ (set_locked false (set_state_state NORMAL
                                          (set_streamingMode b t))))
        with (flush_ (set_streamingMode b
                        (set_locked false (set_state_state NORMAL t)))).
      rewrite flush__mode. destruct (flush_ _); reflexivity.
  - unfold case_SEQUENCE_MODIFIER.
    change (modifierStack (set_streamingMode b t)) with (modifierStack t).
    change (modifierStack (set_locked false (set_state_state NORMAL
                                               (set_streamingMode b t))))
      with (modifierStack t).
    change (modifierStack (set_locked false (set_state_state NORMAL t)))
      with (modifierStack t).
    destruct (isModifierChar c);
      destruct (at_index (modifierStack t) (length_of (modifierStack t) - 1));
      try reflexivity.
    repeat break_if; reflexivity.
Qed.

Lemma after_switch_mode (b : bool) (c : Z) (t : LWMD) :
  after_switch c (set_streamingMode b t) =
  map_result (set_streamingMode b) (after_switch c t).
Proof.
  unfold after_switch.
  destruct (c =? CHAR.NEWLINE).
  - change (heading_count (set_modifierStack [] (set_line_start true
                                                    (set_streamingMode b t))))
      with (heading_count t).
    change (heading_count (set_modifierStack [] (set_line_start true t)))
      with (heading_count t).
    destruct (0 <? heading_count t); [| reflexivity].
    change (flush_ (set_modifierStack [] (set_line_start true
                                            (set_streamingMode b t))))
      with (flush_ (set_streamingMode b
                      (set_modifierStack [] (set_line_start true t)))).
    rewrite flush__mode. destruct (flush_ _) as [t1 |]; [| reflexivity].
    cbn [map_result bind]. rewrite down_mode. reflexivity.
  - change (line_start (set_streamingMode b t)) with (line_start t).
    destruct (line_start t); reflexivity.
Qed.

Lemma write_char_mode (b : bool) (c : Z) (t : LWMD) :
  write_char c (set_streamingMode b t) =
  map_result (set_streamingMode b) (write_char c t).
Proof.
  unfold write_char. rewrite switch_mode.
  destruct (switch c t); [| reflexivity]. cbn [map_result bind].
  apply after_switch_mode.
Qed.

Lemma write_loop_mode (b : bool) (chunk : jsstring) :
  forall t : LWMD,
    write_loop chunk (set_streamingMode b t) =
    map_result (set_streamingMode b) (write_loop chunk t).
Proof.
  induction chunk as [| c rest IH]; intros t; [reflexivity |].
  cbn [write_loop]. rewrite write_char_mode.
  destruct (write_char c t); [| reflexivity]. cbn [map_result bind].
  apply IH.
Qed.

Lemma write_mode (b : bool) (chunk : jsstring) (t : LWMD) :
  write chunk (set_streamingMode b t) =
  map_result (set_streamingMode b) (write chunk t).
Proof.
  unfold write.
  change (set_chunks (chunks (set_streamingMode b t) ++ [chunk])
            (set_streamingMode b t))
    with (set_streamingMode b (set_chunks (chunks t ++ [chunk]) t)).
  rewrite write_loop_mode.
  destruct (write_loop chunk _) as [t1 |]; [| reflexivity].
  cbn [map_result bind].
  change (options (set_streamingMode b t1)) with (options t1).
  destruct (Options.flush_on_write (options t1)); [| reflexivity].
  apply flush__mode.
Qed.

Lemma end_mode (b : bool) (t : LWMD) : end_ (set_streamingMode b t) = end_ t.
Proof.
  unfold end_.
  change (locked (set_streamingMode b t)) with (locked t).
  destruct (locked t); [| reflexivity].
  change (flush (uncorfinmed_start (set_locked false (set_streamingMode b t)))
            (position (set_locked false (set_streamingMode b t)))
            (set_locked false (set_streamingMode b t)))
    with (flush (uncorfinmed_start (set_locked false t))
            (position (set_locked false t))
            (set_streamingMode b (set_locked false t))).
  rewrite flush_mode. destruct (flush _ _ _) as [[r t1] |]; reflexivity.
Qed.

(** *** X21 *)

(** X21: [parse] is the streaming path.  [parse(text)] returns, and leaves
    the parser in, exactly what one [write] of the text and [end] give
    after a [reset] to an empty target: setting [streamingMode] to false
    changes nothing, since no method reads it. *)
Theorem parse_is_write_then_end (text : jsstring) (t : LWMD) :
  parse text t =
  map_result (fun t' => (dom t', t')) (stream [text] (reset [] t)).
Proof.
  unfold parse, stream, reset. cbn [write_all].
  rewrite write_mode.
  destruct (write text (clearState (set_dom [] t))) as [t1 |];
    [| reflexivity].
  cbn [map_result bind]. rewrite end_mode.
  destruct (end_ t1); reflexivity.
Qed.

(** * The recognizers in the states of a stream *)

(** The invariants of the states of a stream. *)
Lemma in_stream_inv (pre : jsstring) (t : LWMD) :
  in_stream pre t -> wf pre t /\ lock_ok t /\ open_ok t.
Proof.
  induction 1 as [t | pre chunk t H IH C | pre rest c t t' H IH C E
                 | pre t t' H IH C E].
  - split; [apply wf_clearState |]. split.
    + unfold lock_ok. simpl. intuition discriminate.
    + left. simpl. split_and; try reflexivity.
      unfold heading_count, state_state. simpl.
      intuition (try lia; try discriminate).
  - destruct IH as (W & L & O). split; [| now split].
    destruct W as ((P & Sx & _ & K) & Hh). split; [| exact Hh].
    unfold frame. split_and; auto. exists chunk.
    cbn [chunks set_chunks]. rewrite concat_app, C. cbn [concat].
    now rewrite app_nil_r.
  - destruct IH as (W & L & O).
    destruct (@write_char_wf pre c rest t t' W C E) as (W' & _).
    split; [exact W' |]. split.
    + apply (@lock_ok_write_char c t t' E L).
    + apply (@open_ok_write_char c t t' E O).
  - destruct IH as (W & L & O).
    destruct (flush_wf W) as (t2 & E2 & W2 & _).
    assert (t2 = t') by congruence. subst t2.
    split; [exact W2 |]. split.
    + apply (@lock_ok_flush t t' E L).
    + apply (@open_ok_flush t t' E O).
Qed.

(** In NORMAL at a line start of a stream the lock is released, no
    heading is open and the root is the top. *)
Lemma in_stream_line_start (pre : jsstring) (t : LWMD) :
  in_stream pre t -> state_state t = NORMAL -> line_start t = true ->
  wf pre t /\ locked t = false /\ heading_count t <= 0 /\
  stack t = [target] /\ top t = Some target.
Proof.
  intros H Hst Hls. destruct (in_stream_inv H) as (W & L & O).
  split; [exact W |]. split.
  - destruct (locked t) eqn:E; [| reflexivity].
    destruct (proj1 L E) as [X | X]; congruence.
  - destruct O as [(Hs & Ht & Hh) | (w & _ & _ & _ & _ & Hl & _)];
      [| congruence].
    split_and; auto.
    destruct (Z.ltb_spec 0 (heading_count t)) as [X | X]; [| exact X].
    apply Hh in X. congruence.
Qed.

(** The loop of [write], a [write] and a sequence of writes stay in the
    stream. *)
Lemma in_stream_write_loop (cs : jsstring) :
  forall (pre rest : jsstring) (t t' : LWMD),
    in_stream pre t -> concat (chunks t) = pre ++ cs ++ rest ->
    write_loop cs t = Ok t' ->
    in_stream (pre ++ cs) t' /\ chunks t' = chunks t.
Proof.
  induction cs as [| c cs IH]; intros pre rest t t' H C; cbn [write_loop].
  - intros [= <-]. rewrite app_nil_r. now split.
  - destruct (write_char c t) as [t1 |] eqn:E; cbn [bind]; [| discriminate].
    intros Hl. cbn [app] in C.
    pose proof (@in_stream_char pre (cs ++ rest) c t t1 H C E) as H1.
    destruct (in_stream_inv H) as (W & _).
    destruct (@write_char_wf pre c (cs ++ rest) t t1 W C E) as (_ & C1 & _).
    destruct (IH (pre ++ [c]) rest t1 t' H1) as (H' & C'); auto.
    + now rewrite C1, C, <- app_assoc.
    + rewrite <- app_assoc in H'. split; [exact H' | congruence].
Qed.

Lemma in_stream_write (pre chunk : jsstring) (t t' : LWMD) :
  in_stream pre t -> concat (chunks t) = pre -> write chunk t = Ok t' ->
  in_stream (pre ++ chunk) t' /\ concat (chunks t') = pre ++ chunk.
Proof.
  intros H C E.
  destruct (in_stream_inv H) as (W & _).
  destruct (@write_wf pre chunk t t' W C E) as (_ & C' & _).
  split; [| exact C']. revert E. unfold write.
  pose proof (@in_stream_begin pre chunk t H C) as H0.
  match goal with
  | |- context [write_loop _ ?x] => remember x as t0 eqn:Ht0
  end.
  assert (C0 : concat (chunks t0) = pre ++ chunk ++ []).
  { rewrite Ht0. cbn [chunks set_chunks]. rewrite concat_app, C.
    reflexivity. }
  destruct (write_loop chunk t0) as [t1 |] eqn:E1; cbn [bind];
    [| discriminate].
  destruct (@in_stream_write_loop chunk pre [] t0 t1 H0 C0 E1) as (H1 & C1).
  destruct (Options.flush_on_write (options t1)); [| now intros [= <-]].
  intros E2.
  assert (C1' : concat (chunks t1) = pre ++ chunk)
    by (rewrite C1, C0; now rewrite app_nil_r).
  apply (@in_stream_flush (pre ++ chunk) t1 t' H1 C1' E2).
Qed.

Lemma in_stream_write_all (fragments : list jsstring) :
  forall (pre : jsstring) (t t' : LWMD),
    in_stream pre t -> concat (chunks t) = pre ->
    write_all fragments t = Ok t' ->
    in_stream (pre ++ concat fragments) t' /\
    concat (chunks t') = pre ++ concat fragments.
Proof.
  induction fragments as [| f fs IH]; intros pre t t' H C;
    cbn [write_all concat].
  - intros [= <-]. rewrite app_nil_r. now split.
  - destruct (write f t) as [t1 |] eqn:E; cbn [bind]; [| discriminate].
    destruct (@in_stream_write pre f t t1 H C E) as (H1 & C1).
    intros E'. rewrite app_assoc. apply (IH _ _ _ H1 C1 E').
Qed.

(** ** C2: headings in a stream *)




(** ** C3: rules in a stream *)

Lemma skipn_len_app (a b : jsstring) : skipn (Z.to_nat (len a)) (a ++ b) = b.
Proof.
  unfold len. rewrite Nat2Z.id, skipn_app, skipn_all, Nat.sub_diag.
  reflexivity.
Qed.

(** The first marker of a rule run: what was pending is appended. *)
Lemma rule_entry_text (pre : jsstring) (m : Z) (t t1 : LWMD) :
  wf pre t -> state_state t = NORMAL -> line_start t = true ->
  locked t = false -> rule_marker m -> write_char m t = Ok t1 ->
  rendered (dom t1) = view pre t /\ start t1 = position t /\
  stack t1 = stack t /\ top t1 = top t /\
  heading_count t1 = heading_count t.
Proof.
  intros [Hf Hh] Hst Hls Hl Hm.
  destruct (flush_keeps Hf) as (tf & E & _ & _ & S & _ & _ & K & T & V).
  destruct (V Hl (proj1 Hh)) as (V1 & V2).
  unfold write_char, switch, case_NORMAL. rewrite Hst, Hls, E.
  assert (Hnh : (m =? CHAR.HASH) = false)
    by (destruct Hm as [-> | [-> | ->]]; reflexivity).
  assert (Hmk : (m =? CHAR.UNDERSCORE) || (m =? CHAR.ASTERISK)
                || (m =? CHAR.DASH) = true)
    by (destruct Hm as [-> | [-> | ->]]; reflexivity).
  assert (Hne : m <> CHAR.NEWLINE)
    by (destruct Hm as [-> | [-> | ->]]; discriminate).
  rewrite Hnh, Hmk. cbn [bind].
  rewrite (@after_switch_plain m) by assumption.
  intros [= <-]. unfold heading_count.
  break_match; simpl; rewrite ?S; split_and; auto.
Qed.

(** A further marker or space of a rule run changes the count only. *)
Lemma rule_continue_text (m x k : Z) (e : element) (n : nat)
    (els : list (element * element)) (stk : list modifier) (t t1 : LWMD) :
  in_rule_run m k e n els stk t -> rule_marker m ->
  x = m \/ x = CHAR.SPACE -> write_char x t = Ok t1 ->
  dom t1 = dom t /\ start t1 = start t /\ stack t1 = stack t /\
  heading_count t1 = heading_count t.
Proof.
  intros (Hst & Hc & Hk & Hl & Ht & Hn & He & Hs) Hm Hx.
  unfold write_char, switch, case_SEQUENCE_HR. rewrite Hst, Hc.
  cbn [strict_eq].
  assert (Hgo : (x =? m) || (x =? CHAR.SPACE) = true).
  { destruct Hx as [-> | ->]; [now rewrite Z.eqb_refl |].
    apply orb_true_r. }
  rewrite Hgo. cbn [bind].
  assert (Hne : x <> CHAR.NEWLINE).
  { destruct Hx as [-> | ->]; [| discriminate].
    destruct Hm as [-> | [-> | ->]]; discriminate. }
  rewrite (@after_switch_plain x) by assumption.
  intros [= <-]. unfold heading_count.
  break_match; simpl; split_and; reflexivity.
Qed.

Lemma rule_run_text (m : Z) (e : element) (n : nat)
    (els : list (element * element)) (stk : list modifier)
    (more : jsstring) :
  rule_marker m ->
  Forall (fun x => x = m \/ x = CHAR.SPACE) more ->
  forall (k : Z) (t t1 : LWMD),
    in_rule_run m k e n els stk t -> write_loop more t = Ok t1 ->
    dom t1 = dom t /\ start t1 = start t /\ stack t1 = stack t /\
    heading_count t1 = heading_count t.
Proof.
  intros Hm. induction more as [| x more IH]; intros Hall k t t1 H;
    cbn [write_loop].
  - intros [= <-]. now split_and.
  - inversion Hall as [| ? ? Hx Hall']; subst.
    destruct (rule_continue H Hm Hx) as (t2 & E2 & H2).
    rewrite E2. cbn [bind]. intros E1.
    destruct (@rule_continue_text m x k e n els stk t t2 H Hm Hx E2)
      as (A1 & A2 & A3 & A4).
    destruct (IH Hall' (k + 1) t2 t1 H2 E1) as (B1 & B2 & B3 & B4).
    split_and; congruence.
Qed.

(** The character after the run: what becomes of the text of the run. *)
Lemma rule_terminate_text (pre : jsstring) (m k c : Z) (e : element)
    (n : nat) (els : list (element * element)) (stk : list modifier)
    (t t' : LWMD) :
  frame pre t -> in_rule_run m k e n els stk t ->
  heading_count t <= 0 -> start t <= position t ->
  c <> m -> c <> CHAR.SPACE -> write_char c t = Ok t' ->
  stack t' = stack t /\ top t' = top t /\
  if (2 <? k) && (c =? CHAR.NEWLINE)
  then rendered (dom t') = rendered (dom t) ++ [EElem e (created n hr)] /\
       start t' = position t
  else if isModifierChar m
       then rendered (dom t') =
              rendered (dom t) ++ map (EChar e) (pending pre t) /\
            start t' = position t
       else dom t' = dom t /\ start t' = start t.
Proof.
  intros Hf (Hst & Hc & Hk & Hl & Ht & Hn & He & Hs) Hh Hsp Hcm Hcs H.
  assert (Hf' : frame pre (set_locked false (set_state_state NORMAL t)))
    by exact Hf.
  assert (Hp : position t = len pre) by apply Hf.
  assert (Hs0 : 0 <= start t) by apply Hf.
  assert (Hlast : last (stack t) target = e).
  { pose proof (frame_top Hf) as X. congruence. }
  unfold write_char, switch, case_SEQUENCE_HR in H.
  rewrite Hst, Hc in H. cbn [strict_eq] in H.
  assert (E1 : (c =? m) = false) by now apply Z.eqb_neq.
  assert (E2 : (c =? CHAR.SPACE) = false) by now apply Z.eqb_neq.
  rewrite E1, E2 in H. cbn [orb] in H.
  change (hr_count (set_locked false (set_state_state NORMAL t)))
    with (hr_count t) in H.
  change (hr_char (set_locked false (set_state_state NORMAL t)))
    with (hr_char t) in H.
  rewrite Hk, Hc in H. unfold after_switch in H.
  rewrite (flush_eq Hf') in H.
  change (locked (set_locked false (set_state_state NORMAL t)))
    with false in H.
  change (position (set_locked false (set_state_state NORMAL t)))
    with (position t) in H.
  change (start (set_locked false (set_state_state NORMAL t)))
    with (start t) in H.
  cbn [orb] in H.
  destruct (position t <=? start t) eqn:Eps;
    (destruct ((2 <? k) && (c =? CHAR.NEWLINE)) eqn:Econf;
     [| destruct (isModifierChar m) eqn:Emod]);
    cbn [bind] in H;
    run_inv_in pre Hf'; subst;
    unfold down; repeat break_if; fields; bool_hyps; try lia;
    rewrite ?rendered_app, ?rendered_elem, ?rendered_text, ?Hlast;
    unfold pending;
    try (replace (Z.to_nat (start t)) with (Z.to_nat (position t))
           by lia;
         rewrite Hp; unfold len; rewrite Nat2Z.id, skipn_all);
    simpl; rewrite ?app_nil_r; unfold len in *;
    split_and; try reflexivity; try congruence; try lia.
Qed.


